(** * GeneticInheritanceGraphLibrary: the table layer ([tables.py])

    A shallow embedding of [src/GeneticInheritanceGraphLibrary/tables.py]
    and the properties of its row records, table containers and the
    [Tables] aggregate (sort, decapitate, copy, tree-sequence import).

    Conventions of the embedding.
    - A Python call either returns or raises: [result A] is [Ok a] or
      [Err e], [e] carrying the exception class and a structured message.
    - A method that mutates its receiver takes the receiver last and
      returns the receiver as the call leaves it together with the result,
      also when the call raises. Tables that are local to a method are
      threaded through [result] alone.
    - [float] values are the finite ones (rationals, [Q]) plus the three
      non-finite ones; comparisons and negation of finite floats are exact.
      Node times in the typed layer are finite.
    - The run-time layer (row classes, [add_row], [append], [add_int_row],
      [_validate]) works on untyped values; the cross-table algorithms are
      embedded over well-typed rows, and the last section relates the
      two. *)

From Stdlib Require Import ZArith QArith Lia.
From Stdlib Require Import Sorting.Permutation Sorting.Sorted.
From stdpp Require Import base option list gmap strings.

Local Open Scope string_scope.
Local Open Scope list_scope.
Local Open Scope Z_scope.
Local Set Warnings "-register-all".

(* ===================================================================== *)
(** * Python values, exceptions *)
(* ===================================================================== *)

(** A Python [float]. *)
Inductive pyfloat : Type :=
| Finite (q : Q)
| PosInf
| NegInf
| NaN.

(** The run-time values that reach the row constructors. [PyInt] stands for
    [int] and for numpy's integer scalars ([np.integer]). *)
Inductive pyval : Type :=
| PyInt (z : Z)
| PyBool (b : bool)
| PyFloat (f : pyfloat)
| PyStr (s : string)
| PyNone
| PyTuple (l : list pyval).

(** The declared field types of the three row classes. *)
Inductive pytype : Type := TInt | TFloat | TTuple.

(** [isinstance(value, field.type)]; [bool] is a subclass of [int]. *)
Definition isinstance (v : pyval) (t : pytype) : bool :=
  match t, v with
  | TInt, PyInt _ => true
  | TInt, PyBool _ => true
  | TFloat, PyFloat _ => true
  | TTuple, PyTuple _ => true
  | _, _ => false
  end.

Inductive exn_class : Type :=
| AttributeError
| TypeError
| ValueError
| IndexError
| KeyError
| NotImplementedError.

(** What an exception says, kept structured where the source formats
    values into the text. *)
Inductive message : Type :=
| NoMessage
| Msg (s : string)
| ExpectedField (name : string) (ty : pytype) (got : pyval)
    (* "Expected {field.name} to be {field.type}, got {repr(value)}" *)
| ExpectedInteger (k : option string) (got : pyval)
    (* "Expected {k to be }an integer not {i}" *)
| CouldNotConvert (k : option string) (got : pyval)
    (* "Could not convert {k=}{i} to an integer" *)
| NoAttribute (name : string)
| MissingArgument (name : string)
| UnexpectedArgument (name : string)
| MultipleValues (name : string)
| TooManyPositional
| UnsupportedOperand (op : string).

Record exn : Type := Raise { exn_cls : exn_class; exn_msg : message }.

Inductive result (A : Type) : Type :=
| Ok (a : A)
| Err (e : exn).
Arguments Ok {A} a.
Arguments Err {A} e.

#[global] Instance result_ret : MRet result := fun A a => Ok a.
#[global] Instance result_bind : MBind result := fun A B f m =>
  match m with Ok a => f a | Err e => Err e end.
#[global] Instance result_fmap : FMap result := fun A B f m =>
  match m with Ok a => Ok (f a) | Err e => Err e end.

Definition raise {A} (c : exn_class) (m : message) : result A := Err (Raise c m).

Definition raises {A} (r : result A) (c : exn_class) : Prop :=
  exists m, r = Err (Raise c m).

(** [for x in xs: ...] over a body that may raise, threading the state. *)
Fixpoint foldM {A S : Type} (f : S -> A -> result S) (s : S) (xs : list A)
  : result S :=
  match xs with
  | [] => Ok s
  | x :: xs' => s' ← f s x; foldM f s' xs'
  end.

(** [[f(x) for x in xs]] over an [f] that may raise. *)
Fixpoint mapM_result {A B : Type} (f : A -> result B) (xs : list A)
  : result (list B) :=
  match xs with
  | [] => Ok []
  | x :: xs' => y ← f x; ys ← mapM_result f xs'; Ok (y :: ys)
  end.

(** Python sequence indexing [l[i]]: a negative index counts from the end,
    anything outside [-len, len) raises [IndexError]. *)
Definition py_index {A} (l : list A) (i : Z) : result A :=
  let n := Z.of_nat (length l) in
  let j := if i <? 0 then n + i else i in
  if (0 <=? j) && (j <? n) then
    match l !! Z.to_nat j with
    | Some x => Ok x
    | None => raise IndexError (Msg "list index out of range")
    end
  else raise IndexError (Msg "list index out of range").

(** [float.is_integer()] and [int(i)] on a float for which it holds. *)
Definition float_is_integer (f : pyfloat) : bool :=
  match f with
  | Finite q => (Qnum q mod Zpos (Qden q) =? 0)
  | _ => false
  end.

Definition float_to_int (f : pyfloat) : Z :=
  match f with
  | Finite q => Qnum q / Zpos (Qden q)
  | _ => 0
  end.

(** Insertion-ordered [dict] with string keys (keyword arguments, the
    mapping view of an object). *)
Abbreviation pydict := (list (string * pyval)).

Fixpoint dict_get {V} (k : string) (d : list (string * V)) : option V :=
  match d with
  | [] => None
  | (k', v) :: d' => if String.eqb k' k then Some v else dict_get k d'
  end.

Definition dict_mem {V} (k : string) (d : list (string * V)) : bool :=
  match dict_get k d with Some _ => true | None => false end.

(** [d[k] = v]: an existing key keeps its position. *)
Fixpoint dict_set {V} (k : string) (v : V) (d : list (string * V))
  : list (string * V) :=
  match d with
  | [] => [(k, v)]
  | (k', v') :: d' =>
      if String.eqb k' k then (k, v) :: d' else (k', v') :: dict_set k v d'
  end.

(** [d.update(other)] *)
Definition dict_update {V} (d other : list (string * V)) : list (string * V) :=
  fold_left (fun acc kv => dict_set (fst kv) (snd kv) acc) other d.

Definition str_in (k : string) (l : list string) : bool :=
  existsb (String.eqb k) l.

(* ===================================================================== *)
(** * Constants *)
(* ===================================================================== *)

(** The names imported from [.constants], a module of the repository that
    is not part of the sources at hand: their values are parameters of the
    development. *)
Class Constants : Type := {
  NULL : Z;
  NODE_IS_SAMPLE : Z;
  VALID_GIG : Z;
  IEDGES_PARENT_OLDER_THAN_CHILD : Z
}.

(** Modelled from the spec: [constants.py] is missing; the spec speaks of a
    null sentinel, of bit 0 of a node's flags as the sample bit, of a flag
    word that defaults to fully valid and of a guarantee bit "parent
    strictly older than child". These values follow tskit's conventions
    ([NULL = -1], [NODE_IS_SAMPLE = 1]) and are used for the concrete
    scenarios only; the general theorems hold for all constants. *)
Definition tskit_like_constants : Constants := {|
  NULL := -1;
  NODE_IS_SAMPLE := 1;
  VALID_GIG := 3;
  IEDGES_PARENT_OLDER_THAN_CHILD := 2
|}.

(* ===================================================================== *)
(** * Row records (the dataclasses), as they behave at run time *)
(* ===================================================================== *)

Record field : Type := Field {
  fname : string;
  ftype : pytype;
  kw_only : bool;
  fdefault : option pyval
}.

(** A row class: [__annotations__] (which keeps the [KW_ONLY] marker [_])
    and [dataclasses.fields]. *)
Record rowclass : Type := RowClass {
  annotations : list string;
  fields : list field
}.

(** An instance of a row class: its field values in declaration order. *)
Abbreviation dynrow := (list (string * pyval)).

Section RowClasses.
Context {K : Constants}.

Definition IEdgeTableRow_class : rowclass := {|
  annotations := ["child_left"; "child_right"; "parent_left"; "parent_right";
                  "_"; "child"; "parent"; "edge"; "child_chromosome";
                  "parent_chromosome"];
  fields := [ Field "child_left" TInt false None;
              Field "child_right" TInt false None;
              Field "parent_left" TInt false None;
              Field "parent_right" TInt false None;
              Field "child" TInt true None;
              Field "parent" TInt true None;
              Field "edge" TInt true (Some (PyInt NULL));
              Field "child_chromosome" TInt true (Some (PyInt NULL));
              Field "parent_chromosome" TInt true (Some (PyInt NULL)) ]
|}.

Definition NodeTableRow_class : rowclass := {|
  annotations := ["time"; "flags"; "individual"];
  fields := [ Field "time" TFloat false None;
              Field "flags" TInt false (Some (PyInt 0));
              Field "individual" TInt false (Some (PyInt NULL)) ]
|}.

Definition IndividualTableRow_class : rowclass := {|
  annotations := ["parents"];
  fields := [ Field "parents" TTuple false (Some (PyTuple [])) ]
|}.
End RowClasses.

(** The generated [__init__]: positional arguments fill the leading
    non-keyword-only fields, keywords the rest, defaults what is left; any
    mismatch of names or arity is the interpreter's [TypeError] (which of
    several applicable texts it reports is not modelled). No field value is
    inspected. *)
Fixpoint bind_positional (fs : list field) (args : list pyval)
  : result dynrow :=
  match args, fs with
  | [], _ => Ok []
  | a :: args', f :: fs' =>
      if kw_only f then raise TypeError TooManyPositional
      else rest ← bind_positional fs' args'; Ok ((fname f, a) :: rest)
  | _ :: _, [] => raise TypeError TooManyPositional
  end.

Definition check_keyword (fs : list field) (pos : dynrow) (kv : string * pyval)
  : result unit :=
  if negb (str_in (fst kv) (map fname fs)) then
    raise TypeError (UnexpectedArgument (fst kv))
  else if dict_mem (fst kv) pos then
    raise TypeError (MultipleValues (fst kv))
  else Ok tt.

Definition field_value (pos : dynrow) (kwargs : pydict) (f : field)
  : result (string * pyval) :=
  match dict_get (fname f) pos with
  | Some v => Ok (fname f, v)
  | None =>
      match dict_get (fname f) kwargs with
      | Some v => Ok (fname f, v)
      | None =>
          match fdefault f with
          | Some d => Ok (fname f, d)
          | None => raise TypeError (MissingArgument (fname f))
          end
      end
  end.

Definition construct (c : rowclass) (args : list pyval) (kwargs : pydict)
  : result dynrow :=
  pos ← bind_positional (fields c) args;
  _ ← mapM_result (check_keyword (fields c) pos) kwargs;
  mapM_result (field_value pos kwargs) (fields c).

(** [TableRow._validate] *)
Definition validate_field (r : dynrow) (f : field) : result unit :=
  match dict_get (fname f) r with
  | None => raise AttributeError (NoAttribute (fname f))
  | Some value =>
      if negb (isinstance value (ftype f)) then
        raise ValueError (ExpectedField (fname f) (ftype f) value)
      else Ok tt
  end.

Definition _validate (c : rowclass) (r : dynrow) : result unit :=
  foldM (fun _ f => validate_field r f) tt (fields c).

(** [TableRow.asdict] *)
Definition asdict (r : dynrow) : pydict := r.

(* ===================================================================== *)
(** * The generic table container ([BaseTable]) *)
(* ===================================================================== *)

(** [_data] is a [list] until [freeze] turns it into a [tuple]. *)
Inductive seq_kind : Type := ListSeq | TupleSeq.

Record BaseTable (R : Type) : Type := mkBaseTable {
  _data : list R;
  _data_kind : seq_kind;
  _frozen : bool
}.
Arguments mkBaseTable {R} _ _ _.
Arguments _data {R} _.
Arguments _data_kind {R} _.
Arguments _frozen {R} _.

Definition frozen_error : exn :=
  Raise AttributeError (Msg "Trying to set attribute on a frozen instance").

Section BaseTable.
Context {R : Type}.

(** [BaseTable.__init__] ([_frozen = False] is the class attribute). *)
Definition BaseTable_init : BaseTable R := mkBaseTable [] ListSeq false.

(** [BaseTable.__setattr__]: every assignment [self.x = v] goes through
    it; [upd] is the assignment. *)
Definition setattr (upd : BaseTable R -> BaseTable R) (t : BaseTable R)
  : BaseTable R * result unit :=
  if _frozen t then (t, Err frozen_error) else (upd t, Ok tt).

Definition set_data (rows : list R) (k : seq_kind) (t : BaseTable R)
  : BaseTable R :=
  mkBaseTable rows k (_frozen t).

Definition set_frozen (b : bool) (t : BaseTable R) : BaseTable R :=
  mkBaseTable (_data t) (_data_kind t) b.

(** [BaseTable.freeze] *)
Definition freeze (t : BaseTable R) : BaseTable R * result unit :=
  match setattr (set_data (_data t) TupleSeq) t with
  | (t1, Ok _) => setattr (set_frozen true) t1
  | (t1, Err e) => (t1, Err e)
  end.

(** [BaseTable.copy]: a new table of the same class, then
    [copy._data = list(self._data).copy()]. *)
Definition copy (t : BaseTable R) : BaseTable R :=
  fst (setattr (set_data (_data t) ListSeq) BaseTable_init).

(** [BaseTable.__eq__]: [tuple(self._data) == tuple(other._data)]. *)
Definition table_eq (t1 t2 : BaseTable R) : Prop := _data t1 = _data t2.

(** [BaseTable.clear] *)
Definition clear (t : BaseTable R) : BaseTable R * result unit :=
  setattr (set_data [] ListSeq) t.

(** [BaseTable.__len__], [BaseTable.__getitem__] *)
Definition len (t : BaseTable R) : Z := Z.of_nat (length (_data t)).
Definition getitem (t : BaseTable R) (i : Z) : result R := py_index (_data t) i.

(** The statement of [add_row], [self._data.append(row)], for a row
    expression [mk] that may raise: the method [append] is looked up on
    [_data] first (a tuple has none), then the row is built, then it is
    appended; the result is [len(self._data) - 1]. *)
Definition append_row (mk : result R) (t : BaseTable R)
  : BaseTable R * result Z :=
  match _data_kind t with
  | TupleSeq => (t, raise AttributeError (NoAttribute "append"))
  | ListSeq =>
      match mk with
      | Err e => (t, Err e)
      | Ok r =>
          let t' := mkBaseTable (_data t ++ [r]) ListSeq (_frozen t) in
          (t', Ok (len t' - 1))
      end
  end.
End BaseTable.

(** An object handed to [append]: a [dict], or a dataclass instance /
    an object with [asdict()]. *)
Inductive pyobj : Type :=
| DictObj (d : pydict)
| RowObj (r : dynrow).

(** [BaseTable.to_dict] *)
Definition to_dict (obj : pyobj) : pydict :=
  match obj with
  | DictObj d => d
  | RowObj r => asdict r
  end.

(** [{k: v for k, v in kwargs.items() if k in self.RowClass.__annotations__}] *)
Definition known_fields (c : rowclass) (kwargs : pydict) : pydict :=
  List.filter (fun kv => str_in (fst kv) (annotations c)) kwargs.

(** [BaseTable.add_row] for a table whose [RowClass] is [c]. *)
Definition add_row (c : rowclass) (args : list pyval) (kwargs : pydict)
  (t : BaseTable dynrow) : BaseTable dynrow * result Z :=
  append_row (construct c args kwargs) t.

(** [BaseTable.append] *)
Definition append (c : rowclass) (obj : pyobj) (t : BaseTable dynrow)
  : BaseTable dynrow * result Z :=
  let kwargs := to_dict obj in
  add_row c [] (known_fields c kwargs) t.

(** [BaseTable.add_rows]: [for row in rowlist: self.append(row)], with the
    [append] of the table's class. The rows appended before a failing one
    stay in the table. *)
Fixpoint add_rows_with {T : Type} (append : pyobj -> T -> T * result Z)
  (rowlist : list pyobj) (t : T) : T * result unit :=
  match rowlist with
  | [] => (t, Ok tt)
  | row :: rest =>
      match append row t with
      | (t', Ok _) => add_rows_with append rest t'
      | (t', Err e) => (t', Err e)
      end
  end.

Definition add_rows (c : rowclass) (rowlist : list pyobj)
  (t : BaseTable dynrow) : BaseTable dynrow * result unit :=
  add_rows_with (append c) rowlist t.


(** [BaseTable._check_int] *)
Definition _check_int (i : pyval) (k : option string) : result pyval :=
  match i with
  | PyInt _ | PyBool _ => Ok i
  | PyFloat f =>
      if float_is_integer f then Ok (PyInt (float_to_int f))
      else raise ValueError (ExpectedInteger k i)
  | _ => raise TypeError (CouldNotConvert k i)
  end.

(* ===================================================================== *)
(** * The interval-edge table ([IEdgeTable]) *)
(* ===================================================================== *)

Record IEdgeTable (R : Type) : Type := mkIEdgeTable {
  rows : BaseTable R;                      (* the inherited state *)
  flags : Z;
  first_edge_for_child : gmap Z Z
}.
Arguments mkIEdgeTable {R} _ _ _.
Arguments rows {R} _.
Arguments flags {R} _.
Arguments first_edge_for_child {R} _.

Section IEdgeTable.
Context {K : Constants} {R : Type}.

(** [IEdgeTable.__init__] *)
Definition IEdgeTable_init : IEdgeTable R :=
  mkIEdgeTable BaseTable_init VALID_GIG ∅.

(** An inherited method acting on the inherited state. *)
Definition inherited {A} (m : BaseTable R -> BaseTable R * result A)
  (t : IEdgeTable R) : IEdgeTable R * result A :=
  let '(b, r) := m (rows t) in
  (mkIEdgeTable b (flags t) (first_edge_for_child t), r).

(** [IEdgeTable.unset_bitflag]: [self.flags &= ~flag], an assignment. *)
Definition unset_bitflag (flag : Z) (t : IEdgeTable R)
  : IEdgeTable R * result unit :=
  if _frozen (rows t) then (t, Err frozen_error)
  else (mkIEdgeTable (rows t) (Z.land (flags t) (Z.lnot flag))
          (first_edge_for_child t), Ok tt).

(** [BaseTable.copy] on an [IEdgeTable]: [self.__class__()] runs
    [IEdgeTable.__init__], then only [_data] is assigned. *)
Definition IEdgeTable_copy (t : IEdgeTable R) : IEdgeTable R :=
  mkIEdgeTable (fst (setattr (set_data (_data (rows t)) ListSeq)
                       (rows IEdgeTable_init)))
    (flags IEdgeTable_init) (first_edge_for_child IEdgeTable_init).
End IEdgeTable.

Section IEdgeIngestion.
Context {K : Constants}.

(** [IEdgeTable._from_tskit] *)
Definition _from_tskit (kwargs : pydict) : pydict :=
  let new_kw :=
    fold_left (fun (new_kw : pydict) side =>
                 match dict_get side kwargs with
                 | Some v =>
                     dict_set ("parent_" ++ side)%string v
                       (dict_set ("child_" ++ side)%string v new_kw)
                 | None => new_kw
                 end)
      ["left"; "right"] [] in
  dict_update new_kw kwargs.

Definition pcols : list string :=
  ["child_left"; "child_right"; "parent_left"; "parent_right";
   "child"; "parent"].

(** [[self._check_int(v) if i < 4 else v for i, v in enumerate(args)]] *)
Fixpoint check_args (i : Z) (args : list pyval) : result (list pyval) :=
  match args with
  | [] => Ok []
  | v :: args' =>
      v' ← (if i <? 4 then _check_int v None else Ok v);
      rest ← check_args (i + 1) args';
      Ok (v' :: rest)
  end.

(** [{k: self._check_int(v) if k in pcols else v for k, v in kwargs.items()}] *)
Definition check_kwarg (kv : string * pyval) : result (string * pyval) :=
  if str_in (fst kv) pcols then
    v' ← _check_int (snd kv) None; Ok (fst kv, v')
  else Ok kv.

(** [IEdgeTable.add_int_row] *)
Definition add_int_row (args : list pyval) (kwargs : pydict)
  (t : IEdgeTable dynrow) : IEdgeTable dynrow * result Z :=
  match check_args 0 args with
  | Err e => (t, Err e)
  | Ok args' =>
      match mapM_result check_kwarg kwargs with
      | Err e => (t, Err e)
      | Ok kwargs' => inherited (add_row IEdgeTableRow_class args' kwargs') t
      end
  end.

(** [IEdgeTable.append] *)
Definition IEdgeTable_append (obj : pyobj) (t : IEdgeTable dynrow)
  : IEdgeTable dynrow * result Z :=
  let kwargs := _from_tskit (to_dict obj) in
  add_int_row [] (known_fields IEdgeTableRow_class kwargs) t.

(** [BaseTable.add_rows] on an interval-edge table. *)
Definition IEdgeTable_add_rows (rowlist : list pyobj) (t : IEdgeTable dynrow)
  : IEdgeTable dynrow * result unit :=
  add_rows_with IEdgeTable_append rowlist t.
End IEdgeIngestion.

(* ===================================================================== *)
(** * Well-typed rows and the [Tables] aggregate *)
(* ===================================================================== *)

(** The cross-table algorithms read fields as numbers. They are embedded
    over rows whose fields hold values of their declared types: integers
    are [Z], node times are finite floats ([Q]), [parents] is a sequence of
    integers. *)

Module IEdgeTableRow.
Record t : Type := mk {
  child_left : Z;
  child_right : Z;
  parent_left : Z;
  parent_right : Z;
  child : Z;
  parent : Z;
  edge : Z;
  child_chromosome : Z;
  parent_chromosome : Z
}.

Definition parent_span (r : t) : Z := parent_right r - parent_left r.
Definition child_span (r : t) : Z := child_right r - child_left r.

(** The same row as the run-time object it is. *)
Definition to_dyn (r : t) : dynrow :=
  [ ("child_left", PyInt (child_left r));
    ("child_right", PyInt (child_right r));
    ("parent_left", PyInt (parent_left r));
    ("parent_right", PyInt (parent_right r));
    ("child", PyInt (child r));
    ("parent", PyInt (parent r));
    ("edge", PyInt (edge r));
    ("child_chromosome", PyInt (child_chromosome r));
    ("parent_chromosome", PyInt (parent_chromosome r)) ].
End IEdgeTableRow.

Module NodeTableRow.
Record t : Type := mk {
  time : Q;
  flags : Z;
  individual : Z
}.

End NodeTableRow.

Module IndividualTableRow.
Record t : Type := mk {
  parents : list Z
}.
End IndividualTableRow.

Abbreviation NodeTable := (BaseTable NodeTableRow.t).
Abbreviation IndividualTable := (BaseTable IndividualTableRow.t).

(** [x < y] on finite floats. *)
Definition Qltb (x y : Q) : bool := negb (Qle_bool y x).

Record Tables : Type := mkTables {
  nodes : NodeTable;
  iedges : IEdgeTable IEdgeTableRow.t;
  individuals : IndividualTable;
  time_units : string;
  Tables_frozen : bool                     (* [Tables._frozen] *)
}.

(** The data attributes an instance of [Tables] has: [__init__] sets one
    per entry of [table_classes], and [time_units]. The class defines no
    [__getattr__], so any other name that is not a method fails to
    resolve. *)
Inductive slot : Type := SNodes | SIEdges | SIndividuals | STimeUnits.

Definition Tables_getattr (name : string) : result slot :=
  if String.eqb name "nodes" then Ok SNodes
  else if String.eqb name "iedges" then Ok SIEdges
  else if String.eqb name "individuals" then Ok SIndividuals
  else if String.eqb name "time_units" then Ok STimeUnits
  else raise AttributeError (NoAttribute name).

Section Tables.
Context {K : Constants}.

(** [Tables.__init__] *)
Definition Tables_init (time_units : option string) : Tables :=
  mkTables BaseTable_init IEdgeTable_init BaseTable_init
    (match time_units with None => "unknown" | Some u => u end) false.

(** [Tables.__setattr__] *)
Definition Tables_setattr (upd : Tables -> Tables) (T : Tables)
  : Tables * result unit :=
  if Tables_frozen T then (T, Err frozen_error) else (upd T, Ok tt).

Definition set_nodes (v : NodeTable) (T : Tables) : Tables :=
  mkTables v (iedges T) (individuals T) (time_units T) (Tables_frozen T).
Definition set_iedges (v : IEdgeTable IEdgeTableRow.t) (T : Tables) : Tables :=
  mkTables (nodes T) v (individuals T) (time_units T) (Tables_frozen T).
Definition set_individuals (v : IndividualTable) (T : Tables) : Tables :=
  mkTables (nodes T) (iedges T) v (time_units T) (Tables_frozen T).
Definition set_time_units (v : string) (T : Tables) : Tables :=
  mkTables (nodes T) (iedges T) (individuals T) v (Tables_frozen T).
Definition set_Tables_frozen (v : bool) (T : Tables) : Tables :=
  mkTables (nodes T) (iedges T) (individuals T) (time_units T) v.

(** [Tables.__eq__] *)
Definition Tables_eq (T1 T2 : Tables) : Prop :=
  table_eq (nodes T1) (nodes T2)
  /\ table_eq (rows (iedges T1)) (rows (iedges T2))
  /\ table_eq (individuals T1) (individuals T2)
  /\ time_units T1 = time_units T2.

(** [sequence[value]] with a run-time value as the index. *)
Definition index_by {A} (l : list A) (v : pyval) : result A :=
  match v with
  | PyInt z => py_index l z
  | PyBool b => py_index l (if b then 1 else 0)
  | _ => raise TypeError (Msg "list indices must be integers or slices")
  end.

(** [kwargs[name]] *)
Definition kwargs_item (name : string) (kwargs : pydict) : result pyval :=
  match dict_get name kwargs with
  | Some v => Ok v
  | None => raise KeyError (Msg name)
  end.

(** The [try] block of [add_iedge_row]: an [IndexError] raised by either
    node lookup becomes a [ValueError]; nothing else is caught. *)
Definition node_time_check (kwargs : pydict) (T : Tables) : result unit :=
  let body : result unit :=
    c ← kwargs_item "child" kwargs;
    child_node ← index_by (_data (nodes T)) c;
    p ← kwargs_item "parent" kwargs;
    parent_node ← index_by (_data (nodes T)) p;
    if Qle_bool (NodeTableRow.time parent_node) (NodeTableRow.time child_node)
    then raise ValueError (Msg "Child time is not less than parent time")
    else Ok tt in
  match body with
  | Err (Raise IndexError _) =>
      raise ValueError
        (Msg "Child or parent ID does not correspond to a node in the node table")
  | r => r
  end.

(** [self.<name>.unset_bitflag(flag)]: only the interval-edge table has
    the method. *)
Definition call_unset_bitflag (name : string) (flag : Z) (T : Tables)
  : Tables * result unit :=
  match Tables_getattr name with
  | Err e => (T, Err e)
  | Ok SIEdges =>
      let '(t, r) := unset_bitflag flag (iedges T) in
      (mkTables (nodes T) t (individuals T) (time_units T) (Tables_frozen T), r)
  | Ok _ => (T, raise AttributeError (NoAttribute "unset_bitflag"))
  end.

(** [self.<name>.add_row( *args**kwargs )]: the method is looked up, then
    the single argument expression [args ** kwargs], a [tuple] raised to
    a [dict], is evaluated. *)
Definition call_add_row_pow (name : string) (args : list pyval)
  (kwargs : pydict) (T : Tables) : Tables * result unit :=
  match Tables_getattr name with
  | Err e => (T, Err e)
  | Ok STimeUnits => (T, raise AttributeError (NoAttribute "add_row"))
  | Ok _ => (T, raise TypeError (UnsupportedOperand "**"))
  end.

(** [Tables.add_iedge_row] *)
Definition add_iedge_row (args : list pyval)
  (node_time_validation : option bool) (kwargs : pydict) (T : Tables)
  : Tables * result unit :=
  let '(T1, r) :=
    match node_time_validation with
    | Some true => (T, node_time_check kwargs T)
    | Some false => (T, Ok tt)
    | None => call_unset_bitflag "edges" IEDGES_PARENT_OLDER_THAN_CHILD T
    end in
  match r with
  | Err e => (T1, Err e)
  | Ok _ => call_add_row_pow "edges" args kwargs T1
  end.

(** [Tables.freeze]: the tables are frozen one after the other, so a table
    that is frozen already stops the loop after the earlier ones were
    frozen. *)
Definition Tables_freeze (T : Tables) : Tables * result unit :=
  match freeze (nodes T) with
  | (n, Err e) => (mkTables n (iedges T) (individuals T) (time_units T)
                     (Tables_frozen T), Err e)
  | (n, Ok _) =>
      match inherited freeze (iedges T) with
      | (ie, Err e) => (mkTables n ie (individuals T) (time_units T)
                          (Tables_frozen T), Err e)
      | (ie, Ok _) =>
          match freeze (individuals T) with
          | (ind, Err e) => (mkTables n ie ind (time_units T)
                               (Tables_frozen T), Err e)
          | (ind, Ok _) =>
              Tables_setattr (set_Tables_frozen true)
                (mkTables n ie ind (time_units T) (Tables_frozen T))
          end
      end
  end.

(** [Tables.clear]: the three tables are cleared one after the other, each
    by its own [clear]. *)
Definition Tables_clear (T : Tables) : Tables * result unit :=
  match clear (nodes T) with
  | (n, Err e) => (mkTables n (iedges T) (individuals T) (time_units T)
                     (Tables_frozen T), Err e)
  | (n, Ok _) =>
      match inherited clear (iedges T) with
      | (ie, Err e) => (mkTables n ie (individuals T) (time_units T)
                          (Tables_frozen T), Err e)
      | (ie, Ok _) =>
          match clear (individuals T) with
          | (ind, r) => (mkTables n ie ind (time_units T) (Tables_frozen T), r)
          end
      end
  end.



(** [Tables.copy] *)
Definition Tables_copy (T : Tables) : Tables :=
  let c := Tables_init None in
  let c := fst (Tables_setattr (set_nodes (copy (nodes T))) c) in
  let c := fst (Tables_setattr (set_iedges (IEdgeTable_copy (iedges T))) c) in
  let c := fst (Tables_setattr (set_individuals (copy (individuals T))) c) in
  fst (Tables_setattr (set_time_units (time_units T)) c).
End Tables.

(* ===================================================================== *)
(** * numpy: column arrays and [lexsort] *)
(* ===================================================================== *)

(** [array[indices]]: every index is resolved as in a Python sequence and
    one index out of bounds raises [IndexError]. *)
Definition np_take {A} (a : list A) (indices : list Z) : result (list A) :=
  mapM_result (py_index a) indices.

(** The sort key of one row under [np.lexsort((k1, k2, k3))]: the last
    array is the primary key. *)
Definition sort_key : Type := Q * Z * Z.   (* (k3, k2, k1) *)

Definition key_leb (a b : sort_key) : bool :=
  let '(a3, a2, a1) := a in
  let '(b3, b2, b1) := b in
  Qltb a3 b3
  || (Qeq_bool a3 b3 && ((a2 <? b2) || ((a2 =? b2) && (a1 <=? b1)))).

(** A stable sort: an element is placed before the first one it does not
    exceed, and the elements are inserted from the last to the first, so
    equal keys keep their order. *)
Fixpoint insert_by {A} (leb : A -> A -> bool) (x : A) (l : list A) : list A :=
  match l with
  | [] => [x]
  | y :: l' => if leb x y then x :: y :: l' else y :: insert_by leb x l'
  end.

Definition stable_sort {A} (leb : A -> A -> bool) (l : list A) : list A :=
  foldr (insert_by leb) [] l.

Definition keyed (keys : list sort_key) : list (nat * sort_key) :=
  zip (seq 0 (length keys)) keys.

(** [np.lexsort((k1, k2, k3))], by its documented contract: the indices
    that sort the rows by [k3], then [k2], then [k1], ties in input
    order. *)
Definition lexsort (k1 k2 : list Z) (k3 : list Q) : list nat :=
  let keys := zip (zip k3 k2) k1 in
  map fst (stable_sort (fun a b => key_leb (snd a) (snd b)) (keyed keys)).

(* ===================================================================== *)
(** * [Tables.sort], [Tables.decapitate], [Tables.from_tree_sequence] *)
(* ===================================================================== *)

Abbreviation IEdges := (IEdgeTable IEdgeTableRow.t).

Section Algorithms.
Context {K : Constants}.

(** [table.add_row(...)] with well-typed arguments: the constructor
    cannot fail. *)
Definition add_typed_row {R} (r : R) (t : BaseTable R) : result (BaseTable R * Z) :=
  match append_row (Ok r) t with
  | (t', Ok id) => Ok (t', id)
  | (_, Err e) => Err e
  end.

Definition iedges_add_row (r : IEdgeTableRow.t) (t : IEdges) : result IEdges :=
  '(b, _) ← add_typed_row r (rows t);
  Ok (mkIEdgeTable b (flags t) (first_edge_for_child t)).

(** [IEdgeTable.append(row)] for a row object of the table's own class:
    [asdict] yields the nine fields, none of them is named [left] or
    [right], [_check_int] returns integers as they are, and [add_row]
    rebuilds the row from its fields. *)
Definition iedges_append (r : IEdgeTableRow.t) (t : IEdges) : result IEdges :=
  iedges_add_row
    (IEdgeTableRow.mk
       (IEdgeTableRow.child_left r) (IEdgeTableRow.child_right r)
       (IEdgeTableRow.parent_left r) (IEdgeTableRow.parent_right r)
       (IEdgeTableRow.child r) (IEdgeTableRow.parent r)
       (IEdgeTableRow.edge r) (IEdgeTableRow.child_chromosome r)
       (IEdgeTableRow.parent_chromosome r)) t.

(** Column projection [table.<name>]. The properties of [IEdgeTable] and
    [NodeTable] read [self.data], which does not exist; the resulting
    [AttributeError] makes Python fall back to [BaseTable.__getattr__],
    which builds the array from [_data]. *)
Definition column {R A} (f : R -> A) (t : BaseTable R) : list A :=
  map f (_data t).

(** The [np.lexsort] call of [sort]. *)
Definition edge_order (T : Tables) : result (list nat) :=
  let child := column IEdgeTableRow.child (rows (iedges T)) in
  times ← np_take (column NodeTableRow.time (nodes T)) child;
  Ok (lexsort (column IEdgeTableRow.child_left (rows (iedges T)))
        child
        (map Qopp times)).

(** [Tables.sort] *)
Definition sort (T : Tables) : Tables * result unit :=
  if len (rows (iedges T)) =? 0 then (T, Ok tt)
  else
    match edge_order T with
    | Err e => (T, Err e)
    | Ok order =>
        match foldM (fun new_iedges i =>
                       row ← getitem (rows (iedges T)) (Z.of_nat i);
                       iedges_append row new_iedges)
                IEdgeTable_init order with
        | Err e => (T, Err e)
        | Ok new_iedges => Tables_setattr (set_iedges new_iedges) T
        end
    end.

(** The local variables of [decapitate] while it walks the nodes. *)
Record decap_state : Type := mkDecap {
  d_individuals : IndividualTable;
  d_individual_map : gmap Z Z;
  d_nodes : NodeTable;
  d_node_map : gmap Z Z
}.

Definition decap_init : decap_state :=
  mkDecap BaseTable_init {[ NULL := NULL ]} BaseTable_init ∅.

(** [d[k]] on a dict with integer keys. *)
Definition map_item (m : gmap Z Z) (k : Z) : result Z :=
  match m !! k with
  | Some v => Ok v
  | None => raise KeyError NoMessage
  end.

(** One iteration of [for u, nd in enumerate(self.nodes)]. *)
Definition decap_node (time : Q) (T : Tables) (s : decap_state)
  (u_nd : nat * NodeTableRow.t) : result decap_state :=
  let '(u, nd) := u_nd in
  if Qltb (NodeTableRow.time nd) time then
    let i := NodeTableRow.individual nd in
    indiv ← getitem (individuals T) i;
    '(inds, imap) ←
      match d_individual_map s !! i with
      | None =>
          let parents :=
            map (fun j => default NULL (d_individual_map s !! j))
              (IndividualTableRow.parents indiv) in
          '(inds, id) ← add_typed_row (IndividualTableRow.mk parents)
                          (d_individuals s);
          Ok (inds, <[ i := id ]> (d_individual_map s))
      | Some _ => Ok (d_individuals s, d_individual_map s)
      end;
    new_individual ← map_item imap i;
    '(nds, id) ← add_typed_row
                   (NodeTableRow.mk (NodeTableRow.time nd)
                      (NodeTableRow.flags nd) new_individual)
                   (d_nodes s);
    Ok (mkDecap inds imap nds (<[ Z.of_nat u := id ]> (d_node_map s)))
  else Ok s.

(** One iteration of [for ie in self.iedges]. *)
Definition decap_edge (node_map : gmap Z Z) (new_iedges : IEdges)
  (ie : IEdgeTableRow.t) : result IEdges :=
  match node_map !! IEdgeTableRow.parent ie with
  | Some _ =>
      c ← map_item node_map (IEdgeTableRow.child ie);
      p ← map_item node_map (IEdgeTableRow.parent ie);
      iedges_add_row
        (IEdgeTableRow.mk
           (IEdgeTableRow.child_left ie) (IEdgeTableRow.child_right ie)
           (IEdgeTableRow.parent_left ie) (IEdgeTableRow.parent_right ie)
           c p NULL NULL NULL)
        new_iedges
  | None => Ok new_iedges
  end.

Definition enumerate {A} (l : list A) : list (nat * A) :=
  zip (seq 0 (length l)) l.

(** Everything [decapitate] computes before it assigns to [self]. *)
Definition decap_build (time : Q) (T : Tables)
  : result (decap_state * IEdges) :=
  s ← foldM (decap_node time T) decap_init (enumerate (_data (nodes T)));
  new_iedges ← foldM (decap_edge (d_node_map s)) IEdgeTable_init
                 (_data (rows (iedges T)));
  Ok (s, new_iedges).

(** [Tables.decapitate] *)
Definition decapitate (time : Q) (T : Tables) : Tables * result unit :=
  match decap_build time T with
  | Err e => (T, Err e)
  | Ok (s, new_iedges) =>
      match Tables_setattr (set_nodes (d_nodes s)) T with
      | (T1, Err e) => (T1, Err e)
      | (T1, Ok _) =>
          match Tables_setattr (set_iedges new_iedges) T1 with
          | (T2, Err e) => (T2, Err e)
          | (T2, Ok _) =>
              match Tables_setattr (set_individuals (d_individuals s)) T2 with
              | (T3, Err e) => (T3, Err e)
              | (T3, Ok _) => sort T3
              end
          end
      end
  end.
End Algorithms.

Section TimeShift.
Context {K : Constants}.
(** [a + b] on floats (IEEE addition; its rounding is left open). *)
Variable float_add : Q -> Q -> Q.

(** One iteration of the loop of [change_times]. *)
Definition shift_node (timedelta : Q) (node_table : NodeTable)
  (node : NodeTableRow.t) : result NodeTable :=
  '(t', _) ← add_typed_row
               (NodeTableRow.mk (float_add (NodeTableRow.time node) timedelta)
                  (NodeTableRow.flags node) (NodeTableRow.individual node))
               node_table;
  Ok t'.

(** [Tables.change_times] *)
Definition change_times (timedelta : Q) (T : Tables) : Tables * result unit :=
  match foldM (shift_node timedelta) BaseTable_init (_data (nodes T)) with
  | Err e => (T, Err e)
  | Ok node_table => Tables_setattr (set_nodes node_table) T
  end.
End TimeShift.

(** ** The external table collection (tskit) *)

(** The rows of a tree sequence's tables, with the fields the import
    reads; [metadata], [population] and [location] are dropped by
    [append], which keeps only the names in [__annotations__]. *)
Module tskit.
Record NodeRow : Type := mkNode {
  flags : Z;
  time : Q;
  individual : Z
}.
Record EdgeRow : Type := mkEdge {
  left : Q;                              (* a float *)
  right : Q;
  parent : Z;
  child : Z
}.
Record IndividualRow : Type := mkIndividual {
  parents : list Z
}.
(** [ts.tables] and [ts.time_units]; of the tables that are only counted
    the number of rows is kept. *)
Record TableCollection : Type := mkTables {
  nodes : list NodeRow;
  edges : list EdgeRow;
  individuals : list IndividualRow;
  migrations_num_rows : nat;
  mutations_num_rows : nat;
  sites_num_rows : nat;
  populations_num_rows : nat;
  time_units : string
}.
End tskit.

Section TreeSequenceImport.
Context {K : Constants}.
(** [a + b] on floats (IEEE addition; its rounding is left open). *)
Variable float_add : Q -> Q -> Q.

(** [_check_int] on a float, and the integer it returns. *)
Definition check_int_float (x : Q) : result Z :=
  v ← _check_int (PyFloat (Finite x)) None;
  match v with
  | PyInt z => Ok z
  | _ => raise TypeError (CouldNotConvert None v)
  end.

(** [tables.nodes.append(obj)] after [obj["time"] += timedelta]. *)
Definition import_node (timedelta : Q) (t : NodeTable) (row : tskit.NodeRow)
  : result NodeTable :=
  '(t', _) ← add_typed_row
               (NodeTableRow.mk (float_add (tskit.time row) timedelta)
                  (tskit.flags row) (tskit.individual row)) t;
  Ok t'.

(** [tables.iedges.append(obj)]: [_from_tskit] puts [left] and [right]
    on both sides, [add_int_row] converts [child_left], [parent_left],
    [child_right], [parent_right] (in the order of the dict) and leaves
    the integers [parent] and [child] and the chromosome as they are. *)
Definition import_edge (chromosome : option Z) (t : IEdges)
  (row : tskit.EdgeRow) : result IEdges :=
  child_left ← check_int_float (tskit.left row);
  parent_left ← check_int_float (tskit.left row);
  child_right ← check_int_float (tskit.right row);
  parent_right ← check_int_float (tskit.right row);
  let chrom := match chromosome with Some c => c | None => NULL end in
  iedges_add_row
    (IEdgeTableRow.mk child_left child_right parent_left parent_right
       (tskit.child row) (tskit.parent row) NULL chrom chrom) t.

(** [tables.individuals.append(obj)] *)
Definition import_individual (t : IndividualTable)
  (row : tskit.IndividualRow) : result IndividualTable :=
  '(t', _) ← add_typed_row (IndividualTableRow.mk (tskit.parents row)) t;
  Ok t'.

(** The three copying loops of [from_tree_sequence], on the local
    [tables]. *)
Definition import_rows (ts : tskit.TableCollection) (chromosome : option Z)
  (timedelta : Q) (tables : Tables) : result Tables :=
  n ← foldM (import_node timedelta) (nodes tables) (tskit.nodes ts);
  e ← foldM (import_edge chromosome) (iedges tables) (tskit.edges ts);
  i ← foldM import_individual (individuals tables) (tskit.individuals ts);
  Ok (mkTables n e i (time_units tables) (Tables_frozen tables)).

(** [Tables.from_tree_sequence] *)
Definition from_tree_sequence (ts : tskit.TableCollection)
  (chromosome : option Z) (timedelta : Q) : result Tables :=
  let tables := Tables_init (Some (tskit.time_units ts)) in
  if (0 <? tskit.migrations_num_rows ts)%nat then
    raise NotImplementedError NoMessage
  else if (0 <? tskit.mutations_num_rows ts)%nat then
    raise NotImplementedError NoMessage
  else if (0 <? tskit.sites_num_rows ts)%nat then
    raise NotImplementedError NoMessage
  else if (1 <? tskit.populations_num_rows ts)%nat then
    raise NotImplementedError NoMessage
  else
    tables ← import_rows ts chromosome timedelta tables;
    match sort tables with
    | (tables, Ok _) => Ok tables
    | (_, Err e) => Err e
    end.
End TreeSequenceImport.

(* ===================================================================== *)
(** * The vocabulary of the statements *)
(* ===================================================================== *)

(** ** Tables that are not frozen *)

(** A table as [__init__] and [add_row] leave it. *)
Definition unfrozen {R} (l : list R) : BaseTable R := mkBaseTable l ListSeq false.

(** An interval-edge table as [IEdgeTable()] and [add_row] leave it. *)
Definition fresh_iedges {K : Constants} (rs : list IEdgeTableRow.t) : IEdges :=
  mkIEdgeTable (mkBaseTable rs ListSeq false) VALID_GIG ∅.

(** The loop [for i in edge_order: new_iedges.append(self.iedges[i])]. *)
Definition rebuild {K : Constants} (t : BaseTable IEdgeTableRow.t)
  (order : list nat) : result IEdges :=
  foldM (fun new_iedges i =>
           row ← getitem t (Z.of_nat i); iedges_append row new_iedges)
    IEdgeTable_init order.

(** ** Ingestion *)

(** The value is an integer, or a float without fractional part. *)
Definition integral_valued (v : pyval) : bool :=
  match v with
  | PyInt _ | PyBool _ => true
  | PyFloat f => float_is_integer f
  | _ => false
  end.

(** The integer an integral-valued value is converted to. *)
Definition as_integer (v : pyval) : pyval :=
  match v with
  | PyFloat f => PyInt (float_to_int f)
  | _ => v
  end.

(** The error [_check_int] raises for a value that is not integral-valued:
    not-an-integer for a float, could-not-convert for what has no
    [is_integer]. *)
Definition check_error (v : pyval) : exn :=
  match v with
  | PyFloat _ => Raise ValueError (ExpectedInteger None v)
  | _ => Raise TypeError (CouldNotConvert None v)
  end.

(** The values [add_int_row] checks, in the order it checks them: the
    first four positional arguments, then the keywords named in [pcols]. *)
Definition checked_values (args : list pyval) (kwargs : pydict) : list pyval :=
  firstn 4 args
    ++ map snd (List.filter (fun kv => str_in (fst kv) pcols) kwargs).

(** The arguments as [add_int_row] hands them to [add_row] when every
    checked value is integral-valued. *)
Definition coerced_args (args : list pyval) : list pyval :=
  map as_integer (firstn 4 args) ++ skipn 4 args.

Definition coerced_kwargs (kwargs : pydict) : pydict :=
  map (fun kv => if str_in (fst kv) pcols
                 then (fst kv, as_integer (snd kv)) else kv) kwargs.

Definition not_integral (v : pyval) : bool := negb (integral_valued v).

(** The error with which [IEdgeTable.append] leaves on a frozen table: the
    integer conversion comes first, the missing [append] of the tuple
    second. *)
Definition frozen_append_error {K : Constants} (obj : pyobj) : exn :=
  match mapM_result check_kwarg
          (known_fields IEdgeTableRow_class (_from_tskit (to_dict obj))) with
  | Err e => e
  | Ok _ => Raise AttributeError (NoAttribute "append")
  end.

(** ** What [decapitate] keeps *)

Section Survivors.
Context {K : Constants}.
Variable time : Q.

(** A node row survives the cutoff. *)
Definition younger (nd : NodeTableRow.t) : bool :=
  Qltb (NodeTableRow.time nd) time.

(** Node [u] of [nds] exists and survives. *)
Definition node_survives (nds : list NodeTableRow.t) (u : Z) : bool :=
  (0 <=? u)
  && match nds !! Z.to_nat u with
     | Some nd => younger nd
     | None => false
     end.

(** The new id of a surviving node: the number of survivors before it.
    The remap is dense and keeps the order of the survivors. *)
Definition new_node_id (nds : list NodeTableRow.t) (u : Z) : Z :=
  Z.of_nat (length (List.filter younger (firstn (Z.to_nat u) nds))).

(** The dict [node_map] after the node loop has seen [nds]. *)
Definition node_map_of (nds : list NodeTableRow.t) (u : Z) : option Z :=
  if node_survives nds u then Some (new_node_id nds u) else None.

(** A reference to an individual of a table with [n] rows. *)
Definition individual_ref (n : nat) (p : Z) : Prop :=
  p = NULL \/ 0 <= p < Z.of_nat n.

(** Every parent reference in [inds] is [NULL] or a row of [inds]. *)
Definition parents_closed (inds : list IndividualTableRow.t) : Prop :=
  Forall (fun ind => Forall (individual_ref (length inds))
                       (IndividualTableRow.parents ind)) inds.

(** A surviving node is copied with its time and flags. *)
Definition node_copied (old new : NodeTableRow.t) : Prop :=
  NodeTableRow.time new = NodeTableRow.time old
  /\ NodeTableRow.flags new = NodeTableRow.flags old.

(** The state of the node loop after the nodes [seen]: the new node table
    holds the survivors among them, [node_map] is the dense remap, and
    every reference to an individual made so far points into the new
    individual table. *)
Record node_loop_inv (seen : list NodeTableRow.t) (s : decap_state) : Prop := {
  inv_nodes : exists new_nodes,
    d_nodes s = unfrozen new_nodes
    /\ Forall2 node_copied (List.filter younger seen) new_nodes;
  inv_node_map : forall u, d_node_map s !! u = node_map_of seen u;
  inv_individuals : exists new_inds,
    d_individuals s = unfrozen new_inds
    /\ parents_closed new_inds
    /\ forall k v, d_individual_map s !! k = Some v ->
                   individual_ref (length new_inds) v
}.

(** The edge is kept: its parent is a surviving node. *)
Definition edge_kept (nds : list NodeTableRow.t) (ie : IEdgeTableRow.t) : bool :=
  node_survives nds (IEdgeTableRow.parent ie).

(** The row written for a kept edge. *)
Definition remap_edge (nds : list NodeTableRow.t) (ie : IEdgeTableRow.t)
  : IEdgeTableRow.t :=
  IEdgeTableRow.mk
    (IEdgeTableRow.child_left ie) (IEdgeTableRow.child_right ie)
    (IEdgeTableRow.parent_left ie) (IEdgeTableRow.parent_right ie)
    (new_node_id nds (IEdgeTableRow.child ie))
    (new_node_id nds (IEdgeTableRow.parent ie))
    NULL NULL NULL.
End Survivors.

(** ** The order [sort] establishes *)

(** [key_leb] as a proposition. *)
Definition key_le (a b : sort_key) : Prop :=
  (a.1.1 < b.1.1)%Q
  \/ (a.1.1 == b.1.1)%Q
     /\ (a.1.2 < b.1.2 \/ a.1.2 = b.1.2 /\ a.2 <= b.2).

(** Row [a] may stand before row [b]: its key is not greater, and with
    equal keys it came first in the input. *)
Definition stably_before (a b : nat * sort_key) : Prop :=
  key_leb a.2 b.2 = true /\ (key_leb b.2 a.2 = true -> (a.1 < b.1)%nat).

Abbreviation by_key := (fun a b : nat * sort_key => key_leb a.2 b.2).

(** The key of an edge row: the negated time of its child, the child id,
    and the left coordinate on the child. *)
Definition edge_sort_key (T : Tables) (r : IEdgeTableRow.t) : result sort_key :=
  t ← py_index (column NodeTableRow.time (nodes T)) (IEdgeTableRow.child r);
  Ok (Qopp t, IEdgeTableRow.child r, IEdgeTableRow.child_left r).

(** Rows [i] and [j] of the table before the sort are in the order [sort]
    establishes. *)
Definition in_sort_order (T : Tables) (i j : nat) : Prop :=
  exists ri rj ki kj,
    _data (rows (iedges T)) !! i = Some ri
    /\ _data (rows (iedges T)) !! j = Some rj
    /\ edge_sort_key T ri = Ok ki
    /\ edge_sort_key T rj = Ok kj
    /\ stably_before (i, ki) (j, kj).

(** ** What the import writes *)

Section Imported.
Context {K : Constants}.
Variable float_add : Q -> Q -> Q.
Variable chromosome : option Z.
Variable timedelta : Q.

(** The rows the import writes. *)
Definition imported_node (row : tskit.NodeRow) : NodeTableRow.t :=
  NodeTableRow.mk (float_add (tskit.time row) timedelta)
    (tskit.flags row) (tskit.individual row).

Definition imported_edge (row : tskit.EdgeRow) : IEdgeTableRow.t :=
  let chrom := match chromosome with Some c => c | None => NULL end in
  IEdgeTableRow.mk
    (float_to_int (Finite (tskit.left row)))
    (float_to_int (Finite (tskit.right row)))
    (float_to_int (Finite (tskit.left row)))
    (float_to_int (Finite (tskit.right row)))
    (tskit.child row) (tskit.parent row) NULL chrom chrom.

Definition imported_individual (row : tskit.IndividualRow)
  : IndividualTableRow.t :=
  IndividualTableRow.mk (tskit.parents row).

(** Both coordinates of the edge are whole numbers. *)
Definition integral_coordinates (row : tskit.EdgeRow) : bool :=
  float_is_integer (Finite (tskit.left row))
  && float_is_integer (Finite (tskit.right row)).

(** None of the features the import refuses. *)
Definition supported (ts : tskit.TableCollection) : Prop :=
  tskit.migrations_num_rows ts = 0%nat
  /\ tskit.mutations_num_rows ts = 0%nat
  /\ tskit.sites_num_rows ts = 0%nat
  /\ (tskit.populations_num_rows ts <= 1)%nat.
End Imported.

(** ** Scenarios *)

Section Scenario.
Context {K : Constants}.

Definition scenario_node (t : Q) : NodeTableRow.t := NodeTableRow.mk t 0 NULL.
Definition scenario_edge (c p : Z) : IEdgeTableRow.t :=
  IEdgeTableRow.mk 0 10 0 10 c p NULL NULL NULL.

(** Nodes at times 0.0, 1.0, 2.0, the edges 0 <- 1 and 1 <- 2, no
    individuals. *)
Definition scenario : Tables :=
  mkTables (unfrozen [scenario_node 0; scenario_node 1; scenario_node 2])
    (mkIEdgeTable (unfrozen [scenario_edge 0 1; scenario_edge 1 2]) VALID_GIG ∅)
    (unfrozen []) "unknown" false.

Definition scenario_sorted : Tables :=
  mkTables (unfrozen [scenario_node 0; scenario_node 1; scenario_node 2])
    (mkIEdgeTable (unfrozen [scenario_edge 1 2; scenario_edge 0 1]) VALID_GIG ∅)
    (unfrozen []) "unknown" false.

(** Four nodes at times 0, 1, 2, 3; node 3 is the parent of node 0 and
    node 2 the parent of node 1: every parent is older than its child. *)
Definition crossing : Tables :=
  mkTables (unfrozen [scenario_node 0; scenario_node 1; scenario_node 2;
                      scenario_node 3])
    (mkIEdgeTable (unfrozen [scenario_edge 0 3; scenario_edge 1 2]) VALID_GIG ∅)
    (unfrozen []) "unknown" false.

Definition crossing_sorted : Tables :=
  mkTables (unfrozen [scenario_node 0; scenario_node 1; scenario_node 2;
                      scenario_node 3])
    (mkIEdgeTable (unfrozen [scenario_edge 1 2; scenario_edge 0 3]) VALID_GIG ∅)
    (unfrozen []) "unknown" false.

(** The times of the parent nodes, read along the edge table. *)
Definition parent_times (T : Tables) : result (list Q) :=
  np_take (column NodeTableRow.time (nodes T))
    (column IEdgeTableRow.parent (rows (iedges T))).

(** The edge table of the scenario after
    [unset_bitflag(IEDGES_PARENT_OLDER_THAN_CHILD)]. *)
Definition scenario_unchecked : IEdges :=
  mkIEdgeTable (unfrozen [scenario_edge 0 1; scenario_edge 1 2])
    (Z.land VALID_GIG (Z.lnot IEDGES_PARENT_OLDER_THAN_CHILD)) ∅.
End Scenario.

Section Demo.
Context {K : Constants}.

(** Two nodes of one individual at times 0 and 1, a node at time 2
    without individual; an edge 0 <- 1 that carries an edge id and
    chromosome tags, and an edge 0 <- 2. *)
Definition pedigree : Tables :=
  mkTables
    (unfrozen [NodeTableRow.mk 0 0 0; NodeTableRow.mk 1 0 0;
               NodeTableRow.mk 2 0 NULL])
    (mkIEdgeTable
       (unfrozen [IEdgeTableRow.mk 0 10 0 10 0 1 7 8 9;
                  IEdgeTableRow.mk 0 10 0 10 0 2 NULL NULL NULL]) 0 ∅)
    (unfrozen [IndividualTableRow.mk [5; NULL; 0]]) "unknown" false.

Definition pedigree_cut : Tables :=
  mkTables
    (unfrozen [NodeTableRow.mk 0 0 0; NodeTableRow.mk 1 0 0])
    (fresh_iedges [IEdgeTableRow.mk 0 10 0 10 0 1 NULL NULL NULL])
    (unfrozen [IndividualTableRow.mk [NULL; NULL; NULL]]) "unknown" false.
End Demo.

(** A tree sequence of two nodes and one edge over [0, 10). *)
Definition two_node_ts : tskit.TableCollection :=
  tskit.mkTables
    [tskit.mkNode 1 0 (-1); tskit.mkNode 0 1 (-1)]
    [tskit.mkEdge 0 10 1 0]
    [] 0 0 0 1 "generations".

(** The same, with the edge ending at position 2.5. *)
Definition fractional_ts : tskit.TableCollection :=
  tskit.mkTables
    [tskit.mkNode 1 0 (-1); tskit.mkNode 0 1 (-1)]
    [tskit.mkEdge 0 (5 # 2) 1 0]
    [] 0 0 0 1 "generations".

(** ** Typed rows as run-time rows *)

Definition node_to_dyn (r : NodeTableRow.t) : dynrow :=
  [ ("time", PyFloat (Finite (NodeTableRow.time r)));
    ("flags", PyInt (NodeTableRow.flags r));
    ("individual", PyInt (NodeTableRow.individual r)) ].

Definition individual_to_dyn (r : IndividualTableRow.t) : dynrow :=
  [ ("parents", PyTuple (map PyInt (IndividualTableRow.parents r))) ].

(** ** More vocabulary: rows read from objects *)

(** The row [BaseTable.append] builds from an object. *)
Definition row_of (c : rowclass) (obj : pyobj) : result dynrow :=
  construct c [] (known_fields c (to_dict obj)).

(** A table of rows [l] with the given frozen state, as [add_row] leaves
    it. *)
Definition with_rows {R} (l : list R) (t : BaseTable R) : BaseTable R :=
  mkBaseTable l ListSeq (_frozen t).

(** ** More vocabulary: time shifts and samples *)

(** The node row [change_times] writes for a node. *)
Definition shifted_node (float_add : Q -> Q -> Q) (timedelta : Q)
  (node : NodeTableRow.t) : NodeTableRow.t :=
  NodeTableRow.mk (float_add (NodeTableRow.time node) timedelta)
    (NodeTableRow.flags node) (NodeTableRow.individual node).


(** What the validating branch of [add_iedge_row] raises for integer
    [child] and [parent]. *)
Definition validation_outcome (nds : list NodeTableRow.t) (c p : Z) : exn :=
  match py_index nds c, py_index nds p with
  | Ok child_node, Ok parent_node =>
      if Qle_bool (NodeTableRow.time parent_node) (NodeTableRow.time child_node)
      then Raise ValueError (Msg "Child time is not less than parent time")
      else Raise AttributeError (NoAttribute "edges")
  | _, _ =>
      Raise ValueError
        (Msg "Child or parent ID does not correspond to a node in the node table")
  end.

(** ** More vocabulary: reading the sorted edge table *)

(** The times of the child nodes, read along the edge table. *)
Definition child_times (T : Tables) : result (list Q) :=
  np_take (column NodeTableRow.time (nodes T))
    (column IEdgeTableRow.child (rows (iedges T))).

(** Row [r1] may stand before row [r2] by the key of [sort]. *)
Definition key_ordered (T : Tables) (r1 r2 : IEdgeTableRow.t) : Prop :=
  exists k1 k2,
    edge_sort_key T r1 = Ok k1
    /\ edge_sort_key T r2 = Ok k2
    /\ key_leb k1 k2 = true.

(** The index names a node, counting from the end when negative. *)
Definition names_node (T : Tables) (c : Z) : Prop :=
  - len (nodes T) <= c < len (nodes T).

(** ** More vocabulary: when [decapitate] can run *)

(** The index names an individual, counting from the end when negative. *)
Definition names_individual (T : Tables) (i : Z) : Prop :=
  - len (individuals T) <= i < len (individuals T).

(** The tables the node loop of [decapitate] fills are the lists
    [add_row] can append to. *)
Definition loop_tables_ok (s : decap_state) : Prop :=
  _data_kind (d_individuals s) = ListSeq /\ _data_kind (d_nodes s) = ListSeq.

(** An edge whose parent survives the cutoff while its child does not. *)
Definition child_outlives_cutoff (time : Q) (T : Tables) (ie : IEdgeTableRow.t)
  : Prop :=
  edge_kept time (_data (nodes T)) ie = true
  /\ node_survives time (_data (nodes T)) (IEdgeTableRow.child ie) = false.

(** ** More vocabulary: the shape of an imported edge *)

(** The row has the same interval on the child and on the parent, no edge
    id, and the chromosome [chrom] on both sides. *)
Definition tskit_shaped {K : Constants} (chrom : Z) (e : IEdgeTableRow.t) : Prop :=
  IEdgeTableRow.child_left e = IEdgeTableRow.parent_left e
  /\ IEdgeTableRow.child_right e = IEdgeTableRow.parent_right e
  /\ IEdgeTableRow.edge e = NULL
  /\ IEdgeTableRow.child_chromosome e = chrom
  /\ IEdgeTableRow.parent_chromosome e = chrom.

(** The child of the edge row is one of the [n] node rows, counting from
    the end when negative. *)
Definition child_among (n : nat) (row : tskit.EdgeRow) : Prop :=
  - Z.of_nat n <= tskit.child row < Z.of_nat n.

(** ** More vocabulary: objects handed to [append] *)

(** The key [_from_tskit] reads in place of one that is absent. *)
Definition tskit_alias (k : string) : option string :=
  if str_in k ["child_left"; "parent_left"] then Some "left"
  else if str_in k ["child_right"; "parent_right"] then Some "right"
  else None.

(** The field names of the class are distinct, and each is annotated. *)
Definition class_ok (c : rowclass) : Prop :=
  NoDup (map fname (fields c))
  /\ Forall (fun f => str_in (fname f) (annotations c) = true) (fields c).

(** The row has the fields of the class, in their order: the constructor
    made it. *)
Definition instance_of (c : rowclass) (r : dynrow) : Prop :=
  map fst r = map fname (fields c).

(** The object [from_tree_sequence] hands to [iedges.append] for an edge
    row of tskit ([left], [right], [parent], [child], [metadata]), after
    [obj["parent_chromosome"] = obj["child_chromosome"] = chromosome]. *)
Definition edge_obj (chromosome : option Z) (metadata : pyval)
  (row : tskit.EdgeRow) : pydict :=
  let obj := [ ("left", PyFloat (Finite (tskit.left row)));
               ("right", PyFloat (Finite (tskit.right row)));
               ("parent", PyInt (tskit.parent row));
               ("child", PyInt (tskit.child row));
               ("metadata", metadata) ] in
  match chromosome with
  | Some c =>
      dict_set "child_chromosome" (PyInt c)
        (dict_set "parent_chromosome" (PyInt c) obj)
  | None => obj
  end.

(* ===================================================================== *)
(** * Properties *)
(* ===================================================================== *)

(** ** The result monad *)

Lemma bind_ok_inv {A B} (m : result A) (k : A -> result B) (b : B) :
  m ≫= k = Ok b -> exists a, m = Ok a /\ k a = Ok b.
Proof. destruct m as [a|e]; simpl; [eauto | discriminate]. Qed.

Ltac inv_bind H :=
  let a := fresh "a" in
  let Ha := fresh "Ha" in
  apply bind_ok_inv in H; destruct H as (a & Ha & H).

Lemma foldM_app {A S} (f : S -> A -> result S) s xs ys :
  foldM f s (xs ++ ys) = foldM f s xs ≫= fun s' => foldM f s' ys.
Proof.
  revert s; induction xs as [|x xs IH]; intros s; simpl; [done|].
  destruct (f s x) as [s'|e]; simpl; [apply IH | done].
Qed.

Lemma foldM_snoc {A S} (f : S -> A -> result S) s xs x :
  foldM f s (xs ++ [x]) = foldM f s xs ≫= fun s' => f s' x.
Proof.
  rewrite foldM_app. destruct (foldM f s xs) as [s'|e]; simpl; [|done].
  by destruct (f s' x).
Qed.

(** An invariant of a loop: it holds at the start and every successful
    iteration carries it from the rows seen so far to one more. *)
Lemma foldM_invariant {A S} (f : S -> A -> result S)
  (P : list A -> S -> Prop) s0 xs s :
  P [] s0 ->
  (forall seen x s s', P seen s -> f s x = Ok s' -> P (seen ++ [x])%list s') ->
  foldM f s0 xs = Ok s -> P xs s.
Proof.
  intros H0 Hstep. revert s.
  induction xs as [|x xs IH] using rev_ind; intros s.
  - simpl. by intros [= <-].
  - rewrite foldM_snoc. intros H. inv_bind H. eauto.
Qed.

Lemma mapM_result_length {A B} (f : A -> result B) xs ys :
  mapM_result f xs = Ok ys -> length ys = length xs.
Proof.
  revert ys; induction xs as [|x xs IH]; intros ys; simpl.
  - by intros [= <-].
  - intros H. inv_bind H. inv_bind H. injection H as <-. simpl. f_equal. eauto.
Qed.

Lemma mapM_result_lookup {A B} (f : A -> result B) xs ys i x :
  mapM_result f xs = Ok ys -> xs !! i = Some x ->
  exists y, ys !! i = Some y /\ f x = Ok y.
Proof.
  revert ys i; induction xs as [|x' xs IH]; intros ys i; simpl; [done|].
  intros H. inv_bind H. inv_bind H. injection H as <-.
  destruct i as [|i]; simpl.
  - intros [= ->]. eauto.
  - eauto.
Qed.

Lemma mapM_result_total {A B} (f : A -> result B) xs :
  Forall (fun x => exists y, f x = Ok y) xs ->
  exists ys, mapM_result f xs = Ok ys.
Proof.
  induction 1 as [|x xs [y Hy] _ [ys Hys]]; simpl; [eauto|].
  rewrite Hy; simpl. rewrite Hys; simpl. eauto.
Qed.

(** ** Python indexing *)

Lemma py_index_ok {A} (l : list A) i x :
  py_index l i = Ok x ->
  exists j : nat, l !! j = Some x
    /\ (Z.of_nat j = i \/ Z.of_nat j = Z.of_nat (length l) + i).
Proof.
  unfold py_index. intros H.
  destruct (i <? 0) eqn:Hneg.
  - destruct (_ && _) eqn:Hb; [|done].
    apply andb_prop in Hb as [H1 H2].
    destruct (l !! _) as [y|] eqn:Hl; [|done]. injection H as ->.
    eexists; split; [exact Hl|]. right. lia.
  - destruct (_ && _) eqn:Hb; [|done].
    apply andb_prop in Hb as [H1 H2].
    destruct (l !! _) as [y|] eqn:Hl; [|done]. injection H as ->.
    eexists; split; [exact Hl|]. left. lia.
Qed.

Lemma py_index_nat {A} (l : list A) (j : nat) x :
  l !! j = Some x -> py_index l (Z.of_nat j) = Ok x.
Proof.
  intros H. pose proof (lookup_lt_Some _ _ _ H) as Hlt.
  unfold py_index.
  replace (Z.of_nat j <? 0) with false by lia.
  replace ((0 <=? Z.of_nat j) && (Z.of_nat j <? Z.of_nat (length l)))
    with true by lia.
  by rewrite Nat2Z.id, H.
Qed.

Lemma py_index_empty {A} (i : Z) :
  py_index (@nil A) i = raise IndexError (Msg "list index out of range").
Proof.
  unfold py_index; simpl.
  destruct (i <? 0) eqn:?; destruct (_ && _) eqn:Hb; try done;
    apply andb_prop in Hb; lia.
Qed.

Lemma py_index_in_range {A} (l : list A) i :
  0 <= i < Z.of_nat (length l) -> exists x, py_index l i = Ok x.
Proof.
  intros Hi. destruct (lookup_lt_is_Some_2 l (Z.to_nat i)) as [x Hx]; [lia|].
  exists x. rewrite <- (Z2Nat.id i) by lia. by apply py_index_nat.
Qed.

(** ** Row construction and [_validate] *)

Lemma dict_get_keys {V} (k : string) (d : list (string * V)) :
  In k (map fst d) -> exists v, dict_get k d = Some v.
Proof.
  induction d as [|[k' v'] d IH]; simpl; [done|].
  intros [->|Hin].
  - rewrite String.eqb_refl. eauto.
  - destruct (String.eqb k' k); eauto.
Qed.

Lemma field_values_keys pos kwargs fs r :
  mapM_result (field_value pos kwargs) fs = Ok r ->
  map fst r = map fname fs.
Proof.
  revert r; induction fs as [|f fs IH]; intros r; simpl.
  - by intros [= <-].
  - intros H. inv_bind H. inv_bind H. injection H as <-. simpl.
    f_equal; [|eauto].
    unfold field_value in Ha.
    repeat case_match; simplify_eq; done.
Qed.

(** A constructed row has a value for every field of its class. *)
Lemma construct_keys c args kwargs r :
  construct c args kwargs = Ok r -> map fst r = map fname (fields c).
Proof.
  unfold construct. intros H. inv_bind H. inv_bind H.
  eauto using field_values_keys.
Qed.

Lemma construct_has_field c args kwargs r f :
  construct c args kwargs = Ok r -> In f (fields c) ->
  exists v, dict_get (fname f) r = Some v.
Proof.
  intros Hc Hf. apply dict_get_keys.
  rewrite (construct_keys _ _ _ _ Hc). by apply in_map.
Qed.

Lemma validate_fields_ok r fs :
  foldM (fun _ f => validate_field r f) tt fs = Ok tt <->
  Forall (fun f => validate_field r f = Ok tt) fs.
Proof.
  induction fs as [|f fs IH]; simpl.
  - split; [constructor | done].
  - destruct (validate_field r f) as [[]|e] eqn:Hf; simpl.
    + rewrite IH. split; [by constructor | by inversion 1].
    + split; [done | intros H; inversion H; congruence].
Qed.

Lemma validate_fields_err r fs e :
  foldM (fun _ f => validate_field r f) tt fs = Err e ->
  exists fs1 f fs2, fs = (fs1 ++ f :: fs2)%list
    /\ Forall (fun f => validate_field r f = Ok tt) fs1
    /\ validate_field r f = Err e.
Proof.
  induction fs as [|f fs IH]; simpl; [done|].
  destruct (validate_field r f) as [[]|e'] eqn:Hf; simpl.
  - intros H. destruct (IH H) as (fs1 & g & fs2 & -> & Hok & Hg).
    exists (f :: fs1), g, fs2. split; [done|]. split; [by constructor | done].
  - intros [= ->]. exists [], f, fs. by repeat split.
Qed.

(** C4, as the code has it. [add_row] hands its arguments to the row
    constructor and appends what it returns: on a table that is not frozen,
    whenever the constructor accepts the arguments (names and arity), the
    row is appended and its index returned, whatever the run-time types of
    the field values. The field-type error belongs to the separate method
    [_validate], which [add_row] does not call: on a constructed row it
    returns normally exactly when every field value is an instance of the
    declared type, and otherwise raises a [ValueError] that names the first
    offending field, its declared type and the value found. *)
Theorem add_row_appends_without_validation
  (c : rowclass) (args : list pyval) (kwargs : pydict)
  (t : BaseTable dynrow) (r : dynrow) :
  _data_kind t = ListSeq ->
  construct c args kwargs = Ok r ->
  add_row c args kwargs t
    = (mkBaseTable (_data t ++ [r]) ListSeq (_frozen t), Ok (len t))
  /\ (_validate c r = Ok tt <->
      Forall (fun f => exists v, dict_get (fname f) r = Some v
                                 /\ isinstance v (ftype f) = true) (fields c))
  /\ (forall e, _validate c r = Err e ->
      exists fs1 f fs2 v,
        fields c = (fs1 ++ f :: fs2)%list
        /\ Forall (fun g => exists w, dict_get (fname g) r = Some w
                                      /\ isinstance w (ftype g) = true) fs1
        /\ dict_get (fname f) r = Some v
        /\ isinstance v (ftype f) = false
        /\ e = Raise ValueError (ExpectedField (fname f) (ftype f) v)).
Proof.
  intros Hkind Hc.
  assert (Hfield : forall f, In f (fields c) ->
            (validate_field r f = Ok tt <->
             exists v, dict_get (fname f) r = Some v
                       /\ isinstance v (ftype f) = true)).
  { intros f Hf. destruct (construct_has_field _ _ _ _ _ Hc Hf) as [v Hv].
    unfold validate_field. rewrite Hv.
    destruct (isinstance v (ftype f)) eqn:Hi; simpl.
    - split; [eauto | done].
    - split; [done | intros (w & [= <-] & Hw); congruence]. }
  split; [|split].
  - unfold add_row, append_row. rewrite Hkind, Hc. f_equal. f_equal.
    unfold len; simpl. rewrite length_app; simpl. lia.
  - unfold _validate. rewrite validate_fields_ok, !Forall_forall.
    split; intros H f Hf; apply (Hfield f (proj1 (list_elem_of_In _ _) Hf));
      apply H; done.
  - intros e He. unfold _validate in He.
    destruct (validate_fields_err _ _ _ He) as (fs1 & f & fs2 & Hfs & Hok & Hf).
    assert (Hin : forall g, In g (fs1 ++ [f]) -> In g (fields c)).
    { intros g Hg. rewrite Hfs. rewrite in_app_iff in *. simpl in *.
      tauto. }
    destruct (construct_has_field _ _ _ _ f Hc) as [v Hv].
    { apply Hin. rewrite in_app_iff; simpl; auto. }
    exists fs1, f, fs2, v. split; [done|]. split.
    { rewrite Forall_forall in *. intros g Hg. apply Hfield.
      - apply Hin. rewrite in_app_iff. left. by apply list_elem_of_In.
      - by apply Hok. }
    split; [done|].
    unfold validate_field in Hf. rewrite Hv in Hf.
    destruct (isinstance v (ftype f)); simpl in Hf; [done|].
    by injection Hf as <-.
Qed.

(** A node row built from a string where a float is declared; the table
    holds it afterwards. *)
Lemma add_row_appends_without_validation_witness :
  add_row (NodeTableRow_class (K := tskit_like_constants)) []
    [("time", PyStr "recent")] BaseTable_init
  = (mkBaseTable [[("time", PyStr "recent"); ("flags", PyInt 0);
                   ("individual", PyInt (-1))]] ListSeq false, Ok 0).
Proof.
  refine (proj1 (add_row_appends_without_validation
    (NodeTableRow_class (K := tskit_like_constants)) []
    [("time", PyStr "recent")] BaseTable_init
    [("time", PyStr "recent"); ("flags", PyInt 0); ("individual", PyInt (-1))]
    _ _)); reflexivity.
Defined.

(** C4 as stated fails: the value of [time] is not an instance of the
    declared type [float], yet [add_row] raises nothing, appends the row and
    returns index [0]. *)
Lemma add_row_accepts_mistyped_field :
  isinstance (PyStr "recent") TFloat = false
  /\ add_row (NodeTableRow_class (K := tskit_like_constants)) []
       [("time", PyStr "recent")] BaseTable_init
     = (mkBaseTable [[("time", PyStr "recent"); ("flags", PyInt 0);
                      ("individual", PyInt (-1))]] ListSeq false, Ok 0).
Proof. split; reflexivity. Qed.

(** ** Frozen tables *)

Lemma freeze_ok {R} (t t' : BaseTable R) :
  freeze t = (t', Ok tt) ->
  _frozen t = false /\ t' = mkBaseTable (_data t) TupleSeq true.
Proof.
  unfold freeze, setattr. destruct (_frozen t) eqn:Hf; [done|].
  simpl. rewrite Hf. by intros [= <-].
Qed.

Lemma freeze_unfrozen {R} (t : BaseTable R) :
  _frozen t = false -> freeze t = (mkBaseTable (_data t) TupleSeq true, Ok tt).
Proof. intros Hf. unfold freeze, setattr. rewrite Hf. simpl. by rewrite Hf. Qed.

(** C6, as the code has it. After a successful [freeze], [add_row] and
    [BaseTable.append] raise [AttributeError] (the tuple that now holds the
    rows has no [append]), [clear] and every attribute assignment raise the
    [AttributeError] of [__setattr__], and so does [unset_bitflag] on an
    interval-edge table. [IEdgeTable.append] converts its integer fields
    before it reaches [add_row], so it raises the conversion error when one
    of them is not integral and [AttributeError] otherwise. Every one of
    these attempts leaves the table exactly as it was. *)
Theorem frozen_table_rejects_mutation {K : Constants}
  (t t' : BaseTable dynrow) :
  freeze t = (t', Ok tt) ->
  (forall c args kwargs,
      add_row c args kwargs t' = (t', raise AttributeError (NoAttribute "append")))
  /\ (forall c obj,
      append c obj t' = (t', raise AttributeError (NoAttribute "append")))
  /\ clear t' = (t', Err frozen_error)
  /\ (forall upd, setattr upd t' = (t', Err frozen_error))
  /\ (forall fl fe flag,
      unset_bitflag flag (mkIEdgeTable t' fl fe)
      = (mkIEdgeTable t' fl fe, Err frozen_error))
  /\ (forall fl fe obj,
      IEdgeTable_append obj (mkIEdgeTable t' fl fe)
      = (mkIEdgeTable t' fl fe, Err (frozen_append_error obj)))
  /\ (forall c args kwargs, table_eq (fst (add_row c args kwargs t')) t')
  /\ table_eq (fst (clear t')) t'.
Proof.
  intros Hfr. apply freeze_ok in Hfr as [_ ->].
  repeat split; try done.
  intros fl fe obj. unfold IEdgeTable_append, add_int_row, frozen_append_error.
  simpl check_args. cbv iota.
  destruct (mapM_result check_kwarg _) as [kw|e]; done.
Qed.

Lemma frozen_table_rejects_mutation_witness :
  clear (mkBaseTable (@nil dynrow) TupleSeq true)
  = (mkBaseTable [] TupleSeq true, Err frozen_error).
Proof.
  refine (proj1 (proj2 (proj2 (frozen_table_rejects_mutation
    (K := tskit_like_constants) BaseTable_init
    (mkBaseTable [] TupleSeq true) _)))).
  reflexivity.
Defined.

(** C6 as stated fails for [append] on a frozen interval-edge table: a
    non-integral coordinate makes it raise the not-an-integer [ValueError],
    not the [AttributeError] of a frozen table. *)
Lemma frozen_iedge_append_raises_value_error :
  let frozen := fst (inherited freeze
                       (IEdgeTable_init (K := tskit_like_constants))) in
  snd (inherited freeze (IEdgeTable_init (K := tskit_like_constants) (R := dynrow)))
    = Ok tt
  /\ IEdgeTable_append (K := tskit_like_constants)
       (DictObj [("child_left", PyFloat (Finite (1 # 2)));
                 ("child_right", PyInt 10);
                 ("parent_left", PyInt 0);
                 ("parent_right", PyInt 10);
                 ("child", PyInt 0);
                 ("parent", PyInt 1)]) frozen
     = (frozen,
        Err (Raise ValueError (ExpectedInteger None (PyFloat (Finite (1 # 2)))))).
Proof. split; reflexivity. Qed.

(** ** Integer conversion in [add_int_row] *)

Lemma _check_int_spec v :
  _check_int v None
  = if integral_valued v then Ok (as_integer v) else Err (check_error v).
Proof. destruct v as [| |f| | |]; simpl; try done; by destruct (float_is_integer f). Qed.

Lemma check_args_unchecked i args : 4 <= i -> check_args i args = Ok args.
Proof.
  revert i; induction args as [|v args IH]; intros i Hi; simpl; [done|].
  replace (i <? 4) with false by lia. simpl.
  rewrite IH by lia. done.
Qed.

Lemma check_args_cons i v args :
  check_args i (v :: args)
  = (if i <? 4 then _check_int v None else Ok v) ≫= fun v' =>
    check_args (i + 1) args ≫= fun rest => Ok (v' :: rest).
Proof. reflexivity. Qed.

Lemma check_args_spec (n : nat) args :
  (n <= 4)%nat ->
  check_args (4 - Z.of_nat n) args
  = match List.find not_integral (firstn n args) with
    | Some v => Err (check_error v)
    | None => Ok (map as_integer (firstn n args) ++ skipn n args)%list
    end.
Proof.
  revert n; induction args as [|v args IH]; intros n Hn.
  - by destruct n.
  - destruct n as [|n].
    + rewrite check_args_unchecked by lia. done.
    + rewrite check_args_cons.
      assert (Hlt : (4 - Z.of_nat (S n) <? 4) = true) by (apply Z.ltb_lt; lia).
      rewrite Hlt, _check_int_spec. cbn [firstn List.find].
      change (not_integral v) with (negb (integral_valued v)).
      destruct (integral_valued v); [|done].
      cbn [negb mbind result_bind map skipn app].
      replace (4 - Z.of_nat (S n) + 1) with (4 - Z.of_nat n) by lia.
      rewrite IH by lia.
      by destruct (List.find _ _).
Qed.

Lemma check_kwargs_spec kwargs :
  mapM_result check_kwarg kwargs
  = match List.find not_integral
            (map snd (List.filter (fun kv => str_in (fst kv) pcols) kwargs)) with
    | Some v => Err (check_error v)
    | None => Ok (coerced_kwargs kwargs)
    end.
Proof.
  induction kwargs as [|[k v] kwargs IH]; [done|].
  change (mapM_result check_kwarg ((k, v) :: kwargs))
    with (check_kwarg (k, v) ≫= fun y =>
          mapM_result check_kwarg kwargs ≫= fun ys => Ok (y :: ys)).
  change (List.filter (fun kv => str_in (fst kv) pcols) ((k, v) :: kwargs))
    with (if str_in k pcols
          then (k, v) :: List.filter (fun kv => str_in (fst kv) pcols) kwargs
          else List.filter (fun kv => str_in (fst kv) pcols) kwargs).
  change (coerced_kwargs ((k, v) :: kwargs))
    with ((if str_in k pcols then (k, as_integer v) else (k, v))
            :: coerced_kwargs kwargs).
  rewrite IH. unfold check_kwarg.
  change (fst (k, v)) with k. change (snd (k, v)) with v.
  destruct (str_in k pcols) eqn:Hk.
  - rewrite _check_int_spec. cbn [map snd List.find].
    change (not_integral v) with (negb (integral_valued v)).
    destruct (integral_valued v); [|done].
    cbn [negb mbind result_bind]. by destruct (List.find _ _).
  - cbn [mbind result_bind]. by destruct (List.find _ _).
Qed.

Lemma find_app {A} (p : A -> bool) l1 l2 :
  List.find p (l1 ++ l2)
  = match List.find p l1 with Some v => Some v | None => List.find p l2 end.
Proof. induction l1 as [|x l1 IH]; simpl; [done|]. by destruct (p x). Qed.

(** C8, as the code has it. [add_int_row] converts the first four
    positional arguments and the keywords [child_left], [child_right],
    [parent_left], [parent_right], [child] and [parent], in that order. The
    first of these values that is not integral-valued ends the call, with
    the not-an-integer [ValueError] for a float and the could-not-convert
    [TypeError] for anything else, and the table is left as it was. When all
    of them are integral-valued the call is [add_row] on the converted
    arguments. The keywords [edge], [child_chromosome] and
    [parent_chromosome] are handed to [add_row] as they came. *)
Theorem add_int_row_converts_coordinates_and_endpoints {K : Constants}
  (args : list pyval) (kwargs : pydict) (t : IEdgeTable dynrow) :
  add_int_row args kwargs t
  = match List.find not_integral (checked_values args kwargs) with
    | Some v => (t, Err (check_error v))
    | None =>
        inherited (add_row IEdgeTableRow_class (coerced_args args)
                     (coerced_kwargs kwargs)) t
    end.
Proof.
  unfold add_int_row, checked_values. rewrite find_app.
  change 0 with (4 - Z.of_nat 4). rewrite check_args_spec by lia.
  destruct (List.find not_integral (firstn 4 args)); [done|].
  rewrite check_kwargs_spec.
  by destruct (List.find _ _).
Qed.

(** C8 as stated fails for the [edge] keyword: a non-integral [edge] raises
    nothing and is stored as the float it is (and an integral-valued float
    would be stored as a float as well). *)
Lemma add_int_row_keeps_fractional_edge :
  add_int_row (K := tskit_like_constants)
    [PyInt 0; PyInt 10; PyInt 0; PyInt 10]
    [("child", PyInt 0); ("parent", PyInt 1);
     ("edge", PyFloat (Finite (9 # 2)))]
    (IEdgeTable_init (K := tskit_like_constants))
  = (mkIEdgeTable
       (mkBaseTable
          [[("child_left", PyInt 0); ("child_right", PyInt 10);
            ("parent_left", PyInt 0); ("parent_right", PyInt 10);
            ("child", PyInt 0); ("parent", PyInt 1);
            ("edge", PyFloat (Finite (9 # 2)));
            ("child_chromosome", PyInt (-1));
            ("parent_chromosome", PyInt (-1))]] ListSeq false)
       3 ∅, Ok 0).
Proof. reflexivity. Qed.

(** ** [Tables.add_iedge_row] *)

(** C2, what the code does. With [node_time_validation] left at its
    default the first statement executed is [self.edges.unset_bitflag(...)];
    a [Tables] object has the attributes [nodes], [iedges], [individuals]
    and [time_units] but none called [edges], so the call raises
    [AttributeError]: the flag word is not touched and no row is appended.
    With any other value of the argument the call ends in an error as well,
    and the aggregate is never changed. *)
Theorem add_iedge_row_default_raises_attribute_error {K : Constants}
  (args : list pyval) (kwargs : pydict) (T : Tables) :
  add_iedge_row args None kwargs T
    = (T, raise AttributeError (NoAttribute "edges"))
  /\ forall v, exists e, add_iedge_row args v kwargs T = (T, Err e).
Proof.
  split; [reflexivity|].
  intros [[|]|]; unfold add_iedge_row.
  - destruct (node_time_check kwargs T) as [[]|e]; eauto.
  - eauto.
  - eauto.
Qed.

(** A node that survives the cutoff stops [decapitate] when the individual
    table is empty, whatever individual the node names. *)
Lemma decap_node_no_individuals {K : Constants} time T s u nd :
  _data (individuals T) = [] ->
  Qltb (NodeTableRow.time nd) time = true ->
  decap_node time T s (u, nd)
  = raise IndexError (Msg "list index out of range").
Proof.
  intros Hind Hlt. unfold decap_node. rewrite Hlt.
  unfold getitem. rewrite Hind, py_index_empty. reflexivity.
Qed.

(** C3, what the code does. [sort()] puts the edge with the older parent
    first, as the scenario says. [decapitate(1.5)] then raises [IndexError]
    at its first node: the node belongs to no individual, and
    [self.individuals[i]] is evaluated, on the empty individual table,
    before [i] is looked up in [individual_map]. The tables are left as
    they were. *)
Theorem scenario_decapitate_raises_index_error {K : Constants} :
  sort scenario = (scenario_sorted, Ok tt)
  /\ decapitate (3 # 2) scenario_sorted
     = (scenario_sorted, raise IndexError (Msg "list index out of range")).
Proof.
  split; [reflexivity|].
  assert (H : decap_build (3 # 2) scenario_sorted
              = raise IndexError (Msg "list index out of range")).
  { unfold decap_build.
    change (enumerate (_data (nodes scenario_sorted)))
      with [(0%nat, scenario_node 0); (1%nat, scenario_node 1);
            (2%nat, scenario_node 2)].
    cbn [foldM].
    rewrite decap_node_no_individuals by reflexivity. reflexivity. }
  unfold decapitate. rewrite H. reflexivity.
Qed.

(** C1, what the code does. The primary key of [sort()] is the time of the
    edge's child, not of its parent: on [crossing] the edge of child 1
    (parent time 2) is placed before the edge of child 0 (parent time 3),
    so the parent times along the sorted table are 2, 3, an increase. *)
Theorem sort_parent_times_can_increase {K : Constants} :
  sort crossing = (crossing_sorted, Ok tt)
  /\ parent_times crossing_sorted = Ok [2 # 1; 3 # 1]%Q
  /\ Qltb (2 # 1) (3 # 1) = true.
Proof. repeat split. Qed.

(** ** [Tables.sort]: the rebuilt edge table *)

Lemma iedges_add_row_fresh {K : Constants} r rs :
  iedges_add_row r (fresh_iedges rs) = Ok (fresh_iedges (rs ++ [r])).
Proof. reflexivity. Qed.

Lemma iedges_append_fresh {K : Constants} r rs :
  iedges_append r (fresh_iedges rs) = Ok (fresh_iedges (rs ++ [r])).
Proof. by destruct r. Qed.

Lemma rebuild_ok {K : Constants} t order new_iedges :
  rebuild t order = Ok new_iedges ->
  exists rs, new_iedges = fresh_iedges rs
             /\ Forall2 (fun i r => _data t !! i = Some r) order rs.
Proof.
  unfold rebuild.
  apply (foldM_invariant _
    (fun seen s => exists rs, s = fresh_iedges rs
       /\ Forall2 (fun i r => _data t !! i = Some r) seen rs)).
  - exists []. split; [done | constructor].
  - intros seen i s s' (rs & -> & Hrs) Hstep.
    inv_bind Hstep. rewrite iedges_append_fresh in Hstep. injection Hstep as <-.
    exists (rs ++ [a]). split; [done|].
    apply Forall2_app; [done|]. constructor; [|constructor].
    unfold getitem in Ha. apply py_index_ok in Ha as (j & Hj & [Hij|Hij]).
    + by apply Nat2Z.inj in Hij as ->.
    + apply lookup_lt_Some in Hj. lia.
Qed.

Lemma rebuild_total {K : Constants} t order :
  Forall (fun i => (i < length (_data t))%nat) order ->
  exists rs, rebuild t order = Ok (fresh_iedges rs).
Proof.
  unfold rebuild. change IEdgeTable_init with (fresh_iedges []).
  generalize (@nil IEdgeTableRow.t) as acc.
  induction order as [|i order IH]; intros acc Hall; cbn [foldM]; [eauto|].
  inversion Hall as [|? ? Hi Hrest]; subst.
  destruct (lookup_lt_is_Some_2 _ _ Hi) as [r Hr].
  unfold getitem. rewrite (py_index_nat _ _ _ Hr). cbn [mbind result_bind].
  rewrite iedges_append_fresh. apply IH, Hrest.
Qed.

(** What a successful [sort] did. *)
Lemma sort_ok_inv {K : Constants} T T' :
  sort T = (T', Ok tt) ->
  (_data (rows (iedges T)) = [] /\ T' = T)
  \/ (exists order rs,
        edge_order T = Ok order
        /\ Forall2 (fun i r => _data (rows (iedges T)) !! i = Some r) order rs
        /\ Tables_frozen T = false
        /\ T' = set_iedges (fresh_iedges rs) T).
Proof.
  unfold sort. destruct (len _ =? 0) eqn:Hlen.
  - intros [= <-]. left. split; [|done].
    unfold len in Hlen. destruct (_data (rows (iedges T))); [done|].
    simpl in Hlen. lia.
  - destruct (edge_order T) as [order|e] eqn:Horder; [|done].
    fold (rebuild (rows (iedges T)) order).
    destruct (rebuild _ _) as [new_iedges|e] eqn:Hre; [|done].
    apply rebuild_ok in Hre as (rs & -> & Hrs).
    unfold Tables_setattr. destruct (Tables_frozen T) eqn:Hfr; [done|].
    intros [= <-]. right. by exists order, rs.
Qed.

(** ** [lexsort] yields a permutation of the row indices *)

Lemma insert_by_perm {A} (leb : A -> A -> bool) x l :
  Permutation (insert_by leb x l) (x :: l).
Proof.
  induction l as [|y l IH]; simpl; [done|].
  destruct (leb x y); [done|].
  rewrite IH. apply perm_swap.
Qed.

Lemma stable_sort_perm {A} (leb : A -> A -> bool) l :
  Permutation (stable_sort leb l) l.
Proof.
  induction l as [|x l IH]; simpl; [done|].
  rewrite insert_by_perm. by constructor.
Qed.

Lemma keyed_indices keys : map fst (keyed keys) = seq 0 (length keys).
Proof. unfold keyed. apply fst_zip. by rewrite length_seq. Qed.

Lemma lexsort_perm k1 k2 k3 n :
  length k1 = n -> length k2 = n -> length k3 = n ->
  Permutation (lexsort k1 k2 k3) (seq 0 n).
Proof.
  intros H1 H2 H3. unfold lexsort.
  rewrite stable_sort_perm, keyed_indices.
  rewrite !length_zip_with, H1, H2, H3. by rewrite !Nat.min_id.
Qed.

Lemma edge_order_perm {K : Constants} T order :
  edge_order T = Ok order ->
  Permutation order (seq 0 (length (_data (rows (iedges T))))).
Proof.
  unfold edge_order. intros H. inv_bind H. injection H as <-.
  apply mapM_result_length in Ha. unfold column in *.
  rewrite length_map in Ha.
  apply lexsort_perm; by rewrite ?length_map.
Qed.

Lemma lookups_seq {A} (l : list A) :
  map (fun i => l !! i) (seq 0 (length l)) = map Some l.
Proof.
  induction l as [|x l IH] using rev_ind; [done|].
  rewrite length_app, Nat.add_comm. simpl length.
  rewrite seq_S, !map_app. simpl. f_equal.
  - rewrite <- IH. apply map_ext_in. intros i Hi%in_seq.
    apply lookup_app_l. lia.
  - by rewrite list_lookup_middle.
Qed.

Lemma selected_rows_perm {A} (l : list A) order rs :
  Permutation order (seq 0 (length l)) ->
  Forall2 (fun i r => l !! i = Some r) order rs ->
  Permutation rs l.
Proof.
  intros Hperm Hsel.
  assert (Hmap : map (fun i => l !! i) order = map Some rs).
  { clear Hperm.
    induction Hsel as [|i r order rs Hi _ IH]; simpl; [done|]. by f_equal. }
  destruct l as [|d l'].
  { apply Permutation_sym, Permutation_nil in Hperm. subst order.
    inversion Hsel. done. }
  set (l := d :: l') in *.
  assert (Hsome : Permutation (map Some rs) (map Some l)).
  { rewrite <- Hmap, <- lookups_seq. by apply Permutation_map. }
  apply (Permutation_map (default d)) in Hsome.
  rewrite !map_map in Hsome. simpl in Hsome. by rewrite !map_id in Hsome.
Qed.

(** A successful [sort] leaves the nodes and the individuals alone and
    permutes the interval-edge rows. *)
Lemma sort_permutes_edges {K : Constants} T T' :
  sort T = (T', Ok tt) ->
  nodes T' = nodes T
  /\ individuals T' = individuals T
  /\ time_units T' = time_units T
  /\ Permutation (_data (rows (iedges T'))) (_data (rows (iedges T))).
Proof.
  intros H. apply sort_ok_inv in H as [[_ ->]|(order & rs & Ho & Hrs & _ & ->)].
  - done.
  - repeat split; simpl.
    eapply selected_rows_perm; [|exact Hrs]. by apply edge_order_perm.
Qed.

(** ** [Tables.decapitate]: the node loop *)

Lemma Qltb_lt (x y : Q) : Qltb x y = true <-> (x < y)%Q.
Proof.
  unfold Qltb. rewrite negb_true_iff. split.
  - intros H. apply Qnot_le_lt. intros Hle.
    apply Qle_bool_iff in Hle. congruence.
  - intros H. destruct (Qle_bool y x) eqn:Hb; [|done].
    apply Qle_bool_iff in Hb. by apply Qlt_not_le in H.
Qed.

Lemma add_typed_row_unfrozen {R} (r : R) (l : list R) :
  add_typed_row r (unfrozen l) = Ok (unfrozen (l ++ [r]), Z.of_nat (length l)).
Proof.
  unfold add_typed_row, append_row, unfrozen, len. simpl.
  rewrite length_app. simpl. do 2 f_equal. lia.
Qed.

Section Decapitate.
Context {K : Constants}.
Variable time : Q.

Lemma individual_ref_mono n m p :
  (n <= m)%nat -> individual_ref n p -> individual_ref m p.
Proof. unfold individual_ref. intros Hnm [->|H]; [by left | right; lia]. Qed.

Lemma node_loop_inv_init : node_loop_inv time [] decap_init.
Proof.
  split.
  - exists []. split; [done | constructor].
  - intros u. unfold node_map_of, node_survives, decap_init.
    cbn [d_node_map]. rewrite lookup_empty, lookup_nil.
    by rewrite andb_false_r.
  - exists []. split; [done|]. split; [constructor|].
    intros k v. unfold decap_init. simpl.
    intros [<- <-]%lookup_singleton_Some. by left.
Qed.

Lemma node_map_of_snoc seen nd u :
  node_map_of time (seen ++ [nd]) u
  = if (u =? Z.of_nat (length seen)) && younger time nd
    then Some (Z.of_nat (length (List.filter (younger time) seen)))
    else node_map_of time seen u.
Proof.
  unfold node_map_of, node_survives, new_node_id.
  destruct (0 <=? u) eqn:Hu; simpl.
  2:{ rewrite (proj2 (Z.eqb_neq u (Z.of_nat (length seen)))) by lia. done. }
  destruct (decide (Z.to_nat u < length seen)%nat) as [Hlt|Hge].
  - rewrite (proj2 (Z.eqb_neq u (Z.of_nat (length seen)))) by lia. simpl.
    rewrite lookup_app_l by done.
    rewrite firstn_app.
    replace (Z.to_nat u - length seen)%nat with 0%nat by lia.
    simpl. by rewrite app_nil_r.
  - destruct (decide (Z.to_nat u = length seen)) as [Heq|Hne].
    + rewrite (proj2 (Z.eqb_eq u (Z.of_nat (length seen)))) by lia. simpl.
      rewrite Heq, list_lookup_middle by done.
      rewrite (lookup_ge_None_2 seen) by lia.
      destruct (younger time nd); [|done].
      rewrite firstn_app, firstn_all, Nat.sub_diag. simpl.
      by rewrite app_nil_r.
    + rewrite (proj2 (Z.eqb_neq u (Z.of_nat (length seen)))) by lia. simpl.
      rewrite (lookup_ge_None_2 (seen ++ [nd])).
      2:{ rewrite length_app. simpl. lia. }
      by rewrite (lookup_ge_None_2 seen) by lia.
Qed.

Lemma filter_snoc {A} (p : A -> bool) l x :
  List.filter p (l ++ [x])
  = List.filter p l ++ (if p x then [x] else []).
Proof. rewrite List.filter_app. simpl. by destruct (p x). Qed.

Lemma node_loop_inv_step T seen nd s s' :
  node_loop_inv time seen s ->
  decap_node time T s (length seen, nd) = Ok s' ->
  node_loop_inv time (seen ++ [nd]) s'.
Proof.
  intros [(new_nodes & Hn & Hcopied) Hmap
          (new_inds & Hi & Hclosed & Hrefs)].
  pose proof (Forall2_length _ _ _ Hcopied) as Hlen.
  unfold decap_node. fold (younger time nd).
  destruct (younger time nd) eqn:Hnd.
  2:{ intros [= <-]. split.
      - exists new_nodes. rewrite filter_snoc, Hnd, app_nil_r. done.
      - intros u. rewrite node_map_of_snoc, Hnd, andb_false_r. apply Hmap.
      - exists new_inds. done. }
  intros H. inv_bind H. clear Ha.
  apply bind_ok_inv in H as ([inds imap] & Hind & H).
  inv_bind H. rename a0 into new_individual.
  rewrite Hn, add_typed_row_unfrozen in H. simpl in H. injection H as <-.
  assert (Hinds : exists new_inds',
             inds = unfrozen new_inds'
             /\ parents_closed new_inds'
             /\ forall k v, imap !! k = Some v ->
                            individual_ref (length new_inds') v).
  { destruct (d_individual_map s !! NodeTableRow.individual nd) eqn:Hlook.
    - injection Hind as <- <-. eauto.
    - rewrite Hi, add_typed_row_unfrozen in Hind. simpl in Hind.
      injection Hind as <- <-.
      eexists. split; [done|]. split.
      + unfold parents_closed. rewrite length_app. simpl.
        apply Forall_app. split.
        * eapply Forall_impl; [exact Hclosed|]. simpl.
          intros ind Hp. eapply Forall_impl; [exact Hp|]. simpl.
          intros p. apply individual_ref_mono. lia.
        * constructor; [|constructor]. simpl.
          apply Forall_forall. intros p [j [-> _]]%list_elem_of_fmap.
          destruct (d_individual_map s !! j) eqn:Hj; simpl.
          -- eapply individual_ref_mono; [|eapply Hrefs, Hj]. lia.
          -- by left.
      + intros k v. rewrite length_app. simpl.
        rewrite lookup_insert. case_decide.
        * intros [= <-]. right. lia.
        * intros Hk. eapply individual_ref_mono; [|eapply Hrefs, Hk]. lia. }
  split; simpl.
  - exists (new_nodes ++
             [NodeTableRow.mk (NodeTableRow.time nd) (NodeTableRow.flags nd)
                new_individual]).
    split; [done|].
    rewrite filter_snoc, Hnd. apply Forall2_app; [done|].
    constructor; [done | constructor].
  - intros u. rewrite node_map_of_snoc, Hnd, andb_true_r.
    rewrite lookup_insert.
    destruct (u =? Z.of_nat (length seen)) eqn:Hu.
    + apply Z.eqb_eq in Hu. subst u. rewrite decide_True by done.
      by rewrite <- Hlen.
    + apply Z.eqb_neq in Hu. rewrite decide_False by done. apply Hmap.
  - exact Hinds.
Qed.

Lemma enumerate_snoc {A} (l : list A) x :
  enumerate (l ++ [x]) = enumerate l ++ [(length l, x)].
Proof.
  unfold enumerate. rewrite length_app, Nat.add_comm. simpl length.
  rewrite seq_S. simpl.
  rewrite zip_with_app by (by rewrite length_seq). done.
Qed.

Lemma node_loop_ok T nds s :
  foldM (decap_node time T) decap_init (enumerate nds) = Ok s ->
  node_loop_inv time nds s.
Proof.
  revert s. induction nds as [|nd nds IH] using rev_ind; intros s.
  - simpl. intros [= <-]. apply node_loop_inv_init.
  - rewrite enumerate_snoc, foldM_snoc. intros H. inv_bind H.
    eapply node_loop_inv_step; eauto.
Qed.
End Decapitate.

(** ** [Tables.decapitate]: the edge loop and the whole method *)

Section DecapitateEdges.
Context {K : Constants}.
Variable time : Q.

Lemma edge_loop_ok nm nds edges acc new_iedges :
  (forall u, nm !! u = node_map_of time nds u) ->
  foldM (decap_edge nm) (fresh_iedges acc) edges = Ok new_iedges ->
  new_iedges
    = fresh_iedges (acc ++ map (remap_edge time nds)
                             (List.filter (edge_kept time nds) edges))
  /\ Forall (fun ie => node_survives time nds (IEdgeTableRow.child ie) = true)
       (List.filter (edge_kept time nds) edges).
Proof.
  intros Hnm. revert acc.
  induction edges as [|ie edges IH]; intros acc; cbn [foldM].
  - intros [= <-]. simpl. by rewrite app_nil_r.
  - intros H. inv_bind H. rename a into mid.
    unfold decap_edge in Ha. rewrite !Hnm in Ha.
    unfold map_item in Ha. rewrite !Hnm in Ha.
    unfold node_map_of in Ha.
    assert (Hk : node_survives time nds (IEdgeTableRow.parent ie)
                 = edge_kept time nds ie) by reflexivity.
    rewrite Hk in Ha. cbn [List.filter].
    destruct (edge_kept time nds ie) eqn:Hp.
    + destruct (node_survives time nds (IEdgeTableRow.child ie)) eqn:Hc;
        [|done].
      cbn [mbind result_bind] in Ha.
      rewrite iedges_add_row_fresh in Ha. injection Ha as <-.
      destruct (IH _ H) as [Hnew Hall].
      split; [|by constructor].
      rewrite Hnew. cbn [map]. fold (remap_edge time nds ie).
      by rewrite <- app_assoc.
    + injection Ha as <-. by apply IH.
Qed.

Lemma new_node_id_bound nds u :
  node_survives time nds u = true ->
  0 <= new_node_id time nds u
       < Z.of_nat (length (List.filter (younger time) nds)).
Proof.
  unfold node_survives, new_node_id.
  intros [Hu Hnd]%andb_prop.
  destruct (nds !! Z.to_nat u) as [nd|] eqn:Hl; [|done].
  split; [lia|].
  rewrite <- (take_drop_middle _ _ _ Hl) at 2.
  rewrite List.filter_app, length_app. cbn [List.filter]. rewrite Hnd.
  simpl. lia.
Qed.

(** The remap is dense: the survivor [u] is the row [new_node_id u] of the
    list of survivors. *)
Lemma new_node_id_row nds (u : nat) nd :
  nds !! u = Some nd ->
  younger time nd = true ->
  List.filter (younger time) nds !! Z.to_nat (new_node_id time nds (Z.of_nat u))
  = Some nd.
Proof.
  intros Hl Hnd. unfold new_node_id. rewrite !Nat2Z.id.
  set (k := length (List.filter (younger time) (firstn u nds))).
  rewrite <- (take_drop_middle _ _ _ Hl).
  rewrite List.filter_app. cbn [List.filter]. rewrite Hnd.
  apply list_lookup_middle. done.
Qed.

(** The remap keeps the order of the survivors. *)
Lemma new_node_id_increasing nds (u v : nat) :
  (u < v)%nat ->
  node_survives time nds (Z.of_nat u) = true ->
  new_node_id time nds (Z.of_nat u) < new_node_id time nds (Z.of_nat v).
Proof.
  intros Huv [_ Hu]%andb_prop. rewrite Nat2Z.id in Hu.
  destruct (nds !! u) as [nd|] eqn:Hl; [|done].
  unfold new_node_id. rewrite !Nat2Z.id.
  assert (Hsplit : firstn v nds
                   = firstn u nds ++ nd :: firstn (v - S u) (skipn (S u) nds)).
  { rewrite <- (take_drop_middle _ _ _ Hl) at 1.
    rewrite firstn_app, firstn_firstn, length_firstn.
    apply lookup_lt_Some in Hl.
    replace (Nat.min v u) with u by lia.
    replace (v - Nat.min u (length nds))%nat with (S (v - S u)) by lia.
    done. }
  rewrite Hsplit, List.filter_app, length_app. cbn [List.filter].
  rewrite Hu. simpl. lia.
Qed.

(** What a normal return of [decapitate] leaves behind. *)
Lemma decapitate_ok_inv T T' :
  decapitate time T = (T', Ok tt) ->
  let nds := _data (nodes T) in
  let kept := List.filter (edge_kept time nds) (_data (rows (iedges T))) in
  exists new_nodes new_inds,
    nodes T' = unfrozen new_nodes
    /\ individuals T' = unfrozen new_inds
    /\ Forall2 node_copied (List.filter (younger time) nds) new_nodes
    /\ parents_closed new_inds
    /\ Forall (fun ie => node_survives time nds (IEdgeTableRow.child ie) = true)
         kept
    /\ Permutation (_data (rows (iedges T'))) (map (remap_edge time nds) kept)
    /\ flags (iedges T') = VALID_GIG.
Proof.
  unfold decapitate.
  destruct (decap_build time T) as [[s new_iedges]|e] eqn:Hb; [|done].
  unfold decap_build in Hb. inv_bind Hb. inv_bind Hb. injection Hb as <- <-.
  apply node_loop_ok in Ha
    as [(new_nodes & Hn & Hcopied) Hmap (new_inds & Hi & Hclosed & _)].
  change IEdgeTable_init with (fresh_iedges []) in Ha0.
  apply (edge_loop_ok _ _ _ _ _ Hmap) in Ha0 as [-> Hchildren].
  unfold Tables_setattr.
  destruct (Tables_frozen T) eqn:Hfr; [done|].
  cbn [set_nodes set_iedges set_individuals Tables_frozen]. rewrite ?Hfr.
  cbn [set_nodes set_iedges set_individuals Tables_frozen]. rewrite ?Hfr.
  intros Hsort.
  pose proof (sort_permutes_edges _ _ Hsort) as (HN & HI & _ & HP).
  exists new_nodes, new_inds.
  rewrite HN, HI. cbn. repeat split; try done.
  apply sort_ok_inv in Hsort as [[_ ->]|(order & rs & _ & _ & _ & ->)]; done.
Qed.
End DecapitateEdges.

(** ** What a normal return of [decapitate] guarantees *)

Lemma pedigree_decapitated :
  decapitate (K := tskit_like_constants) (3 # 2)
    (pedigree (K := tskit_like_constants))
  = (pedigree_cut (K := tskit_like_constants), Ok tt).
Proof. vm_compute. reflexivity. Qed.

(** C7. When [decapitate(t)] returns normally: every node of the result
    has [time < t] (the nodes are the original nodes with [time < t], in
    their order); the edge rows are, up to the order [sort] gives them, the
    rows [remap_edge] writes for exactly the original edges whose parent
    node exists and has [time < t], so that child and parent are new node
    ids, both below the number of surviving nodes; the child of every such
    edge survived as well; and every parent reference of an individual is
    [NULL] or the index of an individual of the result. The remap
    [new_node_id] is dense and keeps the order ([new_node_id_row],
    [new_node_id_increasing]). *)
Theorem decapitate_containment {K : Constants}
  (time : Q) (T T' : Tables) :
  decapitate time T = (T', Ok tt) ->
  let nds := _data (nodes T) in
  let kept := List.filter (edge_kept time nds) (_data (rows (iedges T))) in
  Forall (fun nd => (NodeTableRow.time nd < time)%Q) (_data (nodes T'))
  /\ Forall2 node_copied (List.filter (younger time) nds) (_data (nodes T'))
  /\ Permutation (_data (rows (iedges T'))) (map (remap_edge time nds) kept)
  /\ Forall (fun ie => node_survives time nds (IEdgeTableRow.child ie) = true
                       /\ node_survives time nds (IEdgeTableRow.parent ie) = true)
       kept
  /\ Forall (fun ie => 0 <= IEdgeTableRow.child ie < len (nodes T')
                       /\ 0 <= IEdgeTableRow.parent ie < len (nodes T'))
       (_data (rows (iedges T')))
  /\ Forall (fun ind =>
               Forall (fun p => p = NULL \/ 0 <= p < len (individuals T'))
                 (IndividualTableRow.parents ind))
       (_data (individuals T')).
Proof.
  intros Hd nds kept.
  destruct (decapitate_ok_inv _ _ _ Hd)
    as (new_nodes & new_inds & HN & HI & Hcopied & Hclosed & Hchild & Hperm & _).
  fold nds in Hcopied, Hchild, Hperm. fold kept in Hchild, Hperm.
  rewrite HN, HI. cbn [unfrozen _data].
  assert (Hkept : Forall (fun ie =>
            node_survives time nds (IEdgeTableRow.child ie) = true
            /\ node_survives time nds (IEdgeTableRow.parent ie) = true) kept).
  { rewrite Forall_forall in *. intros ie Hie. split; [by apply Hchild|].
    apply list_elem_of_In, filter_In in Hie as [_ Hie]. exact Hie. }
  repeat split; try done.
  - apply Forall_forall. intros nd Hnd.
    destruct (proj1 (list_elem_of_lookup _ _) Hnd) as [i Hi].
    destruct (Forall2_lookup_r _ _ _ _ _ Hcopied Hi) as (old & Hold & Hto & _).
    rewrite Hto. apply Qltb_lt.
    apply list_elem_of_lookup_2, list_elem_of_In, filter_In in Hold as [_ Hold].
    exact Hold.
  - apply Forall_forall. intros r Hr. rewrite Hperm in Hr.
    apply list_elem_of_In, in_map_iff in Hr as (ie & <- & Hie).
    rewrite Forall_forall in Hkept.
    destruct (Hkept ie (proj2 (list_elem_of_In _ _) Hie)) as [Hc Hp].
    unfold len, unfrozen.
    cbn [_data remap_edge IEdgeTableRow.child IEdgeTableRow.parent].
    rewrite <- (Forall2_length _ _ _ Hcopied).
    split; by apply new_node_id_bound.
Qed.

Lemma decapitate_containment_witness :
  Forall (fun nd => (NodeTableRow.time nd < 3 # 2)%Q)
    (_data (nodes (pedigree_cut (K := tskit_like_constants)))).
Proof.
  exact (proj1 (decapitate_containment (K := tskit_like_constants)
                  (3 # 2) pedigree pedigree_cut pedigree_decapitated)).
Defined.

(** C10. When [decapitate(t)] returns normally, every interval-edge row of
    the result has [edge], [child_chromosome] and [parent_chromosome] equal
    to [NULL], whatever the original row carried; the row keeps the four
    coordinates of an original edge and has the new ids of that edge's
    child and parent. *)
Theorem decapitate_resets_edge_id_and_chromosomes {K : Constants}
  (time : Q) (T T' : Tables) :
  decapitate time T = (T', Ok tt) ->
  Forall (fun r =>
            IEdgeTableRow.edge r = NULL
            /\ IEdgeTableRow.child_chromosome r = NULL
            /\ IEdgeTableRow.parent_chromosome r = NULL
            /\ exists ie,
                 In ie (_data (rows (iedges T)))
                 /\ IEdgeTableRow.child_left r = IEdgeTableRow.child_left ie
                 /\ IEdgeTableRow.child_right r = IEdgeTableRow.child_right ie
                 /\ IEdgeTableRow.parent_left r = IEdgeTableRow.parent_left ie
                 /\ IEdgeTableRow.parent_right r = IEdgeTableRow.parent_right ie
                 /\ IEdgeTableRow.child r
                    = new_node_id time (_data (nodes T)) (IEdgeTableRow.child ie)
                 /\ IEdgeTableRow.parent r
                    = new_node_id time (_data (nodes T)) (IEdgeTableRow.parent ie))
    (_data (rows (iedges T'))).
Proof.
  intros Hd.
  destruct (decapitate_ok_inv _ _ _ Hd)
    as (_ & _ & _ & _ & _ & _ & _ & Hperm & _).
  apply Forall_forall. intros r Hr. rewrite Hperm in Hr.
  apply list_elem_of_In, in_map_iff in Hr as (ie & <- & Hie).
  apply filter_In in Hie as [Hie _].
  repeat split; try done. exists ie. by repeat split.
Qed.

Lemma decapitate_resets_edge_id_and_chromosomes_witness :
  IEdgeTableRow.edge (IEdgeTableRow.mk 0 10 0 10 0 1 7 8 9) = 7
  /\ Forall (fun r => IEdgeTableRow.edge r = -1)
       (_data (rows (iedges (pedigree_cut (K := tskit_like_constants))))).
Proof.
  split; [reflexivity|].
  eapply Forall_impl.
  - exact (decapitate_resets_edge_id_and_chromosomes
             (K := tskit_like_constants) (3 # 2) pedigree pedigree_cut
             pedigree_decapitated).
  - intros r H. exact (proj1 H).
Defined.

(** ** The flag word of a rebuilt edge table *)

Lemma land_unset (f flag : Z) : Z.land (Z.land f (Z.lnot flag)) flag = 0.
Proof.
  rewrite <- Z.land_assoc, (Z.land_comm (Z.lnot flag)), Z.land_lnot_diag.
  apply Z.land_0_r.
Qed.

(** C5, what the code does. [unset_bitflag] clears the bit on the table
    object it is called on. [copy()], [sort()] (when there are edges) and
    [decapitate()] build the edge table they return with [IEdgeTable()],
    whose flag word is [VALID_GIG], and carry over rows only: a bit of
    [VALID_GIG] that was cleared is set again in their result, without any
    validation. *)
Theorem rebuilt_edge_table_has_all_flags_set {K : Constants}
  (T : Tables) (flag : Z) (t1 : IEdges) :
  unset_bitflag flag (iedges T) = (t1, Ok tt) ->
  Z.land (flags t1) flag = 0
  /\ flags (IEdgeTable_copy t1) = VALID_GIG
  /\ flags (iedges (Tables_copy (set_iedges t1 T))) = VALID_GIG
  /\ (forall T', sort (set_iedges t1 T) = (T', Ok tt) ->
                 _data (rows t1) <> [] -> flags (iedges T') = VALID_GIG)
  /\ (forall time T', decapitate time (set_iedges t1 T) = (T', Ok tt) ->
                      flags (iedges T') = VALID_GIG).
Proof.
  intros Hu. unfold unset_bitflag in Hu.
  destruct (_frozen (rows (iedges T))); [done|]. injection Hu as <-.
  split; [apply land_unset|].
  split; [reflexivity|]. split; [reflexivity|]. split.
  - intros T' Hs Hne.
    apply sort_ok_inv in Hs as [[Hnil _]|(order & rs & _ & _ & _ & ->)]; done.
  - intros time T' Hd.
    by destruct (decapitate_ok_inv _ _ _ Hd)
      as (_ & _ & _ & _ & _ & _ & _ & _ & Hflags).
Qed.

(** On the scenario: with the guarantee bit cleared the flag word is [1];
    after [sort()] it is [3] again. *)
Lemma rebuilt_edge_table_has_all_flags_set_witness :
  flags (scenario_unchecked (K := tskit_like_constants)) = 1
  /\ flags (iedges (fst (sort (K := tskit_like_constants)
                           (set_iedges
                              (scenario_unchecked (K := tskit_like_constants))
                              (scenario (K := tskit_like_constants)))))) = 3.
Proof.
  split; [reflexivity|].
  refine (proj1 (proj2 (proj2 (proj2
    (rebuilt_edge_table_has_all_flags_set (K := tskit_like_constants)
       scenario IEDGES_PARENT_OLDER_THAN_CHILD scenario_unchecked _)))) _ _ _).
  - reflexivity.
  - reflexivity.
  - discriminate.
Defined.

(** ** [Tables.sort] returns when the edges name nodes *)

Lemma np_take_total {A} (a : list A) (indices : list Z) :
  Forall (fun i => 0 <= i < Z.of_nat (length a)) indices ->
  exists xs, np_take a indices = Ok xs.
Proof.
  intros H. apply mapM_result_total.
  eapply Forall_impl; [exact H|]. intros i Hi. by apply py_index_in_range.
Qed.

Lemma sort_total {K : Constants} (T : Tables) :
  Tables_frozen T = false ->
  Forall (fun r => 0 <= IEdgeTableRow.child r < len (nodes T))
    (_data (rows (iedges T))) ->
  exists T', sort T = (T', Ok tt).
Proof.
  intros Hfr Hch. unfold sort.
  destruct (len (rows (iedges T)) =? 0); [eauto|].
  destruct (np_take_total (column NodeTableRow.time (nodes T))
              (column IEdgeTableRow.child (rows (iedges T)))) as [times Ht].
  { unfold column. rewrite Forall_map, length_map. exact Hch. }
  assert (Ho : edge_order T
               = Ok (lexsort (column IEdgeTableRow.child_left (rows (iedges T)))
                       (column IEdgeTableRow.child (rows (iedges T)))
                       (map Qopp times))).
  { unfold edge_order. by rewrite Ht. }
  rewrite Ho.
  pose proof (edge_order_perm _ _ Ho) as Hperm.
  destruct (rebuild_total (rows (iedges T))
              (lexsort (column IEdgeTableRow.child_left (rows (iedges T)))
                 (column IEdgeTableRow.child (rows (iedges T)))
                 (map Qopp times))) as [rs Hrs].
  { apply Forall_forall. intros i Hi. rewrite Hperm in Hi.
    apply list_elem_of_In, in_seq in Hi. lia. }
  fold (rebuild (rows (iedges T))
          (lexsort (column IEdgeTableRow.child_left (rows (iedges T)))
             (column IEdgeTableRow.child (rows (iedges T)))
             (map Qopp times))).
  rewrite Hrs. unfold Tables_setattr. rewrite Hfr. eauto.
Qed.

(** ** [Tables.from_tree_sequence] *)

Section ImportProperties.
Context {K : Constants}.
Variable float_add : Q -> Q -> Q.
Variable chromosome : option Z.
Variable timedelta : Q.

Lemma check_int_float_spec (x : Q) :
  check_int_float x
  = if float_is_integer (Finite x) then Ok (float_to_int (Finite x))
    else raise ValueError (ExpectedInteger None (PyFloat (Finite x))).
Proof.
  unfold check_int_float, _check_int.
  by destruct (float_is_integer (Finite x)).
Qed.

Lemma import_node_spec acc row :
  import_node float_add timedelta (unfrozen acc) row
  = Ok (unfrozen (acc ++ [imported_node float_add timedelta row])).
Proof. unfold import_node. by rewrite add_typed_row_unfrozen. Qed.

Lemma import_individual_spec acc row :
  import_individual (unfrozen acc) row
  = Ok (unfrozen (acc ++ [imported_individual row])).
Proof. unfold import_individual. by rewrite add_typed_row_unfrozen. Qed.

Lemma import_nodes_ok acc rows :
  foldM (import_node float_add timedelta) (unfrozen acc) rows
  = Ok (unfrozen (acc ++ map (imported_node float_add timedelta) rows)).
Proof.
  revert acc; induction rows as [|row rows IH]; intros acc; cbn [foldM].
  - by rewrite app_nil_r.
  - rewrite import_node_spec.
    cbn [mbind result_bind]. rewrite IH. cbn [map].
    by rewrite <- app_assoc.
Qed.

Lemma import_individuals_ok acc rows :
  foldM import_individual (unfrozen acc) rows
  = Ok (unfrozen (acc ++ map imported_individual rows)).
Proof.
  revert acc; induction rows as [|row rows IH]; intros acc; cbn [foldM].
  - by rewrite app_nil_r.
  - rewrite import_individual_spec.
    cbn [mbind result_bind]. rewrite IH. cbn [map].
    by rewrite <- app_assoc.
Qed.

Lemma import_edge_spec acc row :
  import_edge chromosome (fresh_iedges acc) row
  = if integral_coordinates row
    then Ok (fresh_iedges (acc ++ [imported_edge chromosome row]))
    else raise ValueError
           (ExpectedInteger None
              (PyFloat (Finite (if float_is_integer (Finite (tskit.left row))
                                then tskit.right row
                                else tskit.left row)))).
Proof.
  unfold import_edge, integral_coordinates.
  rewrite !check_int_float_spec.
  destruct (float_is_integer (Finite (tskit.left row))); [|done].
  destruct (float_is_integer (Finite (tskit.right row))); [|done].
  reflexivity.
Qed.

Lemma import_edges_ok acc rows :
  Forall (fun row => integral_coordinates row = true) rows ->
  foldM (import_edge chromosome) (fresh_iedges acc) rows
  = Ok (fresh_iedges (acc ++ map (imported_edge chromosome) rows)).
Proof.
  revert acc; induction rows as [|row rows IH]; intros acc Hall; cbn [foldM].
  - by rewrite app_nil_r.
  - inversion Hall as [|? ? Hrow Hrest]; subst.
    rewrite import_edge_spec, Hrow. cbn [mbind result_bind].
    rewrite IH by done. cbn [map]. by rewrite <- app_assoc.
Qed.

Lemma import_edges_raise acc rows :
  Exists (fun row => integral_coordinates row = false) rows ->
  raises (foldM (import_edge chromosome) (fresh_iedges acc) rows) ValueError.
Proof.
  revert acc; induction rows as [|row rows IH]; intros acc Hex; cbn [foldM].
  - inversion Hex.
  - rewrite import_edge_spec.
    destruct (integral_coordinates row) eqn:Hrow.
    + cbn [mbind result_bind]. apply IH.
      inversion Hex; subst; [congruence | done].
    + eexists. reflexivity.
Qed.

Lemma from_tree_sequence_supported ts :
  supported ts ->
  from_tree_sequence float_add ts chromosome timedelta
  = import_rows float_add ts chromosome timedelta
      (Tables_init (Some (tskit.time_units ts)))
    ≫= fun tables => match sort tables with
                     | (tables, Ok _) => Ok tables
                     | (_, Err e) => Err e
                     end.
Proof.
  intros (H1 & H2 & H3 & H4). unfold from_tree_sequence.
  rewrite H1, H2, H3. cbn [Nat.ltb Nat.leb].
  destruct (tskit.populations_num_rows ts) as [|[|n]]; [done | done | lia].
Qed.
End ImportProperties.

(** C9, as the code has it. A collection with a migration, mutation or
    site row, or with more than one population, makes [from_tree_sequence]
    raise [NotImplementedError] before any row is copied, and nothing is
    returned. For a collection with none of these, whose edge coordinates
    are whole numbers and whose edges have existing nodes as children, it
    returns a [Tables] whose node rows are the source rows with
    [timedelta] added to the time, whose individuals are the source's, and
    whose edge table is what [sort()] makes of the imported edges, a
    permutation of them. An edge coordinate that is not a whole number
    makes it raise the not-an-integer [ValueError] instead. *)
Theorem from_tree_sequence_imports_or_refuses {K : Constants}
  (float_add : Q -> Q -> Q) (ts : tskit.TableCollection)
  (chromosome : option Z) (timedelta : Q) :
  ((0 < tskit.migrations_num_rows ts \/ 0 < tskit.mutations_num_rows ts
    \/ 0 < tskit.sites_num_rows ts \/ 1 < tskit.populations_num_rows ts)%nat ->
   from_tree_sequence float_add ts chromosome timedelta
   = raise NotImplementedError NoMessage)
  /\ (supported ts ->
      Forall (fun row => integral_coordinates row = true) (tskit.edges ts) ->
      Forall (fun row => 0 <= tskit.child row
                              < Z.of_nat (length (tskit.nodes ts)))
        (tskit.edges ts) ->
      exists T,
        from_tree_sequence float_add ts chromosome timedelta = Ok T
        /\ _data (nodes T)
           = map (imported_node float_add timedelta) (tskit.nodes ts)
        /\ column NodeTableRow.time (nodes T)
           = map (fun row => float_add (tskit.time row) timedelta)
               (tskit.nodes ts)
        /\ _data (individuals T)
           = map imported_individual (tskit.individuals ts)
        /\ time_units T = tskit.time_units ts
        /\ sort (mkTables
                   (unfrozen (map (imported_node float_add timedelta)
                                (tskit.nodes ts)))
                   (fresh_iedges (map (imported_edge chromosome)
                                    (tskit.edges ts)))
                   (unfrozen (map imported_individual (tskit.individuals ts)))
                   (tskit.time_units ts) false)
           = (T, Ok tt)
        /\ Permutation (_data (rows (iedges T)))
             (map (imported_edge chromosome) (tskit.edges ts)))
  /\ (supported ts ->
      Exists (fun row => integral_coordinates row = false) (tskit.edges ts) ->
      raises (from_tree_sequence float_add ts chromosome timedelta) ValueError).
Proof.
  split; [|split].
  - intros H. unfold from_tree_sequence.
    destruct (tskit.migrations_num_rows ts) as [|a]; [|done].
    destruct (tskit.mutations_num_rows ts) as [|b]; [|done].
    destruct (tskit.sites_num_rows ts) as [|c]; [|done].
    destruct (tskit.populations_num_rows ts) as [|[|d]]; [lia | lia | done].
  - intros Hsup Hint Hch.
    rewrite (from_tree_sequence_supported _ _ _ _ Hsup).
    unfold import_rows, Tables_init.
    cbn [nodes iedges individuals time_units Tables_frozen].
    change (@BaseTable_init NodeTableRow.t) with (@unfrozen NodeTableRow.t []).
    change (@BaseTable_init IndividualTableRow.t)
      with (@unfrozen IndividualTableRow.t []).
    change IEdgeTable_init with (fresh_iedges []).
    rewrite import_nodes_ok. cbn [mbind result_bind].
    rewrite import_edges_ok by done. cbn [mbind result_bind].
    rewrite import_individuals_ok. cbn [mbind result_bind app].
    set (imported := mkTables _ _ _ _ _).
    destruct (sort_total imported) as [T HT]; [done| |].
    { cbn. rewrite Forall_map. unfold len. cbn. rewrite length_map.
      exact Hch. }
    exists T. rewrite HT.
    pose proof (sort_permutes_edges _ _ HT) as (HN & HI & HU & HP).
    rewrite HN, HI, HU. unfold column. cbn.
    repeat split; try done.
    by rewrite map_map.
  - intros Hsup Hex.
    rewrite (from_tree_sequence_supported _ _ _ _ Hsup).
    unfold import_rows, Tables_init.
    cbn [nodes iedges individuals time_units Tables_frozen].
    change (@BaseTable_init NodeTableRow.t) with (@unfrozen NodeTableRow.t []).
    change IEdgeTable_init with (fresh_iedges []).
    rewrite import_nodes_ok. cbn [mbind result_bind].
    destruct (import_edges_raise chromosome [] _ Hex) as [m Hm].
    rewrite Hm. by exists m.
Qed.

Lemma from_tree_sequence_imports_or_refuses_witness :
  exists T,
    from_tree_sequence (K := tskit_like_constants) Qplus two_node_ts None 0
    = Ok T
    /\ column NodeTableRow.time (nodes T)
       = map (fun row => (tskit.time row + 0)%Q) (tskit.nodes two_node_ts).
Proof.
  destruct (proj1 (proj2 (from_tree_sequence_imports_or_refuses
              (K := tskit_like_constants) Qplus two_node_ts None 0)))
    as (T & HT & _ & Htimes & _).
  - repeat split; simpl; lia.
  - repeat constructor.
  - repeat constructor; simpl; lia.
  - exists T. by split.
Defined.

(** C9 as stated fails: [fractional_ts] has no migration, mutation, site
    or second population, and [from_tree_sequence] raises the
    not-an-integer [ValueError] for the edge that ends at 2.5 instead of
    returning a [Tables]. *)
Lemma from_tree_sequence_raises_on_fractional_edge :
  supported fractional_ts
  /\ from_tree_sequence (K := tskit_like_constants) Qplus fractional_ts None 0
     = raise ValueError (ExpectedInteger None (PyFloat (Finite (5 # 2)))).
Proof. split; [repeat split; simpl; lia | reflexivity]. Qed.

(** ** The order [sort] establishes *)

Lemma key_leb_le (a b : sort_key) : key_leb a b = true <-> key_le a b.
Proof.
  destruct a as [[a3 a2] a1], b as [[b3 b2] b1]. unfold key_leb, key_le.
  cbn [fst snd].
  rewrite orb_true_iff, andb_true_iff, orb_true_iff, andb_true_iff.
  rewrite Qltb_lt, Qeq_bool_iff, Z.ltb_lt, Z.eqb_eq, Z.leb_le. tauto.
Qed.

Lemma key_le_total (a b : sort_key) : key_le a b \/ key_le b a.
Proof.
  destruct a as [[a3 a2] a1], b as [[b3 b2] b1]. unfold key_le. cbn [fst snd].
  destruct (Q_dec a3 b3) as [[Hlt|Hgt]|Heq]; [by left; left | by right; left |].
  assert (Heq' : (b3 == a3)%Q) by (by symmetry).
  destruct (Z.lt_trichotomy a2 b2) as [H|[H|H]].
  - left. right. split; [done|]. by left.
  - destruct (Z.le_ge_cases a1 b1).
    + left. right. split; [done|]. right. done.
    + right. right. split; [done|]. right. split; [done|]. done.
  - right. right. split; [done|]. by left.
Qed.

Lemma key_le_trans (a b c : sort_key) : key_le a b -> key_le b c -> key_le a c.
Proof.
  destruct a as [[a3 a2] a1], b as [[b3 b2] b1], c as [[c3 c2] c1].
  unfold key_le. cbn [fst snd].
  intros [Hab|[Hab Hab']] [Hbc|[Hbc Hbc']].
  - left. by apply Qlt_trans with b3.
  - left. by rewrite <- Hbc.
  - left. by rewrite Hab.
  - right. split; [by rewrite Hab|]. lia.
Qed.

Lemma key_leb_total a b : key_leb a b = false -> key_leb b a = true.
Proof.
  intros H. apply key_leb_le.
  destruct (key_le_total a b) as [Hab|Hba]; [|done].
  apply key_leb_le in Hab. congruence.
Qed.

Lemma key_leb_trans a b c :
  key_leb a b = true -> key_leb b c = true -> key_leb a c = true.
Proof. rewrite !key_leb_le. apply key_le_trans. Qed.

Lemma stably_before_trans a b c :
  stably_before a b -> stably_before b c -> stably_before a c.
Proof.
  intros [Hab Hab'] [Hbc Hbc']. split; [by eapply key_leb_trans|].
  intros Hca.
  assert (key_leb b.2 a.2 = true) by (by eapply key_leb_trans).
  assert (key_leb c.2 b.2 = true) by (by eapply key_leb_trans).
  specialize (Hab' ltac:(done)). specialize (Hbc' ltac:(done)). lia.
Qed.

Lemma insert_by_sorted x l :
  StronglySorted stably_before l ->
  Forall (fun y => (x.1 < y.1)%nat) l ->
  StronglySorted stably_before (insert_by by_key x l).
Proof.
  induction 1 as [|y l Hl IH Hy]; intros Hx; cbn [insert_by].
  - repeat constructor.
  - inversion Hx as [|? ? Hxy Hxl]; subst.
    destruct (key_leb x.2 y.2) eqn:Hle.
    + assert (Hxy' : stably_before x y) by done.
      constructor; [by constructor|].
      constructor; [done|].
      eapply Forall_impl; [exact Hy|]. intros z Hz.
      by eapply stably_before_trans.
    + constructor; [by apply IH|].
      rewrite insert_by_perm. constructor; [|done].
      split; [by apply key_leb_total | congruence].
Qed.

Lemma stable_sort_sorted (l : list (nat * sort_key)) :
  StronglySorted lt (map fst l) ->
  StronglySorted stably_before (stable_sort by_key l).
Proof.
  induction l as [|x l IH]; cbn [stable_sort foldr map]; [constructor|].
  intros Hs. inversion Hs as [|? ? Hl Hx]; subst.
  apply insert_by_sorted; [by apply IH|].
  fold (stable_sort by_key l). rewrite stable_sort_perm.
  by rewrite Forall_map in Hx.
Qed.

Lemma seq_strongly_sorted s n : StronglySorted lt (seq s n).
Proof.
  revert s; induction n as [|n IH]; intros s; simpl; constructor; [done|].
  apply Forall_forall. intros i Hi%list_elem_of_In%in_seq. lia.
Qed.

Lemma keyed_lookup keys i k :
  (i, k) ∈ keyed keys -> keys !! i = Some k.
Proof.
  unfold keyed. intros [j Hj]%list_elem_of_lookup.
  apply lookup_zip_with_Some in Hj as (i' & k' & [= <- <-] & Hi & Hk).
  apply lookup_seq in Hi as [-> _]. done.
Qed.

Lemma StronglySorted_map {A B} (R : A -> A -> Prop) (R' : B -> B -> Prop)
  (f : A -> B) l :
  (forall a b, a ∈ l -> b ∈ l -> R a b -> R' (f a) (f b)) ->
  StronglySorted R l -> StronglySorted R' (map f l).
Proof.
  intros Hf Hs. induction Hs as [|a l Hl IH Ha]; simpl; constructor.
  - apply IH. intros x y Hx Hy. apply Hf; by constructor.
  - rewrite Forall_map. rewrite Forall_forall in *. intros b Hb.
    apply Hf; [by constructor | by constructor | by apply Ha].
Qed.

Lemma lookup_map {A B} (f : A -> B) (l : list A) (i : nat) :
  map f l !! i = f <$> (l !! i).
Proof.
  revert i; induction l as [|x l IH]; intros [|i]; simpl; done.
Qed.

Lemma sort_keys_lookup T times i k :
  np_take (column NodeTableRow.time (nodes T))
    (column IEdgeTableRow.child (rows (iedges T))) = Ok times ->
  zip (zip (map Qopp times) (column IEdgeTableRow.child (rows (iedges T))))
    (column IEdgeTableRow.child_left (rows (iedges T))) !! i = Some k ->
  exists r, _data (rows (iedges T)) !! i = Some r /\ edge_sort_key T r = Ok k.
Proof.
  intros Ht Hk.
  apply lookup_zip_with_Some in Hk as ([t c] & cl & -> & Htc & Hcl).
  apply lookup_zip_with_Some in Htc as (t' & c' & [= <- <-] & Ht' & Hc).
  unfold column in Hc, Hcl.
  rewrite lookup_map in Hc. rewrite lookup_map in Hcl.
  rewrite lookup_map in Ht'.
  destruct (_data (rows (iedges T)) !! i) as [r|] eqn:Hr; [|done].
  simpl in Hc, Hcl. injection Hc as <-. injection Hcl as <-.
  destruct (times !! i) as [t0|] eqn:Ht0; [|done].
  simpl in Ht'. injection Ht' as <-.
  exists r. split; [done|]. unfold edge_sort_key.
  destruct (mapM_result_lookup _ _ _ i (IEdgeTableRow.child r) Ht)
    as (t1 & Ht1 & Hidx).
  { unfold column. by rewrite lookup_map, Hr. }
  assert (t1 = t0) as -> by congruence.
  by rewrite Hidx.
Qed.

(** What [sort()] establishes on a table with edges: the rows are the old
    rows taken in an order that is a permutation of their indices and in
    which each row stands before every later one by the key (time of the
    CHILD node descending, child id ascending, left coordinate on the child
    ascending), rows with equal keys in their old order. *)
Lemma sort_orders_by_child_time {K : Constants} (T T' : Tables) :
  sort T = (T', Ok tt) ->
  _data (rows (iedges T)) <> [] ->
  exists order,
    Permutation order (seq 0 (length (_data (rows (iedges T)))))
    /\ Forall2 (fun i r => _data (rows (iedges T)) !! i = Some r) order
         (_data (rows (iedges T')))
    /\ StronglySorted (in_sort_order T) order.
Proof.
  intros Hs Hne.
  apply sort_ok_inv in Hs as [[Hnil _]|(order & rs & Ho & Hrs & _ & ->)];
    [done|].
  exists order. split; [by apply edge_order_perm|]. split; [done|].
  unfold edge_order in Ho. inv_bind Ho. injection Ho as <-.
  rename a into times. unfold lexsort.
  set (keys := zip (zip (map Qopp times) _) _).
  apply (StronglySorted_map stably_before).
  2:{ apply stable_sort_sorted. rewrite keyed_indices.
      apply seq_strongly_sorted. }
  intros [i ki] [j kj] Hi Hj Hij.
  rewrite stable_sort_perm in Hi, Hj.
  apply keyed_lookup in Hi, Hj.
  destruct (sort_keys_lookup _ _ _ _ Ha Hi) as (ri & Hri & Hki).
  destruct (sort_keys_lookup _ _ _ _ Ha Hj) as (rj & Hrj & Hkj).
  by exists ri, rj, ki, kj.
Qed.

(** ** The well-typed rows are the rows of the run-time layer *)

(** The calls [decapitate] makes build exactly the typed rows. *)
Lemma decapitate_rows_constructed {K : Constants}
  (cl cr pl pr c p : Z) (t : Q) (f i : Z) (ps : list Z) :
  construct IEdgeTableRow_class [PyInt cl; PyInt cr; PyInt pl; PyInt pr]
    [("child", PyInt c); ("parent", PyInt p)]
  = Ok (IEdgeTableRow.to_dyn (IEdgeTableRow.mk cl cr pl pr c p NULL NULL NULL))
  /\ construct NodeTableRow_class []
       [("time", PyFloat (Finite t)); ("flags", PyInt f);
        ("individual", PyInt i)]
     = Ok (node_to_dyn (NodeTableRow.mk t f i))
  /\ construct IndividualTableRow_class [] [("parents", PyTuple (map PyInt ps))]
     = Ok (individual_to_dyn (IndividualTableRow.mk ps)).
Proof. repeat split. Qed.

(** Typed rows pass [_validate]. *)
Lemma typed_rows_validate {K : Constants}
  (e : IEdgeTableRow.t) (n : NodeTableRow.t) (i : IndividualTableRow.t) :
  _validate IEdgeTableRow_class (IEdgeTableRow.to_dyn e) = Ok tt
  /\ _validate NodeTableRow_class (node_to_dyn n) = Ok tt
  /\ _validate IndividualTableRow_class (individual_to_dyn i) = Ok tt.
Proof. repeat split. Qed.

(** [IEdgeTable.append(row)], as [sort] calls it on a row of the table,
    appends that very row: the typed [iedges_append] is this call. *)
Lemma iedge_append_of_row {K : Constants}
  (r : IEdgeTableRow.t) (t : IEdgeTable dynrow) :
  _data_kind (rows t) = ListSeq ->
  IEdgeTable_append (RowObj (IEdgeTableRow.to_dyn r)) t
  = (mkIEdgeTable
       (mkBaseTable (_data (rows t) ++ [IEdgeTableRow.to_dyn r]) ListSeq
          (_frozen (rows t)))
       (flags t) (first_edge_for_child t),
     Ok (len (rows t))).
Proof.
  destruct t as [[d k fr] fl fe]. cbn [rows _data_kind]. intros ->.
  unfold IEdgeTable_append, add_int_row, inherited, add_row, append_row.
  cbn. unfold len. cbn. rewrite length_app. cbn.
  do 2 f_equal. lia.
Qed.

(** ** [Tables.freeze] and [Tables.copy] *)

(** Freezing an aggregate none of whose parts is frozen freezes all three
    tables and the aggregate; afterwards no table can be reassigned. *)
Lemma Tables_freeze_ok {K : Constants} (T : Tables) :
  _frozen (nodes T) = false ->
  _frozen (rows (iedges T)) = false ->
  _frozen (individuals T) = false ->
  Tables_frozen T = false ->
  exists T',
    Tables_freeze T = (T', Ok tt)
    /\ Tables_frozen T' = true
    /\ _frozen (nodes T') = true
    /\ _frozen (rows (iedges T')) = true
    /\ _frozen (individuals T') = true
    /\ Tables_eq T' T
    /\ forall upd, Tables_setattr upd T' = (T', Err frozen_error).
Proof.
  intros Hn He Hi HT. unfold Tables_freeze, inherited.
  rewrite !freeze_unfrozen by done.
  unfold Tables_setattr. cbn [Tables_frozen]. rewrite HT.
  eexists. split; [reflexivity|]. by repeat split.
Qed.

(** A copy compares equal to its original and is not frozen. *)
Lemma Tables_copy_eq {K : Constants} (T : Tables) :
  Tables_eq (Tables_copy T) T
  /\ Tables_frozen (Tables_copy T) = false
  /\ _frozen (nodes (Tables_copy T)) = false
  /\ _frozen (rows (iedges (Tables_copy T))) = false
  /\ _frozen (individuals (Tables_copy T)) = false.
Proof. by repeat split. Qed.

(* ===================================================================== *)
(** * Further properties of the table containers *)
(* ===================================================================== *)

(** ** [add_row] and [__getitem__] *)

Lemma py_index_snoc_last {A} (l : list A) (x : A) :
  py_index (l ++ [x]) (Z.of_nat (length l)) = Ok x.
Proof. apply py_index_nat. by rewrite list_lookup_middle. Qed.

Lemma py_index_snoc_minus_one {A} (l : list A) (x : A) :
  py_index (l ++ [x]) (-1) = Ok x.
Proof.
  unfold py_index. rewrite length_app. cbn [length].
  change (-1 <? 0) with true. cbv iota zeta.
  assert (H : Z.of_nat (length l + 1) + -1 = Z.of_nat (length l)) by lia.
  rewrite H, (proj2 (Z.leb_le _ _)), (proj2 (Z.ltb_lt _ _)) by lia.
  cbn [andb]. by rewrite Nat2Z.id, list_lookup_middle.
Qed.

Lemma py_index_snoc_old {A} (l : list A) (x : A) (i : Z) :
  0 <= i < Z.of_nat (length l) ->
  py_index (l ++ [x]) i = py_index l i.
Proof.
  intros Hi. unfold py_index. rewrite length_app. cbn [length].
  rewrite (proj2 (Z.ltb_ge i 0)) by lia.
  rewrite (proj2 (Z.leb_le 0 i)), !(proj2 (Z.ltb_lt i _)) by lia.
  cbn [andb]. rewrite lookup_app_l by lia. done.
Qed.

(** X1. A successful [add_row] returns the old length as the new row's
    index, makes the table one row longer, and the row the constructor
    built is what [table[index]] and [table[-1]] return afterwards; every
    row that was in the table is still found under its index. *)
Theorem add_row_then_getitem (c : rowclass) (args : list pyval)
  (kwargs : pydict) (t t' : BaseTable dynrow) (id : Z) :
  add_row c args kwargs t = (t', Ok id) ->
  id = len t
  /\ len t' = len t + 1
  /\ (exists r, construct c args kwargs = Ok r
                /\ getitem t' id = Ok r
                /\ getitem t' (-1) = Ok r)
  /\ forall i, 0 <= i < len t -> getitem t' i = getitem t i.
Proof.
  unfold add_row, append_row.
  destruct (_data_kind t); [|done].
  destruct (construct c args kwargs) as [r|e]; [|done].
  intros [= <- <-]. unfold len, getitem. cbn [_data].
  rewrite length_app. cbn [length].
  split; [lia|]. split; [lia|]. split.
  - exists r. split; [done|].
    replace (Z.of_nat (length (_data t) + 1) - 1)
      with (Z.of_nat (length (_data t))) by lia.
    split; [apply py_index_snoc_last | apply py_index_snoc_minus_one].
  - intros i Hi. by apply py_index_snoc_old.
Qed.

Lemma add_row_then_getitem_witness :
  getitem (fst (add_row (NodeTableRow_class (K := tskit_like_constants)) []
                  [("time", PyFloat (Finite 1))] BaseTable_init)) (-1)
  = Ok [("time", PyFloat (Finite 1)); ("flags", PyInt 0);
        ("individual", PyInt (-1))].
Proof.
  destruct (add_row_then_getitem
              (NodeTableRow_class (K := tskit_like_constants)) []
              [("time", PyFloat (Finite 1))] BaseTable_init
              (fst (add_row (NodeTableRow_class (K := tskit_like_constants)) []
                      [("time", PyFloat (Finite 1))] BaseTable_init)) 0
              eq_refl) as (_ & _ & (r & Hr & _ & Hlast) & _).
  rewrite Hlast. rewrite <- Hr. reflexivity.
Defined.

(** ** [freeze], twice *)

(** X2. [freeze] is not idempotent: on a table it has frozen, a second
    [freeze] raises the [AttributeError] of [__setattr__] (its first
    statement is an assignment) and changes nothing. The frozen table still
    answers [len] and [table[i]] as before. *)
Theorem freeze_twice_raises {R : Type} (t t' : BaseTable R) :
  freeze t = (t', Ok tt) ->
  freeze t' = (t', Err frozen_error)
  /\ len t' = len t
  /\ forall i, getitem t' i = getitem t i.
Proof. intros [_ ->]%freeze_ok. by repeat split. Qed.

Lemma freeze_twice_raises_witness :
  freeze (mkBaseTable [1; 2] TupleSeq true)
  = (mkBaseTable [1; 2] TupleSeq true, Err frozen_error).
Proof.
  exact (proj1 (freeze_twice_raises (unfrozen [1; 2])
                  (mkBaseTable [1; 2] TupleSeq true) eq_refl)).
Defined.

(** ** [copy] *)

(** X3. The copy of a table, frozen or not, compares equal to it and is
    not frozen: [add_row] on the copy appends whatever row the constructor
    accepts. *)
Theorem copy_is_equal_and_mutable (t : BaseTable dynrow) :
  table_eq (copy t) t
  /\ _frozen (copy t) = false
  /\ forall c args kwargs r,
       construct c args kwargs = Ok r ->
       add_row c args kwargs (copy t)
       = (mkBaseTable (_data t ++ [r]) ListSeq false, Ok (len t)).
Proof.
  split; [done|]. split; [done|].
  intros c args kwargs r Hr. unfold add_row, append_row, copy, setattr.
  cbn. rewrite Hr. unfold len. cbn. rewrite length_app. cbn [length].
  do 2 f_equal. lia.
Qed.

Lemma copy_is_equal_and_mutable_witness :
  add_row (IndividualTableRow_class) [] []
    (copy (mkBaseTable [] TupleSeq true))
  = (mkBaseTable [[("parents", PyTuple [])]] ListSeq false, Ok 0).
Proof.
  exact (proj2 (proj2 (copy_is_equal_and_mutable (mkBaseTable [] TupleSeq true)))
           IndividualTableRow_class [] [] [("parents", PyTuple [])] eq_refl).
Defined.

(** ** [add_rows] *)

Lemma append_ok (c : rowclass) obj (t : BaseTable dynrow) r :
  _data_kind t = ListSeq ->
  row_of c obj = Ok r ->
  append c obj t = (with_rows (_data t ++ [r]) t, Ok (len t)).
Proof.
  intros Hk Hr. unfold append, add_row, append_row.
  unfold row_of in Hr. rewrite Hk, Hr. unfold with_rows, len. cbn.
  rewrite length_app. cbn [length]. do 2 f_equal. lia.
Qed.

Lemma append_err (c : rowclass) obj (t : BaseTable dynrow) e :
  _data_kind t = ListSeq ->
  row_of c obj = Err e ->
  append c obj t = (t, Err e).
Proof.
  intros Hk Hr. unfold append, add_row, append_row.
  unfold row_of in Hr. by rewrite Hk, Hr.
Qed.

Lemma add_rows_all_ok (c : rowclass) objs (t : BaseTable dynrow) rs :
  _data_kind t = ListSeq ->
  mapM_result (row_of c) objs = Ok rs ->
  forall rest,
    add_rows c (objs ++ rest) t
    = add_rows c rest (with_rows (_data t ++ rs) t).
Proof.
  revert t rs. induction objs as [|obj objs IH]; intros t rs Hk Hrs rest.
  - injection Hrs as <-. rewrite app_nil_r. by destruct t; cbn in *; subst.
  - cbn [mapM_result] in Hrs. inv_bind Hrs. inv_bind Hrs. injection Hrs as <-.
    cbn [app]. unfold add_rows. cbn [add_rows_with].
    rewrite (append_ok _ _ _ _ Hk Ha).
    fold (add_rows c (objs ++ rest) (with_rows (_data t ++ [a]) t)).
    rewrite (IH _ a0) by done. unfold with_rows. cbn [_data _frozen].
    by rewrite <- app_assoc.
Qed.

(** X4. [add_rows] appends the rows of the objects in their order. It is
    not atomic: when the row of some object is refused by the constructor,
    the error is raised with the rows of all earlier objects already
    appended, and the later objects are not looked at. *)
Theorem add_rows_appends_in_order_until_failure (c : rowclass)
  (good : list pyobj) (rs : list dynrow) (t : BaseTable dynrow) :
  _data_kind t = ListSeq ->
  mapM_result (row_of c) good = Ok rs ->
  add_rows c good t = (with_rows (_data t ++ rs) t, Ok tt)
  /\ forall bad e rest,
       row_of c bad = Err e ->
       add_rows c (good ++ bad :: rest) t
       = (with_rows (_data t ++ rs) t, Err e).
Proof.
  intros Hk Hrs. split.
  - rewrite <- (app_nil_r good). by rewrite (add_rows_all_ok _ _ _ _ Hk Hrs).
  - intros bad e rest Hbad.
    rewrite (add_rows_all_ok _ _ _ _ Hk Hrs).
    unfold add_rows. cbn [add_rows_with].
    rewrite (append_err c bad (with_rows (_data t ++ rs) t) e); done.
Qed.

Lemma add_rows_appends_in_order_until_failure_witness :
  add_rows (NodeTableRow_class (K := tskit_like_constants))
    [DictObj [("time", PyFloat (Finite 0))]; DictObj [("flags", PyInt 1)];
     DictObj [("time", PyFloat (Finite 2))]] BaseTable_init
  = (mkBaseTable [[("time", PyFloat (Finite 0)); ("flags", PyInt 0);
                   ("individual", PyInt (-1))]] ListSeq false,
     raise TypeError (MissingArgument "time")).
Proof.
  exact (proj2 (add_rows_appends_in_order_until_failure
                  (NodeTableRow_class (K := tskit_like_constants))
                  [DictObj [("time", PyFloat (Finite 0))]]
                  [[("time", PyFloat (Finite 0)); ("flags", PyInt 0);
                    ("individual", PyInt (-1))]]
                  BaseTable_init eq_refl eq_refl)
           (DictObj [("flags", PyInt 1)]) _
           [DictObj [("time", PyFloat (Finite 2))]] eq_refl).
Defined.

(* ===================================================================== *)
(** * Further properties of the [Tables] aggregate *)
(* ===================================================================== *)

(** ** [Tables.clear] *)

Lemma clear_unfrozen {R} (t : BaseTable R) :
  _frozen t = false -> clear t = (with_rows [] t, Ok tt).
Proof. intros H. unfold clear, setattr, with_rows, set_data. by rewrite H. Qed.

Lemma clear_frozen {R} (t : BaseTable R) :
  _frozen t = true -> clear t = (t, Err frozen_error).
Proof. intros H. unfold clear, setattr. by rewrite H. Qed.

(** X5. [Tables.clear] on an aggregate none of whose tables is frozen
    empties the three tables and keeps the time units and the flag word of
    the edge table (a cleared guarantee bit stays cleared). It is not
    atomic: with an unfrozen node table and a frozen edge table the node
    table is emptied before the [AttributeError] is raised, and the edge
    and individual tables keep their rows. *)
Theorem Tables_clear_empties_or_stops_halfway (T : Tables) :
  (_frozen (nodes T) = false ->
   _frozen (rows (iedges T)) = false ->
   _frozen (individuals T) = false ->
   exists T',
     Tables_clear T = (T', Ok tt)
     /\ _data (nodes T') = []
     /\ _data (rows (iedges T')) = []
     /\ _data (individuals T') = []
     /\ flags (iedges T') = flags (iedges T)
     /\ time_units T' = time_units T)
  /\ (_frozen (nodes T) = false ->
      _frozen (rows (iedges T)) = true ->
      Tables_clear T = (set_nodes (with_rows [] (nodes T)) T, Err frozen_error)).
Proof.
  split.
  - intros Hn He Hi. unfold Tables_clear, inherited.
    rewrite !clear_unfrozen by done. eexists. split; [reflexivity|].
    by repeat split.
  - intros Hn He. unfold Tables_clear, inherited.
    rewrite (clear_unfrozen _ Hn), (clear_frozen _ He).
    by destruct T as [n [b fl fe] i u fr].
Qed.

Lemma Tables_clear_empties_or_stops_halfway_witness :
  Tables_clear
    (mkTables (unfrozen [NodeTableRow.mk 0 0 (-1)])
       (mkIEdgeTable (mkBaseTable [] TupleSeq true) 3 ∅)
       (unfrozen []) "unknown" false)
  = (mkTables (unfrozen [])
       (mkIEdgeTable (mkBaseTable [] TupleSeq true) 3 ∅)
       (unfrozen []) "unknown" false, Err frozen_error).
Proof.
  exact (proj2 (Tables_clear_empties_or_stops_halfway
                  (mkTables (unfrozen [NodeTableRow.mk 0 0 (-1)])
                     (mkIEdgeTable (mkBaseTable [] TupleSeq true) 3 ∅)
                     (unfrozen []) "unknown" false)) eq_refl eq_refl).
Defined.

(** ** [Tables.freeze] *)

Lemma freeze_frozen {R} (t : BaseTable R) :
  _frozen t = true -> freeze t = (t, Err frozen_error).
Proof. intros H. unfold freeze, setattr. by rewrite H. Qed.

Lemma Tables_freeze_inv (T T' : Tables) :
  Tables_freeze T = (T', Ok tt) ->
  Tables_frozen T' = true
  /\ _frozen (nodes T') = true
  /\ _frozen (rows (iedges T')) = true
  /\ _frozen (individuals T') = true
  /\ Tables_eq T' T.
Proof.
  unfold Tables_freeze, inherited.
  destruct (freeze (nodes T)) as [n [[]|e]] eqn:Hn; [|done].
  destruct (freeze (rows (iedges T))) as [b [[]|e]] eqn:Hb; [|done].
  destruct (freeze (individuals T)) as [i [[]|e]] eqn:Hi; [|done].
  apply freeze_ok in Hn as [_ ->], Hb as [_ ->], Hi as [_ ->].
  unfold Tables_setattr. cbn [Tables_frozen].
  destruct (Tables_frozen T); [done|]. intros [= <-]. by repeat split.
Qed.

Lemma frozen_sort_unchanged {K : Constants} (T : Tables) :
  Tables_frozen T = true -> fst (sort T) = T.
Proof.
  intros Hfr. unfold sort. destruct (len _ =? 0); [done|].
  destruct (edge_order T); [|done].
  destruct (foldM _ _ _); [|done].
  unfold Tables_setattr. by rewrite Hfr.
Qed.

Lemma frozen_decapitate_raises {K : Constants} (time : Q) (T : Tables) :
  Tables_frozen T = true -> exists e, decapitate time T = (T, Err e).
Proof.
  intros Hfr. unfold decapitate.
  destruct (decap_build time T) as [[s ie]|e]; [|eauto].
  unfold Tables_setattr. rewrite Hfr. eauto.
Qed.

Lemma shift_nodes_ok (float_add : Q -> Q -> Q) (timedelta : Q) acc nds :
  foldM (shift_node float_add timedelta) (unfrozen acc) nds
  = Ok (unfrozen (acc ++ map (shifted_node float_add timedelta) nds)).
Proof.
  revert acc; induction nds as [|nd nds IH]; intros acc; cbn [foldM].
  - by rewrite app_nil_r.
  - assert (Hstep : shift_node float_add timedelta (unfrozen acc) nd
                    = Ok (unfrozen (acc ++ [shifted_node float_add timedelta nd]))).
    { unfold shift_node. by rewrite add_typed_row_unfrozen. }
    rewrite Hstep. cbn [mbind result_bind]. rewrite IH. cbn [map].
    by rewrite <- app_assoc.
Qed.

Lemma change_times_spec (float_add : Q -> Q -> Q)
  (timedelta : Q) (T : Tables) :
  change_times float_add timedelta T
  = Tables_setattr
      (set_nodes (unfrozen (map (shifted_node float_add timedelta)
                              (_data (nodes T))))) T.
Proof.
  unfold change_times. change (@BaseTable_init NodeTableRow.t) with
    (@unfrozen NodeTableRow.t []).
  by rewrite shift_nodes_ok.
Qed.

(** X6. Once [Tables.freeze] has returned, the aggregate cannot be changed
    through its own methods: a second [freeze], [clear], [change_times]
    and [decapitate] raise and leave it exactly as it was, and [sort]
    leaves it as it was too (it returns normally only when there is no
    edge to sort). Freezing changes no row: the frozen aggregate compares
    equal to the original. *)
Theorem frozen_aggregate_is_immutable {K : Constants} (T T' : Tables) :
  Tables_freeze T = (T', Ok tt) ->
  Tables_eq T' T
  /\ Tables_freeze T' = (T', Err frozen_error)
  /\ Tables_clear T' = (T', Err frozen_error)
  /\ (forall float_add timedelta,
        change_times float_add timedelta T' = (T', Err frozen_error))
  /\ (forall time, exists e, decapitate time T' = (T', Err e))
  /\ fst (sort T') = T'
  /\ (_data (rows (iedges T')) <> [] -> exists e, sort T' = (T', Err e)).
Proof.
  intros H. apply Tables_freeze_inv in H as (HT & Hn & He & Hi & Heq).
  split; [done|]. split.
  { unfold Tables_freeze. rewrite (freeze_frozen _ Hn). by destruct T'. }
  split.
  { unfold Tables_clear. rewrite (clear_frozen _ Hn). by destruct T'. }
  split.
  { intros fa d. rewrite change_times_spec. unfold Tables_setattr.
    by rewrite HT. }
  split; [intros time; by apply frozen_decapitate_raises|].
  split; [by apply frozen_sort_unchanged|].
  intros Hne. unfold sort.
  destruct (len (rows (iedges T')) =? 0) eqn:Hlen.
  { unfold len in Hlen. destruct (_data (rows (iedges T'))); [done|].
    apply Z.eqb_eq in Hlen. cbn [length] in Hlen. lia. }
  destruct (edge_order T'); [|eauto].
  destruct (foldM _ _ _); [|eauto].
  unfold Tables_setattr. rewrite HT. eauto.
Qed.

Lemma frozen_aggregate_is_immutable_witness :
  exists e,
    decapitate (K := tskit_like_constants) (3 # 2)
      (fst (Tables_freeze
              (pedigree (K := tskit_like_constants))))
    = (fst (Tables_freeze
              (pedigree (K := tskit_like_constants))), Err e).
Proof.
  exact (proj1 (proj2 (proj2 (proj2 (proj2
    (frozen_aggregate_is_immutable (K := tskit_like_constants)
       pedigree (fst (Tables_freeze
                        (pedigree (K := tskit_like_constants))))
       eq_refl))))) (3 # 2)).
Defined.

(** X7. [Tables.freeze] is not atomic: when the node table can be frozen
    and the edge table is frozen already, the node table is left frozen,
    the [AttributeError] of the edge table's [freeze] is raised, and the
    aggregate itself is not marked frozen, so its tables can still be
    reassigned. *)
Theorem Tables_freeze_stops_halfway (T : Tables) :
  _frozen (nodes T) = false ->
  _frozen (rows (iedges T)) = true ->
  exists T',
    Tables_freeze T = (T', Err frozen_error)
    /\ nodes T' = mkBaseTable (_data (nodes T)) TupleSeq true
    /\ iedges T' = iedges T
    /\ individuals T' = individuals T
    /\ Tables_frozen T' = Tables_frozen T.
Proof.
  intros Hn He. unfold Tables_freeze, inherited.
  rewrite (freeze_unfrozen _ Hn), (freeze_frozen _ He).
  eexists. split; [reflexivity|]. by destruct T as [n [b fl fe] i u fr].
Qed.

Lemma Tables_freeze_stops_halfway_witness :
  exists T',
    Tables_freeze
      (mkTables (unfrozen [NodeTableRow.mk 0 0 (-1)])
         (mkIEdgeTable (mkBaseTable [] TupleSeq true) 3 ∅)
         (unfrozen []) "unknown" false)
    = (T', Err frozen_error)
    /\ _frozen (nodes T') = true /\ Tables_frozen T' = false.
Proof.
  destruct (Tables_freeze_stops_halfway
              (mkTables (unfrozen [NodeTableRow.mk 0 0 (-1)])
                 (mkIEdgeTable (mkBaseTable [] TupleSeq true) 3 ∅)
                 (unfrozen []) "unknown" false) eq_refl eq_refl)
    as (T' & H & Hn & _ & _ & Hf).
  exists T'. split; [exact H|]. rewrite Hn, Hf. by split.
Defined.

(** ** [Tables.add_iedge_row] with validation *)

Lemma py_index_err {A} (l : list A) i e :
  py_index l i = Err e -> e = Raise IndexError (Msg "list index out of range").
Proof.
  unfold py_index. intros H.
  destruct (_ && _); [|by injection H].
  destruct (l !! _); [done | by injection H].
Qed.

(** X8. With [node_time_validation=True] and integer [child] and [parent]
    keywords, [add_iedge_row] raises [ValueError] when either index is out
    of the range of the node table (an index from [-len] to [-1] counts
    from the end and is in range) and when the child's time is not less
    than the parent's; a pair that passes the check gets no further than
    the [AttributeError] of [self.edges]. Without a [child] keyword it
    raises [KeyError]. The aggregate is never changed. *)
Theorem add_iedge_row_validation_outcome {K : Constants}
  (args : list pyval) (kwargs : pydict) (T : Tables) :
  (forall c p,
      dict_get "child" kwargs = Some (PyInt c) ->
      dict_get "parent" kwargs = Some (PyInt p) ->
      add_iedge_row args (Some true) kwargs T
      = (T, Err (validation_outcome (_data (nodes T)) c p)))
  /\ (dict_get "child" kwargs = None ->
      add_iedge_row args (Some true) kwargs T
      = (T, raise KeyError (Msg "child"))).
Proof.
  split.
  - intros c p Hc Hp. unfold add_iedge_row, node_time_check, kwargs_item,
      validation_outcome.
    rewrite Hc, Hp. cbn [mbind result_bind index_by].
    destruct (py_index (_data (nodes T)) c) as [cn|e] eqn:Hcn.
    + cbn [mbind result_bind].
      destruct (py_index (_data (nodes T)) p) as [pn|e] eqn:Hpn.
      * cbn [mbind result_bind]. by destruct (Qle_bool _ _).
      * by apply py_index_err in Hpn as ->.
    + by apply py_index_err in Hcn as ->.
  - intros Hc. unfold add_iedge_row, node_time_check, kwargs_item.
    by rewrite Hc.
Qed.

Lemma add_iedge_row_validation_outcome_witness :
  add_iedge_row (K := tskit_like_constants) [PyInt 0; PyInt 10; PyInt 0; PyInt 10]
    (Some true) [("child", PyInt 1); ("parent", PyInt 0)]
    (scenario (K := tskit_like_constants))
  = (scenario (K := tskit_like_constants),
     raise ValueError (Msg "Child time is not less than parent time")).
Proof.
  exact (proj1 (add_iedge_row_validation_outcome (K := tskit_like_constants)
                  [PyInt 0; PyInt 10; PyInt 0; PyInt 10]
                  [("child", PyInt 1); ("parent", PyInt 0)] scenario)
           1 0 eq_refl eq_refl).
Defined.

(** ** [Tables.change_times] *)

(** X9. On an aggregate that is not frozen [change_times] returns
    normally with a new, unfrozen node table that has one row per old row,
    in the same order, with [timedelta] added to the time and the flags and
    the individual as they were; the edges, the individuals and the time
    units are untouched. Two shifts in a row add both deltas, the first one
    first. *)
Theorem change_times_shifts_every_node (float_add : Q -> Q -> Q)
  (timedelta : Q) (T : Tables) :
  Tables_frozen T = false ->
  exists T',
    change_times float_add timedelta T = (T', Ok tt)
    /\ _data (nodes T')
       = map (shifted_node float_add timedelta) (_data (nodes T))
    /\ len (nodes T') = len (nodes T)
    /\ _frozen (nodes T') = false
    /\ iedges T' = iedges T
    /\ individuals T' = individuals T
    /\ time_units T' = time_units T
    /\ forall delta2, exists T'',
         change_times float_add delta2 T' = (T'', Ok tt)
         /\ _data (nodes T'')
            = map (fun nd => shifted_node float_add delta2
                               (shifted_node float_add timedelta nd))
                (_data (nodes T)).
Proof.
  intros Hfr. rewrite change_times_spec. unfold Tables_setattr. rewrite Hfr.
  eexists. split; [reflexivity|]. cbn.
  split; [done|]. split; [unfold len; cbn; by rewrite length_map|].
  repeat (split; [done|]).
  intros d2. rewrite change_times_spec. unfold Tables_setattr. cbn.
  rewrite Hfr. eexists. split; [reflexivity|]. cbn. by rewrite map_map.
Qed.

Lemma change_times_shifts_every_node_witness :
  exists T',
    change_times Qplus (1 # 2) (scenario (K := tskit_like_constants)) = (T', Ok tt)
    /\ _data (nodes T')
       = map (shifted_node Qplus (1 # 2))
           (_data (nodes (scenario (K := tskit_like_constants)))).
Proof.
  destruct (change_times_shifts_every_node Qplus (1 # 2)
              (scenario (K := tskit_like_constants)) eq_refl)
    as (T' & H & Hn & _).
  exists T'. by split.
Defined.



(** ** [Tables.samples] *)





(** ** [Tables.sort]: what the sorted table looks like *)

Lemma StronglySorted_Forall2 {A B} (R : A -> A -> Prop) (R' : B -> B -> Prop)
  (P : A -> B -> Prop) l k :
  (forall a b x y, P a x -> P b y -> R a b -> R' x y) ->
  Forall2 P l k -> StronglySorted R l -> StronglySorted R' k.
Proof.
  intros HR HP. induction HP as [|a x l k Hax HP IH]; intros Hs; [constructor|].
  apply StronglySorted_inv in Hs as [Hs Ha].
  constructor; [by apply IH|].
  apply Forall_forall. intros y [i Hi]%list_elem_of_lookup.
  destruct (Forall2_lookup_r _ _ _ _ _ HP Hi) as (b & Hb & Hby).
  eapply HR; [exact Hax | exact Hby |].
  rewrite Forall_forall in Ha. by eapply Ha, list_elem_of_lookup_2.
Qed.


Lemma edge_sort_key_nodes (T T' : Tables) r :
  nodes T' = nodes T -> edge_sort_key T' r = edge_sort_key T r.
Proof. intros H. unfold edge_sort_key. by rewrite H. Qed.

(** Every row of a sorted table has a key, and each row stands before all
    later ones by the key. *)
Lemma sort_result_sorted {K : Constants} (T T' : Tables) :
  sort T = (T', Ok tt) ->
  Forall (fun r => exists k, edge_sort_key T r = Ok k)
    (_data (rows (iedges T')))
  /\ StronglySorted (key_ordered T) (_data (rows (iedges T'))).
Proof.
  intros Hs.
  destruct (_data (rows (iedges T))) as [|r0 rest] eqn:Hdata.
  { pose proof (sort_permutes_edges _ _ Hs) as (_ & _ & _ & HP).
    rewrite Hdata in HP. apply Permutation_nil_r in HP. rewrite HP.
    split; constructor. }
  destruct (sort_orders_by_child_time _ _ Hs) as (order & _ & Hsel & Hsorted).
  { by rewrite Hdata. }
  split.
  - apply sort_ok_inv in Hs as [[Hnil _]|(order' & rs & Ho & _ & _ & ->)].
    { rewrite Hdata in Hnil. done. }
    unfold edge_order in Ho. inv_bind Ho. clear Ho. rename a into times.
    cbn [set_iedges iedges fresh_iedges rows _data] in *.
    apply Forall_forall. intros r [j Hj]%list_elem_of_lookup.
    destruct (Forall2_lookup_r _ _ _ _ _ Hsel Hj) as (i & _ & Hi).
    destruct (mapM_result_lookup _ _ _ i (IEdgeTableRow.child r) Ha)
      as (t & _ & Ht).
    { unfold column. by rewrite lookup_map, Hi. }
    exists (Qopp t, IEdgeTableRow.child r, IEdgeTableRow.child_left r).
    unfold edge_sort_key. by rewrite Ht.
  - eapply StronglySorted_Forall2; [|exact Hsel|exact Hsorted].
    intros i j ri rj Hi Hj (ri' & rj' & ki & kj & Hi' & Hj' & Hki & Hkj & Hle & _).
    assert (ri' = ri) as -> by congruence.
    assert (rj' = rj) as -> by congruence.
    by exists ki, kj.
Qed.

Lemma key_ordered_times (T : Tables) r1 r2 t1 t2 :
  key_ordered T r1 r2 ->
  py_index (column NodeTableRow.time (nodes T)) (IEdgeTableRow.child r1) = Ok t1 ->
  py_index (column NodeTableRow.time (nodes T)) (IEdgeTableRow.child r2) = Ok t2 ->
  key_le (Qopp t1, IEdgeTableRow.child r1, IEdgeTableRow.child_left r1)
    (Qopp t2, IEdgeTableRow.child r2, IEdgeTableRow.child_left r2).
Proof.
  intros (k1 & k2 & H1 & H2 & Hle) Ht1 Ht2.
  unfold edge_sort_key in H1, H2. rewrite Ht1 in H1. rewrite Ht2 in H2.
  cbn [mbind result_bind] in H1, H2. injection H1 as <-. injection H2 as <-.
  by apply key_leb_le.
Qed.

Lemma child_times_of_rows (a : list Q) (rs : list IEdgeTableRow.t) :
  Forall (fun r => exists t, py_index a (IEdgeTableRow.child r) = Ok t) rs ->
  exists ts,
    np_take a (map IEdgeTableRow.child rs) = Ok ts
    /\ Forall2 (fun r t => py_index a (IEdgeTableRow.child r) = Ok t) rs ts.
Proof.
  induction 1 as [|r rs [t Ht] _ (ts & Hts & Hall)].
  - exists []. split; [done | constructor].
  - exists (t :: ts). split; [|by constructor].
    unfold np_take in *. cbn [map mapM_result]. rewrite Ht.
    cbn [mbind result_bind]. by rewrite Hts.
Qed.

Lemma has_key_has_time (T : Tables) r :
  (exists k, edge_sort_key T r = Ok k) ->
  exists t, py_index (column NodeTableRow.time (nodes T))
              (IEdgeTableRow.child r) = Ok t.
Proof.
  intros [k Hk]. unfold edge_sort_key in Hk.
  destruct (py_index _ _) as [t|e]; [eauto | done].
Qed.

Lemma Qopp_le_inv (a b : Q) : (- a <= - b)%Q -> (b <= a)%Q.
Proof. unfold Qle. cbn. lia. Qed.

Lemma key_le_time (a b : sort_key) : key_le a b -> (a.1.1 <= b.1.1)%Q.
Proof.
  intros [H|[H _]]; [by apply Qlt_le_weak | by apply Qle_lteq; right].
Qed.

(** X12. After [sort()] the times of the child nodes, read along the edge
    table, never increase: the edges of the youngest children come last.
    (It is the child's time that is ordered, not the parent's.) *)
Theorem sort_child_times_never_increase {K : Constants} (T T' : Tables) :
  sort T = (T', Ok tt) ->
  exists ts,
    child_times T' = Ok ts
    /\ StronglySorted (fun a b => (b <= a)%Q) ts.
Proof.
  intros Hs.
  destruct (sort_result_sorted _ _ Hs) as [Hkeys Hsorted].
  pose proof (sort_permutes_edges _ _ Hs) as (HN & _).
  destruct (child_times_of_rows (column NodeTableRow.time (nodes T))
              (_data (rows (iedges T')))) as (ts & Hts & Hall).
  { eapply Forall_impl; [exact Hkeys|]. intros r. apply has_key_has_time. }
  exists ts. split.
  - unfold child_times, column at 2. by rewrite HN.
  - eapply StronglySorted_Forall2; [|exact Hall|exact Hsorted].
    intros r1 r2 t1 t2 H1 H2 Hord.
    apply Qopp_le_inv.
    exact (key_le_time _ _ (key_ordered_times _ _ _ _ _ Hord H1 H2)).
Qed.

Lemma sort_child_times_never_increase_witness :
  exists ts,
    child_times (crossing_sorted (K := tskit_like_constants)) = Ok ts
    /\ StronglySorted (fun a b => (b <= a)%Q) ts.
Proof.
  exact (sort_child_times_never_increase (K := tskit_like_constants)
           crossing crossing_sorted eq_refl).
Defined.



(** ** [Tables.sort]: idempotence *)

Lemma stable_sort_sorted_id {A} (leb : A -> A -> bool) (l : list A) :
  StronglySorted (fun a b => leb a b = true) l -> stable_sort leb l = l.
Proof.
  induction 1 as [|x l Hs IH Hx]; [done|].
  cbn [stable_sort foldr]. fold (stable_sort leb l). rewrite IH.
  destruct l as [|y l]; [done|]. cbn [insert_by].
  apply Forall_cons in Hx as [Hxy _]. by rewrite Hxy.
Qed.

Lemma keyed_from_sorted (s : nat) (ks : list sort_key) :
  StronglySorted (fun a b => key_leb a b = true) ks ->
  StronglySorted (fun a b : nat * sort_key => key_leb a.2 b.2 = true)
    (zip (seq s (length ks)) ks).
Proof.
  intros Hs. revert s. induction Hs as [|k ks Hs IH Hk]; intros s; cbn;
    [constructor|].
  constructor; [apply IH|].
  apply Forall_forall. intros [i k'] Hin. cbn.
  apply elem_of_zip_r in Hin. rewrite Forall_forall in Hk. by apply Hk.
Qed.

Lemma lexsort_of_sorted_keys k1 k2 k3 :
  StronglySorted (fun a b => key_leb a b = true) (zip (zip k3 k2) k1) ->
  lexsort k1 k2 k3 = seq 0 (length (zip (zip k3 k2) k1)).
Proof.
  intros Hs. unfold lexsort.
  rewrite stable_sort_sorted_id; [apply keyed_indices|].
  by apply keyed_from_sorted.
Qed.

Lemma selected_by_seq {A} (l rs : list A) :
  Forall2 (fun i r => l !! i = Some r) (seq 0 (length l)) rs -> rs = l.
Proof.
  intros H. apply list_eq. intros i.
  pose proof (Forall2_length _ _ _ H) as Hlen. rewrite length_seq in Hlen.
  destruct (decide (i < length l)%nat) as [Hi|Hi].
  - destruct (Forall2_lookup_l _ _ _ i i H) as (r & Hr & Hl).
    { by apply lookup_seq_lt. }
    by rewrite Hr, Hl.
  - rewrite !lookup_ge_None_2 by lia. done.
Qed.

Lemma rebuild_identity {K : Constants} (t : BaseTable IEdgeTableRow.t) :
  rebuild t (seq 0 (length (_data t))) = Ok (fresh_iedges (_data t)).
Proof.
  destruct (rebuild_total t (seq 0 (length (_data t)))) as [rs Hrs].
  { apply Forall_forall. intros i Hi%list_elem_of_In%in_seq. lia. }
  rewrite Hrs. destruct (rebuild_ok _ _ _ Hrs) as (rs' & [= <-] & Hsel).
  by rewrite (selected_by_seq _ _ Hsel).
Qed.

Lemma sort_keys_of_rows (T : Tables) (rs : list IEdgeTableRow.t) (ts : list Q) :
  Forall2 (fun r t => py_index (column NodeTableRow.time (nodes T))
                        (IEdgeTableRow.child r) = Ok t) rs ts ->
  Forall2 (fun r k => edge_sort_key T r = Ok k) rs
    (zip (zip (map Qopp ts) (map IEdgeTableRow.child rs))
       (map IEdgeTableRow.child_left rs)).
Proof.
  induction 1 as [|r t rs ts Ht _ IH]; cbn; constructor; [|done].
  unfold edge_sort_key. by rewrite Ht.
Qed.

(** X14. [sort()] is idempotent: sorting a table that [sort()] has just
    returned returns normally and leaves the aggregate, rows and their
    order included, exactly as it is. *)
Theorem sort_is_idempotent {K : Constants} (T T' : Tables) :
  sort T = (T', Ok tt) -> sort T' = (T', Ok tt).
Proof.
  intros Hs.
  destruct (sort_result_sorted _ _ Hs) as [Hkeys Hsorted].
  pose proof Hs as Hinv.
  apply sort_ok_inv in Hinv as [[_ ->]|(order & rs & _ & _ & Hfr & ->)];
    [done|].
  cbn [set_iedges iedges fresh_iedges rows _data] in Hkeys, Hsorted.
  destruct (child_times_of_rows (column NodeTableRow.time (nodes T)) rs)
    as (ts & Hts & Hall).
  { eapply Forall_impl; [exact Hkeys|]. intros r. apply has_key_has_time. }
  pose proof (sort_keys_of_rows _ _ _ Hall) as Hks.
  set (T1 := set_iedges (fresh_iedges rs) T).
  assert (HN1 : nodes T1 = nodes T) by reflexivity.
  assert (HR1 : rows (iedges T1) = mkBaseTable rs ListSeq false) by reflexivity.
  unfold sort, edge_order. rewrite HR1, HN1.
  destruct (len _ =? 0); [done|].
  change (column IEdgeTableRow.child (mkBaseTable rs ListSeq false))
    with (map IEdgeTableRow.child rs).
  change (column IEdgeTableRow.child_left (mkBaseTable rs ListSeq false))
    with (map IEdgeTableRow.child_left rs).
  rewrite Hts. cbn [mbind result_bind].
  assert (Hlex : lexsort (map IEdgeTableRow.child_left rs)
                   (map IEdgeTableRow.child rs) (map Qopp ts)
                 = seq 0 (length rs)).
  { rewrite lexsort_of_sorted_keys.
    - f_equal. symmetry. exact (Forall2_length _ _ _ Hks).
    - eapply StronglySorted_Forall2; [|exact Hks|exact Hsorted].
      intros r1 r2 k1 k2 H1 H2 (k1' & k2' & H1' & H2' & Hle). congruence. }
  rewrite Hlex.
  pose proof (rebuild_identity (mkBaseTable rs ListSeq false)) as Hre.
  unfold rebuild in Hre. cbn [_data] in Hre. rewrite Hre.
  unfold Tables_setattr, T1. cbn [Tables_frozen set_iedges]. rewrite Hfr.
  by destruct T.
Qed.

Lemma sort_is_idempotent_witness :
  sort (K := tskit_like_constants) (crossing_sorted (K := tskit_like_constants))
  = (crossing_sorted (K := tskit_like_constants), Ok tt).
Proof.
  exact (sort_is_idempotent (K := tskit_like_constants)
           crossing crossing_sorted eq_refl).
Defined.

(** ** [Tables.sort]: what it leaves alone, and when it raises *)

(** X15. A [sort()] that returns changes nothing but the edge table: the
    node table, the individual table and the time units are the same
    objects as before, and the edge rows are the old rows in another order,
    none added, dropped or altered. Unless there was no edge, the edge
    table is a new one and is not frozen, whatever the old one was. *)
Theorem sort_only_reorders_edges {K : Constants} (T T' : Tables) :
  sort T = (T', Ok tt) ->
  nodes T' = nodes T
  /\ individuals T' = individuals T
  /\ time_units T' = time_units T
  /\ Permutation (_data (rows (iedges T'))) (_data (rows (iedges T)))
  /\ len (rows (iedges T')) = len (rows (iedges T))
  /\ (_data (rows (iedges T)) <> [] ->
      _frozen (rows (iedges T')) = false
      /\ first_edge_for_child (iedges T') = ∅).
Proof.
  intros Hs. pose proof (sort_permutes_edges _ _ Hs) as (HN & HI & HU & HP).
  repeat (split; [done|]). split.
  - unfold len. by rewrite HP.
  - intros Hne.
    apply sort_ok_inv in Hs as [[Hnil _]|(order & rs & _ & _ & _ & ->)]; done.
Qed.

Lemma sort_only_reorders_edges_witness :
  Permutation
    (_data (rows (iedges (crossing_sorted (K := tskit_like_constants)))))
    (_data (rows (iedges (crossing (K := tskit_like_constants))))).
Proof.
  exact (proj1 (proj2 (proj2 (proj2
    (sort_only_reorders_edges (K := tskit_like_constants)
       crossing crossing_sorted eq_refl))))).
Defined.

Lemma py_index_out_of_range {A} (l : list A) (i : Z) :
  ~ (- Z.of_nat (length l) <= i < Z.of_nat (length l)) ->
  py_index l i = raise IndexError (Msg "list index out of range").
Proof.
  intros Hi. unfold py_index.
  destruct (i <? 0) eqn:Hneg; destruct (_ && _) eqn:Hb; try done;
    apply andb_prop in Hb; lia.
Qed.

Lemma py_index_total {A} (l : list A) (i : Z) :
  - Z.of_nat (length l) <= i < Z.of_nat (length l) ->
  exists x, py_index l i = Ok x.
Proof.
  intros Hi. destruct (decide (0 <= i)) as [Hpos|Hneg].
  - apply py_index_in_range. lia.
  - unfold py_index. rewrite (proj2 (Z.ltb_lt i 0)) by lia.
    rewrite (proj2 (Z.leb_le 0 _)), (proj2 (Z.ltb_lt _ _)) by lia.
    cbn [andb].
    destruct (lookup_lt_is_Some_2 l (Z.to_nat (Z.of_nat (length l) + i)))
      as [x Hx]; [lia|].
    rewrite Hx. eauto.
Qed.

Lemma np_take_out_of_range {A} (a : list A) (indices : list Z) :
  Exists (fun i => ~ (- Z.of_nat (length a) <= i < Z.of_nat (length a)))
    indices ->
  np_take a indices = raise IndexError (Msg "list index out of range").
Proof.
  unfold np_take. induction indices as [|i indices IH]; intros Hex.
  - inversion Hex.
  - cbn [mapM_result]. destruct (py_index a i) as [x|e] eqn:Hi.
    + cbn [mbind result_bind]. rewrite IH; [done|].
      apply Exists_cons in Hex as [Hbad|Hrest]; [|done].
      rewrite (py_index_out_of_range _ _ Hbad) in Hi. done.
    + by apply py_index_err in Hi as ->.
Qed.

Lemma np_take_all_in_range {A} (a : list A) (indices : list Z) :
  Forall (fun i => - Z.of_nat (length a) <= i < Z.of_nat (length a)) indices ->
  exists xs, np_take a indices = Ok xs.
Proof.
  intros H. apply mapM_result_total.
  eapply Forall_impl; [exact H|]. intros i Hi. by apply py_index_total.
Qed.

(** X16. When [sort()] returns and when it raises. Without edges it is a
    no-op, on a frozen aggregate too. With edges, a child index that names
    no node (below [-len] or from [len] on) makes it raise [IndexError];
    when every child index names a node, it returns normally on an
    aggregate that is not frozen and raises the [AttributeError] of
    [__setattr__] on a frozen one. A failed [sort()] changes nothing. *)
Theorem sort_returns_or_raises {K : Constants} (T : Tables) :
  (_data (rows (iedges T)) = [] -> sort T = (T, Ok tt))
  /\ (_data (rows (iedges T)) <> [] ->
      Exists (fun r => ~ names_node T (IEdgeTableRow.child r))
        (_data (rows (iedges T))) ->
      sort T = (T, raise IndexError (Msg "list index out of range")))
  /\ (_data (rows (iedges T)) <> [] ->
      Forall (fun r => names_node T (IEdgeTableRow.child r))
        (_data (rows (iedges T))) ->
      if Tables_frozen T then sort T = (T, Err frozen_error)
      else exists T', sort T = (T', Ok tt)).
Proof.
  assert (Hlen : _data (rows (iedges T)) <> [] ->
                 (len (rows (iedges T)) =? 0) = false).
  { intros Hne. unfold len. destruct (_data (rows (iedges T))); [done|].
    apply Z.eqb_neq. cbn [length]. lia. }
  assert (Hn : Z.of_nat (length (column NodeTableRow.time (nodes T)))
               = len (nodes T)).
  { unfold column, len. by rewrite length_map. }
  split; [|split].
  - intros Hnil. unfold sort, len. by rewrite Hnil.
  - intros Hne Hex. unfold sort. rewrite (Hlen Hne).
    unfold edge_order. rewrite np_take_out_of_range; [done|].
    apply Exists_exists in Hex as (r & Hr & Hbad).
    apply Exists_exists. exists (IEdgeTableRow.child r).
    split; [by apply list_elem_of_In, in_map, list_elem_of_In|].
    unfold names_node in Hbad. rewrite <- Hn in Hbad. exact Hbad.
  - intros Hne Hall. unfold sort. rewrite (Hlen Hne).
    destruct (np_take_all_in_range (column NodeTableRow.time (nodes T))
                (column IEdgeTableRow.child (rows (iedges T)))) as [times Ht].
    { apply Forall_map.
      eapply Forall_impl; [exact Hall|]. intros r Hr.
      unfold names_node in Hr. rewrite <- Hn in Hr. exact Hr. }
    assert (Ho : edge_order T
                 = Ok (lexsort (column IEdgeTableRow.child_left (rows (iedges T)))
                         (column IEdgeTableRow.child (rows (iedges T)))
                         (map Qopp times))).
    { unfold edge_order. by rewrite Ht. }
    rewrite Ho. pose proof (edge_order_perm _ _ Ho) as Hperm.
    destruct (rebuild_total (rows (iedges T))
                (lexsort (column IEdgeTableRow.child_left (rows (iedges T)))
                   (column IEdgeTableRow.child (rows (iedges T)))
                   (map Qopp times))) as [rs Hrs].
    { apply Forall_forall. intros i Hi. rewrite Hperm in Hi.
      apply list_elem_of_In, in_seq in Hi. lia. }
    unfold rebuild in Hrs. rewrite Hrs. unfold Tables_setattr.
    destruct (Tables_frozen T); eauto.
Qed.

Lemma sort_returns_or_raises_witness :
  sort (K := tskit_like_constants)
    (mkTables (unfrozen [NodeTableRow.mk 0 0 (-1)])
       (fresh_iedges (K := tskit_like_constants)
          [IEdgeTableRow.mk 0 10 0 10 1 0 (-1) (-1) (-1)])
       (unfrozen []) "unknown" false)
  = (mkTables (unfrozen [NodeTableRow.mk 0 0 (-1)])
       (fresh_iedges (K := tskit_like_constants)
          [IEdgeTableRow.mk 0 10 0 10 1 0 (-1) (-1) (-1)])
       (unfrozen []) "unknown" false,
     raise IndexError (Msg "list index out of range")).
Proof.
  refine (proj1 (proj2 (sort_returns_or_raises (K := tskit_like_constants)
                          _)) _ _).
  - discriminate.
  - constructor. unfold names_node, len. cbn. lia.
Defined.

(** ** [Tables.decapitate]: when it returns and when it raises *)

Lemma add_typed_row_list {R} (r : R) (t : BaseTable R) :
  _data_kind t = ListSeq ->
  exists t' id, add_typed_row r t = Ok (t', id) /\ _data_kind t' = ListSeq.
Proof.
  intros Hk. unfold add_typed_row, append_row. rewrite Hk. eauto.
Qed.

Lemma decap_node_skip {K : Constants} (time : Q) (T : Tables) s (u : nat) nd :
  younger time nd = false -> decap_node time T s (u, nd) = Ok s.
Proof. intros Hy. unfold decap_node. fold (younger time nd). by rewrite Hy. Qed.

(** One node: the only statement that can raise is the lookup of the
    node's individual. *)
Lemma decap_node_outcome {K : Constants} (time : Q) (T : Tables) s (u : nat) nd :
  loop_tables_ok s ->
  (younger time nd = false -> decap_node time T s (u, nd) = Ok s)
  /\ (younger time nd = true ->
      names_individual T (NodeTableRow.individual nd) ->
      exists s', decap_node time T s (u, nd) = Ok s' /\ loop_tables_ok s')
  /\ (younger time nd = true ->
      ~ names_individual T (NodeTableRow.individual nd) ->
      decap_node time T s (u, nd)
      = raise IndexError (Msg "list index out of range")).
Proof.
  intros [Hki Hkn]. unfold decap_node. fold (younger time nd).
  split; [by intros ->|]. split.
  - intros -> Hin. unfold getitem.
    destruct (py_index_total (_data (individuals T))
                (NodeTableRow.individual nd) Hin) as [indiv Hindiv].
    rewrite Hindiv. cbn [mbind result_bind].
    destruct (d_individual_map s !! NodeTableRow.individual nd) as [j|] eqn:Hj.
    + cbn [mbind result_bind]. unfold map_item. rewrite Hj.
      cbn [mbind result_bind].
      destruct (add_typed_row_list
                  (NodeTableRow.mk (NodeTableRow.time nd)
                     (NodeTableRow.flags nd) j) _ Hkn) as (t' & id & -> & Hk').
      cbn [mbind result_bind]. eexists. split; [reflexivity|]. by split.
    + destruct (add_typed_row_list
                  (IndividualTableRow.mk
                     (map (fun j => default NULL (d_individual_map s !! j))
                        (IndividualTableRow.parents indiv))) _ Hki)
        as (ti & idi & -> & Hki').
      cbn [mbind result_bind]. unfold map_item. rewrite lookup_insert_eq.
      cbn [mbind result_bind].
      destruct (add_typed_row_list
                  (NodeTableRow.mk (NodeTableRow.time nd)
                     (NodeTableRow.flags nd) idi) _ Hkn) as (t' & id & -> & Hk').
      cbn [mbind result_bind]. eexists. split; [reflexivity|]. by split.
  - intros -> Hout. unfold getitem.
    by rewrite (py_index_out_of_range _ _ Hout).
Qed.

Lemma node_loop_outcome {K : Constants} (time : Q) (T : Tables)
  (l : list (nat * NodeTableRow.t)) s :
  loop_tables_ok s ->
  (Forall (fun p => younger time p.2 = true ->
                    names_individual T (NodeTableRow.individual p.2)) l ->
   exists s', foldM (decap_node time T) s l = Ok s')
  /\ (Exists (fun p => younger time p.2 = true
                       /\ ~ names_individual T (NodeTableRow.individual p.2)) l ->
      foldM (decap_node time T) s l
      = raise IndexError (Msg "list index out of range")).
Proof.
  revert s. induction l as [|[u nd] l IH]; intros s Hs.
  { split; [by eexists | by inversion 1]. }
  destruct (decap_node_outcome time T s u nd Hs) as (Hskip & Hgood & Hbad).
  cbn [foldM]. split.
  - intros [Hnd Hl]%Forall_cons. cbn in Hnd.
    destruct (younger time nd) eqn:Hy.
    + destruct (Hgood eq_refl (Hnd eq_refl)) as (s' & -> & Hs').
      cbn [mbind result_bind]. by apply IH.
    + rewrite (Hskip eq_refl). cbn [mbind result_bind]. by apply IH.
  - intros Hex. destruct (younger time nd) eqn:Hy.
    + destruct (decide (names_individual T (NodeTableRow.individual nd)))
        as [Hin|Hout].
      * destruct (Hgood eq_refl Hin) as (s' & -> & Hs').
        cbn [mbind result_bind]. apply IH; [done|].
        apply Exists_cons in Hex as [[_ Hno]|Hex]; [done | done].
      * by rewrite (Hbad eq_refl Hout).
    + rewrite (Hskip eq_refl). cbn [mbind result_bind]. apply IH; [done|].
      apply Exists_cons in Hex as [[Hyes _]|Hex]; [cbn in Hyes; congruence|done].
Qed.

Lemma loop_tables_ok_init {K : Constants} : loop_tables_ok decap_init.
Proof. by split. Qed.

Lemma enumerate_snd {A} (P : A -> Prop) (l : list A) :
  Forall P l -> Forall (fun p => P p.2) (enumerate l).
Proof.
  intros H. apply Forall_forall. intros [i x] Hin%elem_of_zip_r.
  rewrite Forall_forall in H. by apply H.
Qed.

Lemma enumerate_exists {A} (P : A -> Prop) (l : list A) :
  Exists P l -> Exists (fun p => P p.2) (enumerate l).
Proof.
  intros (x & [i Hi]%list_elem_of_lookup & Hx)%Exists_exists.
  apply Exists_exists. exists (i, x). split; [|done].
  apply list_elem_of_lookup. exists i. unfold enumerate.
  apply lookup_zip_with_Some. exists i, x. split; [done|]. split; [|done].
  apply lookup_seq_lt. by eapply lookup_lt_Some.
Qed.

(** One edge: the only statement that can raise is the lookup of the
    child in the node map. *)
Lemma decap_edge_outcome {K : Constants} (time : Q) nm nds acc ie :
  (forall u, nm !! u = node_map_of time nds u) ->
  decap_edge nm (fresh_iedges acc) ie
  = if edge_kept time nds ie
    then if node_survives time nds (IEdgeTableRow.child ie)
         then Ok (fresh_iedges (acc ++ [remap_edge time nds ie]))
         else raise KeyError NoMessage
    else Ok (fresh_iedges acc).
Proof.
  intros Hnm. unfold decap_edge. rewrite !Hnm. unfold map_item.
  rewrite !Hnm. unfold node_map_of.
  assert (Hk : node_survives time nds (IEdgeTableRow.parent ie)
               = edge_kept time nds ie) by reflexivity.
  rewrite Hk.
  destruct (edge_kept time nds ie) eqn:Hkept; [|done].
  destruct (node_survives time nds (IEdgeTableRow.child ie)) eqn:Hc; [|done].
  cbn [mbind result_bind]. by rewrite iedges_add_row_fresh.
Qed.

Lemma edge_loop_key_error {K : Constants} (time : Q) nm nds edges acc :
  (forall u, nm !! u = node_map_of time nds u) ->
  Exists (fun ie => edge_kept time nds ie = true
                    /\ node_survives time nds (IEdgeTableRow.child ie) = false)
    edges ->
  foldM (decap_edge nm) (fresh_iedges acc) edges = raise KeyError NoMessage.
Proof.
  intros Hnm. revert acc. induction edges as [|ie edges IH]; intros acc Hex.
  { inversion Hex. }
  cbn [foldM]. rewrite (decap_edge_outcome time nm nds acc ie Hnm).
  destruct (edge_kept time nds ie) eqn:Hkept.
  - destruct (node_survives time nds (IEdgeTableRow.child ie)) eqn:Hc; [|done].
    cbn [mbind result_bind]. apply IH.
    apply Exists_cons in Hex as [[_ Hno]|Hex]; [congruence | done].
  - cbn [mbind result_bind]. apply IH.
    apply Exists_cons in Hex as [[Hyes _]|Hex]; [congruence | done].
Qed.

Lemma edge_loop_total {K : Constants} (time : Q) nm nds edges acc :
  (forall u, nm !! u = node_map_of time nds u) ->
  Forall (fun ie => edge_kept time nds ie = true ->
                    node_survives time nds (IEdgeTableRow.child ie) = true)
    edges ->
  exists rs, foldM (decap_edge nm) (fresh_iedges acc) edges
             = Ok (fresh_iedges rs).
Proof.
  intros Hnm. revert acc. induction edges as [|ie edges IH]; intros acc Hall.
  { by eexists. }
  apply Forall_cons in Hall as [Hie Hall].
  cbn [foldM]. rewrite (decap_edge_outcome time nm nds acc ie Hnm).
  destruct (edge_kept time nds ie) eqn:Hkept.
  - rewrite (Hie eq_refl). cbn [mbind result_bind]. by apply IH.
  - cbn [mbind result_bind]. by apply IH.
Qed.

(** X17. When [decapitate(t)] returns and when it raises, for an aggregate
    in which every node that survives names an individual of the
    individual table (an index from [-len] to [-1] counts from the end): an
    edge whose parent survives while its child does not makes it raise
    [KeyError]; without such an edge it returns normally on an aggregate
    that is not frozen, and raises the [AttributeError] of [__setattr__] on
    a frozen one. In both error cases the aggregate is left as it was. *)
Theorem decapitate_returns_or_raises {K : Constants} (time : Q) (T : Tables) :
  Forall (fun nd => younger time nd = true ->
                    names_individual T (NodeTableRow.individual nd))
    (_data (nodes T)) ->
  (Exists (child_outlives_cutoff time T) (_data (rows (iedges T))) ->
   decapitate time T = (T, raise KeyError NoMessage))
  /\ (Forall (fun ie => ~ child_outlives_cutoff time T ie)
        (_data (rows (iedges T))) ->
      if Tables_frozen T then decapitate time T = (T, Err frozen_error)
      else exists T', decapitate time T = (T', Ok tt)).
Proof.
  intros Hnodes.
  destruct (proj1 (node_loop_outcome time T (enumerate (_data (nodes T)))
                     decap_init loop_tables_ok_init)) as [s Hs].
  { by apply (enumerate_snd
                (fun nd => younger time nd = true ->
                           names_individual T (NodeTableRow.individual nd))). }
  pose proof (node_loop_ok _ _ _ _ Hs)
    as [(new_nodes & Hn & Hcopied) Hmap (new_inds & Hi & _)].
  split.
  - intros Hex. unfold decapitate, decap_build. rewrite Hs.
    cbn [mbind result_bind].
    change IEdgeTable_init with (fresh_iedges []).
    rewrite (edge_loop_key_error time _ _ _ _ Hmap); [done|].
    eapply Exists_impl; [exact Hex|]. by intros ie [H1 H2].
  - intros Hall.
    destruct (edge_loop_total time _ _ (_data (rows (iedges T))) [] Hmap)
      as [rs Hrs].
    { eapply Forall_impl; [exact Hall|]. intros ie Hno Hkept.
      destruct (node_survives time (_data (nodes T)) (IEdgeTableRow.child ie))
        eqn:Hc; [done|]. by destruct Hno. }
    pose proof Hrs as Hshape.
    apply (edge_loop_ok time _ _ _ _ _ Hmap) in Hshape as [Hrs_eq Hchildren].
    unfold decapitate, decap_build. rewrite Hs. cbn [mbind result_bind].
    change IEdgeTable_init with (fresh_iedges []). rewrite Hrs.
    cbn [mbind result_bind]. unfold Tables_setattr.
    destruct (Tables_frozen T) eqn:Hfr; [done|].
    cbn [set_nodes set_iedges set_individuals Tables_frozen]. rewrite ?Hfr.
    cbn [set_nodes set_iedges set_individuals Tables_frozen]. rewrite ?Hfr.
    apply sort_total; [done|].
    cbn [iedges nodes rows fresh_iedges _data]. rewrite Hn.
    injection Hrs_eq as ->. cbn [app].
    apply Forall_map. rewrite Forall_forall in *. intros ie Hie.
    unfold len, unfrozen, set_individuals, set_iedges, set_nodes.
    cbn [nodes _data remap_edge IEdgeTableRow.child].
    rewrite <- (Forall2_length _ _ _ Hcopied).
    apply new_node_id_bound. by apply Hchildren.
Qed.

Lemma decapitate_returns_or_raises_witness :
  decapitate (K := tskit_like_constants) (1 # 2)
    (mkTables (unfrozen [NodeTableRow.mk 1 0 0; NodeTableRow.mk 0 0 0])
       (fresh_iedges (K := tskit_like_constants)
          [IEdgeTableRow.mk 0 10 0 10 0 1 (-1) (-1) (-1)])
       (unfrozen [IndividualTableRow.mk []]) "unknown" false)
  = (mkTables (unfrozen [NodeTableRow.mk 1 0 0; NodeTableRow.mk 0 0 0])
       (fresh_iedges (K := tskit_like_constants)
          [IEdgeTableRow.mk 0 10 0 10 0 1 (-1) (-1) (-1)])
       (unfrozen [IndividualTableRow.mk []]) "unknown" false,
     raise KeyError NoMessage).
Proof.
  refine (proj1 (decapitate_returns_or_raises (K := tskit_like_constants)
                   (1 # 2) _ _) _).
  - cbn [nodes _data unfrozen].
    repeat (apply List.Forall_cons;
            [intros _; unfold names_individual, len; cbn; lia|]).
    apply List.Forall_nil.
  - apply Exists_cons_hd. by split.
Defined.

(** X18. A surviving node whose [individual] names no row of the
    individual table makes [decapitate(t)] raise [IndexError] and leave the
    aggregate as it was. On an empty individual table this is every
    surviving node, whatever its [individual], [NULL] included: there
    [decapitate] raises as soon as one node is younger than the cutoff. *)
Theorem decapitate_raises_on_missing_individual {K : Constants}
  (time : Q) (T : Tables) :
  (Exists (fun nd => younger time nd = true
                     /\ ~ names_individual T (NodeTableRow.individual nd))
     (_data (nodes T)) ->
   decapitate time T = (T, raise IndexError (Msg "list index out of range")))
  /\ (_data (individuals T) = [] ->
      Exists (fun nd => younger time nd = true) (_data (nodes T)) ->
      decapitate time T
      = (T, raise IndexError (Msg "list index out of range"))).
Proof.
  assert (Hraise :
    Exists (fun nd => younger time nd = true
                      /\ ~ names_individual T (NodeTableRow.individual nd))
      (_data (nodes T)) ->
    decapitate time T = (T, raise IndexError (Msg "list index out of range"))).
  { intros Hex. unfold decapitate, decap_build.
    rewrite (proj2 (node_loop_outcome time T (enumerate (_data (nodes T)))
                      decap_init loop_tables_ok_init)); [done|].
    by apply (enumerate_exists
                (fun nd => younger time nd = true
                           /\ ~ names_individual T (NodeTableRow.individual nd))). }
  split; [exact Hraise|].
  intros Hnil Hex. apply Hraise.
  eapply Exists_impl; [exact Hex|]. intros nd Hy. split; [done|].
  unfold names_individual, len. rewrite Hnil. cbn [length]. lia.
Qed.

Lemma decapitate_raises_on_missing_individual_witness :
  decapitate (K := tskit_like_constants) (3 # 2)
    (mkTables (unfrozen [NodeTableRow.mk 0 0 1])
       (fresh_iedges (K := tskit_like_constants) [])
       (unfrozen [IndividualTableRow.mk []]) "unknown" false)
  = (mkTables (unfrozen [NodeTableRow.mk 0 0 1])
       (fresh_iedges (K := tskit_like_constants) [])
       (unfrozen [IndividualTableRow.mk []]) "unknown" false,
     raise IndexError (Msg "list index out of range")).
Proof.
  apply (proj1 (decapitate_raises_on_missing_individual
                  (K := tskit_like_constants) (3 # 2) _)).
  apply Exists_cons_hd. split; [reflexivity|].
  unfold names_individual, len. cbn. lia.
Defined.

(** X19. When no node is younger than the cutoff, [decapitate(t)] on an
    aggregate that is not frozen returns normally and leaves three empty,
    unfrozen tables, whatever the edges and the individuals were; the time
    units stay. *)
Theorem decapitate_everything {K : Constants} (time : Q) (T : Tables) :
  Tables_frozen T = false ->
  Forall (fun nd => younger time nd = false) (_data (nodes T)) ->
  decapitate time T
  = (mkTables (unfrozen []) (fresh_iedges []) (unfrozen []) (time_units T)
       false, Ok tt).
Proof.
  intros Hfr Hall.
  assert (Hnodes : forall l s,
            Forall (fun p : nat * NodeTableRow.t => younger time p.2 = false) l ->
            foldM (decap_node time T) s l = Ok s).
  { induction l as [|[u nd] l IH]; intros s Hl; [done|].
    apply Forall_cons in Hl as [Hnd Hl]. cbn in Hnd. cbn [foldM].
    rewrite (decap_node_skip time T s u nd Hnd).
    cbn [mbind result_bind]. by apply IH. }
  assert (Hedges : forall l acc,
            foldM (decap_edge ∅) acc l = Ok acc).
  { induction l as [|ie l IH]; intros acc; [done|]. cbn [foldM].
    assert (Hskip : decap_edge ∅ acc ie = Ok acc)
      by (unfold decap_edge; by rewrite lookup_empty).
    rewrite Hskip. cbn [mbind result_bind]. apply IH. }
  unfold decapitate, decap_build.
  rewrite Hnodes by (by apply (enumerate_snd (fun nd => younger time nd = false))).
  cbn [mbind result_bind decap_init d_node_map]. rewrite Hedges.
  cbn [mbind result_bind]. unfold Tables_setattr. rewrite Hfr.
  cbn [set_nodes set_iedges set_individuals Tables_frozen d_nodes d_individuals].
  rewrite ?Hfr.
  cbn [set_nodes set_iedges set_individuals Tables_frozen d_nodes d_individuals].
  rewrite ?Hfr.
  unfold sort, set_individuals, set_iedges, set_nodes.
  cbn [iedges rows IEdgeTable_init len _data BaseTable_init length Z.of_nat
       Z.eqb nodes individuals time_units Tables_frozen decap_init d_nodes
       d_individuals].
  by rewrite Hfr.
Qed.

Lemma decapitate_everything_witness :
  decapitate (K := tskit_like_constants) 0 (scenario (K := tskit_like_constants))
  = (mkTables (unfrozen []) (fresh_iedges (K := tskit_like_constants) [])
       (unfrozen []) "unknown" false, Ok tt).
Proof.
  apply (decapitate_everything (K := tskit_like_constants) 0 scenario eq_refl).
  repeat constructor.
Defined.

(** ** [Tables.from_tree_sequence]: what a returned aggregate looks like *)

Lemma sort_raises_index_error {K : Constants} (T : Tables) :
  _data (rows (iedges T)) <> [] ->
  Exists (fun r => ~ names_node T (IEdgeTableRow.child r))
    (_data (rows (iedges T))) ->
  sort T = (T, raise IndexError (Msg "list index out of range")).
Proof.
  intros Hne Hex. unfold sort.
  assert (Hlen : (len (rows (iedges T)) =? 0) = false).
  { unfold len. destruct (_data (rows (iedges T))); [done|].
    apply Z.eqb_neq. cbn [length]. lia. }
  rewrite Hlen. unfold edge_order. rewrite np_take_out_of_range; [done|].
  apply Exists_exists in Hex as (r & Hr & Hbad).
  apply Exists_exists. exists (IEdgeTableRow.child r).
  split; [by apply list_elem_of_In, in_map, list_elem_of_In|].
  unfold names_node, len in Hbad. unfold column. by rewrite length_map.
Qed.

Lemma import_rows_spec {K : Constants} (float_add : Q -> Q -> Q)
  (ts : tskit.TableCollection) (chromosome : option Z) (timedelta : Q) :
  Forall (fun row => integral_coordinates row = true) (tskit.edges ts) ->
  import_rows float_add ts chromosome timedelta
    (Tables_init (Some (tskit.time_units ts)))
  = Ok (mkTables
          (unfrozen (map (imported_node float_add timedelta) (tskit.nodes ts)))
          (fresh_iedges (map (imported_edge chromosome) (tskit.edges ts)))
          (unfrozen (map imported_individual (tskit.individuals ts)))
          (tskit.time_units ts) false).
Proof.
  intros Hint. unfold import_rows, Tables_init.
  cbn [nodes iedges individuals time_units Tables_frozen].
  change (@BaseTable_init NodeTableRow.t) with (@unfrozen NodeTableRow.t []).
  change (@BaseTable_init IndividualTableRow.t)
    with (@unfrozen IndividualTableRow.t []).
  change IEdgeTable_init with (fresh_iedges []).
  rewrite import_nodes_ok. cbn [mbind result_bind].
  rewrite import_edges_ok by done. cbn [mbind result_bind].
  rewrite import_individuals_ok. by cbn [mbind result_bind app].
Qed.

Lemma from_tree_sequence_ok_supported {K : Constants} (float_add : Q -> Q -> Q)
  (ts : tskit.TableCollection) (chromosome : option Z) (timedelta : Q) T :
  from_tree_sequence float_add ts chromosome timedelta = Ok T -> supported ts.
Proof.
  unfold from_tree_sequence, supported.
  destruct (tskit.migrations_num_rows ts) as [|a]; [|done].
  destruct (tskit.mutations_num_rows ts) as [|b]; [|done].
  destruct (tskit.sites_num_rows ts) as [|c]; [|done].
  destruct (tskit.populations_num_rows ts) as [|[|d]]; [| |done];
    intros _; repeat split; lia.
Qed.

Lemma imported_edge_shape {K : Constants} (chromosome : option Z) row :
  tskit_shaped (default NULL chromosome) (imported_edge chromosome row).
Proof. by destruct chromosome. Qed.

(** X20. Whenever [from_tree_sequence(ts, chromosome, timedelta)] returns
    an aggregate, the collection had none of the refused features and every
    edge coordinate was a whole number. The aggregate is not frozen, nor is
    any of its tables; it carries the time units of the source; its edge
    table has all validity flags set; and every edge row has the same
    interval on the child and on the parent, [NULL] as edge id and
    [chromosome] ([NULL] when it is [None]) as both chromosomes. *)
Theorem from_tree_sequence_result_shape {K : Constants}
  (float_add : Q -> Q -> Q) (ts : tskit.TableCollection)
  (chromosome : option Z) (timedelta : Q) (T : Tables) :
  from_tree_sequence float_add ts chromosome timedelta = Ok T ->
  supported ts
  /\ Forall (fun row => integral_coordinates row = true) (tskit.edges ts)
  /\ Tables_frozen T = false
  /\ time_units T = tskit.time_units ts
  /\ nodes T = unfrozen (map (imported_node float_add timedelta)
                           (tskit.nodes ts))
  /\ individuals T = unfrozen (map imported_individual (tskit.individuals ts))
  /\ iedges T = fresh_iedges (_data (rows (iedges T)))
  /\ Forall (tskit_shaped (default NULL chromosome)) (_data (rows (iedges T))).
Proof.
  intros HT. pose proof (from_tree_sequence_ok_supported _ _ _ _ _ HT) as Hsup.
  rewrite (from_tree_sequence_supported _ _ _ _ Hsup) in HT.
  assert (Hint : Forall (fun row => integral_coordinates row = true)
                   (tskit.edges ts)).
  { destruct (decide (Forall (fun row => integral_coordinates row = true)
                        (tskit.edges ts))) as [H|H]; [done|exfalso].
    apply not_Forall_Exists in H; [|intros row; apply _].
    assert (Hex : Exists (fun row => integral_coordinates row = false)
                    (tskit.edges ts)).
    { eapply Exists_impl; [exact H|]. intros row Hrow. cbn in Hrow.
      by destruct (integral_coordinates row). }
    unfold import_rows, Tables_init in HT.
    cbn [nodes iedges individuals time_units Tables_frozen] in HT.
    change (@BaseTable_init NodeTableRow.t)
      with (@unfrozen NodeTableRow.t []) in HT.
    change IEdgeTable_init with (fresh_iedges []) in HT.
    rewrite import_nodes_ok in HT. cbn [mbind result_bind] in HT.
    destruct (import_edges_raise chromosome [] _ Hex) as [m Hm].
    by rewrite Hm in HT. }
  rewrite (import_rows_spec _ _ _ _ Hint) in HT. cbn [mbind result_bind] in HT.
  set (imported := mkTables _ _ _ _ _) in HT.
  destruct (sort imported) as [T' [[]|e]] eqn:Hsort; [|done].
  injection HT as ->.
  assert (Hshape : Forall (tskit_shaped (default NULL chromosome))
                     (_data (rows (iedges imported)))).
  { apply Forall_map, Forall_forall. intros row _. apply imported_edge_shape. }
  pose proof (sort_permutes_edges _ _ Hsort) as (HN & HI & HU & HP).
  split; [done|]. split; [done|].
  split.
  { apply sort_ok_inv in Hsort as [[_ ->]|(? & ? & _ & _ & _ & ->)]; done. }
  split; [by rewrite HU|]. split; [by rewrite HN|]. split; [by rewrite HI|].
  split.
  { apply sort_ok_inv in Hsort as [[_ ->]|(? & ? & _ & _ & _ & ->)]; done. }
  by rewrite HP.
Qed.

Lemma from_tree_sequence_result_shape_witness :
  exists T,
    from_tree_sequence (K := tskit_like_constants) Qplus two_node_ts (Some 3) 0
    = Ok T
    /\ Forall (tskit_shaped (K := tskit_like_constants) 3)
         (_data (rows (iedges T))).
Proof.
  eexists. split; [reflexivity|].
  refine (proj2 (proj2 (proj2 (proj2 (proj2 (proj2 (proj2
            (from_tree_sequence_result_shape (K := tskit_like_constants)
               Qplus two_node_ts (Some 3) 0 _ eq_refl)))))))).
Defined.

(** X21. A supported collection whose edge coordinates are all whole
    numbers but one of whose edges has a child that is none of the node
    rows (below [-len] or from [len] on) makes [from_tree_sequence] raise
    the [IndexError] of the final [sort()]. A negative child from [-len]
    on does not: it counts from the end. *)
Theorem from_tree_sequence_raises_on_missing_child {K : Constants}
  (float_add : Q -> Q -> Q) (ts : tskit.TableCollection)
  (chromosome : option Z) (timedelta : Q) :
  supported ts ->
  Forall (fun row => integral_coordinates row = true) (tskit.edges ts) ->
  (Exists (fun row => ~ child_among (length (tskit.nodes ts)) row)
     (tskit.edges ts) ->
   from_tree_sequence float_add ts chromosome timedelta
   = raise IndexError (Msg "list index out of range"))
  /\ (Forall (child_among (length (tskit.nodes ts))) (tskit.edges ts) ->
      exists T, from_tree_sequence float_add ts chromosome timedelta = Ok T).
Proof.
  intros Hsup Hint.
  rewrite (from_tree_sequence_supported _ _ _ _ Hsup).
  rewrite (import_rows_spec _ _ _ _ Hint). cbn [mbind result_bind].
  set (imported := mkTables _ _ _ _ _).
  assert (Hlen : len (nodes imported) = Z.of_nat (length (tskit.nodes ts))).
  { unfold len, imported, unfrozen. cbn [nodes _data]. by rewrite length_map. }
  split.
  - intros Hex. rewrite (sort_raises_index_error imported); [done| |].
    + unfold imported, fresh_iedges. cbn [iedges rows _data].
      destruct (tskit.edges ts); [inversion Hex | done].
    + unfold imported at 2, fresh_iedges. cbn [iedges rows _data].
      apply Exists_exists in Hex as (row & Hrow & Hbad).
      apply Exists_exists. exists (imported_edge chromosome row).
      split; [by apply list_elem_of_In, in_map, list_elem_of_In|].
      unfold names_node. rewrite Hlen. exact Hbad.
  - intros Hall.
    destruct (tskit.edges ts) as [|row0 rest] eqn:Hedges.
    { exists imported. unfold sort, len, imported, fresh_iedges.
      cbn [iedges rows _data]. by rewrite ?Hedges. }
    assert (Hne : _data (rows (iedges imported)) <> []).
    { unfold imported, fresh_iedges. cbn [iedges rows _data].
      by rewrite ?Hedges. }
    assert (Hlen0 : (len (rows (iedges imported)) =? 0) = false).
    { unfold len. destruct (_data (rows (iedges imported))); [done|].
      apply Z.eqb_neq. cbn [length]. lia. }
    destruct (np_take_all_in_range (column NodeTableRow.time (nodes imported))
                (column IEdgeTableRow.child (rows (iedges imported))))
      as [times Ht].
    { unfold column at 2. unfold column. rewrite length_map. fold (len (nodes imported)).
      rewrite Hlen. unfold imported at 1, fresh_iedges. cbn [iedges rows _data].
      rewrite ?Hedges. apply Forall_map, Forall_map.
      eapply Forall_impl; [exact Hall|]. by intros row Hrow. }
    assert (Ho : edge_order imported
                 = Ok (lexsort
                         (column IEdgeTableRow.child_left (rows (iedges imported)))
                         (column IEdgeTableRow.child (rows (iedges imported)))
                         (map Qopp times))).
    { unfold edge_order. by rewrite Ht. }
    pose proof (edge_order_perm _ _ Ho) as Hperm.
    destruct (rebuild_total (rows (iedges imported))
                (lexsort
                   (column IEdgeTableRow.child_left (rows (iedges imported)))
                   (column IEdgeTableRow.child (rows (iedges imported)))
                   (map Qopp times))) as [rs Hrs].
    { apply Forall_forall. intros i Hi. rewrite Hperm in Hi.
      apply list_elem_of_In, in_seq in Hi. lia. }
    unfold sort. rewrite Hlen0, Ho. unfold rebuild in Hrs. rewrite Hrs.
    unfold Tables_setattr. cbn [Tables_frozen imported]. eauto.
Qed.

Lemma from_tree_sequence_raises_on_missing_child_witness :
  from_tree_sequence (K := tskit_like_constants) Qplus
    (tskit.mkTables [tskit.mkNode 1 0 (-1)] [tskit.mkEdge 0 10 0 1]
       [] 0 0 0 1 "generations") None 0
  = raise IndexError (Msg "list index out of range").
Proof.
  refine (proj1 (from_tree_sequence_raises_on_missing_child
                   (K := tskit_like_constants) Qplus _ None 0 _ _) _).
  - repeat split; simpl; lia.
  - repeat constructor.
  - apply Exists_cons_hd. unfold child_among. simpl. lia.
Defined.

(** ** Dictionaries *)

(** Distinctness of the strings of a literal list. *)
Ltac distinct_strings :=
  apply NoDup_ListNoDup; cbn [map fst fname];
  repeat (apply List.NoDup_cons; [cbn; intuition discriminate|]);
  apply List.NoDup_nil.

Lemma dict_get_set {V} (k k' : string) (v : V) d :
  dict_get k (dict_set k' v d)
  = if String.eqb k' k then Some v else dict_get k d.
Proof.
  induction d as [|[k0 v0] d IH]; cbn [dict_set dict_get]; [done|].
  destruct (String.eqb_spec k0 k') as [->|Hne]; cbn [dict_get].
  - by destruct (String.eqb k' k).
  - rewrite IH. destruct (String.eqb_spec k0 k) as [Heq|]; [|done].
    rewrite (proj2 (String.eqb_neq k' k)); [done | congruence].
Qed.

Lemma dict_get_not_key {V} (k : string) (d : list (string * V)) :
  k ∉ map fst d -> dict_get k d = None.
Proof.
  induction d as [|[k0 v0] d IH]; cbn [dict_get map fst]; [done|].
  rewrite not_elem_of_cons. intros [Hne Hnot].
  rewrite (proj2 (String.eqb_neq k0 k)) by congruence. by apply IH.
Qed.


Lemma dict_get_NoDup {V} (d : list (string * V)) k v :
  NoDup (map fst d) -> (k, v) ∈ d -> dict_get k d = Some v.
Proof.
  induction d as [|[k0 v0] d IH]; cbn [map fst dict_get].
  - by intros _ ?%elem_of_nil.
  - intros [Hk0 Hnd]%NoDup_cons [[= -> ->]|Hin]%elem_of_cons.
    + by rewrite String.eqb_refl.
    + rewrite (proj2 (String.eqb_neq k0 k)); [by apply IH|].
      intros ->. apply Hk0. apply list_elem_of_In, in_map_iff.
      exists (k, v). split; [done | by apply list_elem_of_In].
Qed.

Lemma dict_get_update {V} (k : string) (d o : list (string * V)) :
  NoDup (map fst o) ->
  dict_get k (dict_update d o)
  = match dict_get k o with Some v => Some v | None => dict_get k d end.
Proof.
  unfold dict_update. revert d.
  induction o as [|[k1 v1] o IH]; intros d Hnd; [done|].
  cbn [map fst] in Hnd. apply NoDup_cons in Hnd as [Hk1 Hnd].
  cbn [fold_left dict_get fst snd]. rewrite IH by done. rewrite dict_get_set.
  destruct (String.eqb_spec k1 k) as [<-|]; [|done].
  by rewrite (dict_get_not_key _ _ Hk1).
Qed.

Lemma str_in_true k l : str_in k l = true <-> k ∈ l.
Proof.
  unfold str_in. rewrite existsb_exists. split.
  - intros (x & Hx & ->%String.eqb_eq). by apply list_elem_of_In.
  - intros H. exists k. split; [by apply list_elem_of_In | apply String.eqb_refl].
Qed.

(** ** [IEdgeTable._from_tskit] *)

(** X22. [_from_tskit(kwargs)] on a dict (its keys are distinct): every
    key of [kwargs] keeps its value, also [child_left], [parent_left],
    [child_right] and [parent_right] when [left] or [right] are there too;
    where one of these four is absent it gets the value of [left] or
    [right], if present; no other key appears. *)
Theorem from_tskit_lookup (kwargs : pydict) (k : string) :
  NoDup (map fst kwargs) ->
  dict_get k (_from_tskit kwargs)
  = match dict_get k kwargs with
    | Some v => Some v
    | None => match tskit_alias k with
              | Some side => dict_get side kwargs
              | None => None
              end
    end.
Proof.
  intros Hnd. unfold _from_tskit. rewrite dict_get_update by done.
  destruct (dict_get k kwargs) as [v|] eqn:Hk; [done|].
  cbn [fold_left String.append].
  destruct (decide (k = "child_left")) as [->|H1].
  { change (tskit_alias "child_left") with (Some "left"). cbv beta iota.
    destruct (dict_get "left" kwargs), (dict_get "right" kwargs);
      reflexivity. }
  destruct (decide (k = "parent_left")) as [->|H2].
  { change (tskit_alias "parent_left") with (Some "left"). cbv beta iota.
    destruct (dict_get "left" kwargs), (dict_get "right" kwargs);
      reflexivity. }
  destruct (decide (k = "child_right")) as [->|H3].
  { change (tskit_alias "child_right") with (Some "right"). cbv beta iota.
    destruct (dict_get "left" kwargs), (dict_get "right" kwargs);
      reflexivity. }
  destruct (decide (k = "parent_right")) as [->|H4].
  { change (tskit_alias "parent_right") with (Some "right"). cbv beta iota.
    destruct (dict_get "left" kwargs), (dict_get "right" kwargs);
      reflexivity. }
  assert (Ha : tskit_alias k = None).
  { unfold tskit_alias, str_in. cbn [existsb].
    by rewrite !(proj2 (String.eqb_neq k _)) by done. }
  rewrite Ha.
  change ("parent_" +:+ "left") with "parent_left".
  change ("child_" +:+ "left") with "child_left".
  change ("parent_" +:+ "right") with "parent_right".
  change ("child_" +:+ "right") with "child_right".
  destruct (dict_get "left" kwargs), (dict_get "right" kwargs);
    rewrite ?dict_get_set;
    repeat (rewrite (proj2 (String.eqb_neq _ k)) by congruence); done.
Qed.

Lemma from_tskit_lookup_witness :
  dict_get "parent_left"
    (_from_tskit [("left", PyInt 0); ("right", PyInt 10);
                  ("child_left", PyInt 5)])
  = Some (PyInt 0)
  /\ dict_get "child_left"
       (_from_tskit [("left", PyInt 0); ("right", PyInt 10);
                     ("child_left", PyInt 5)])
     = Some (PyInt 5).
Proof.
  split.
  - apply (from_tskit_lookup [("left", PyInt 0); ("right", PyInt 10);
                              ("child_left", PyInt 5)] "parent_left").
    distinct_strings.
  - apply (from_tskit_lookup [("left", PyInt 0); ("right", PyInt 10);
                              ("child_left", PyInt 5)] "child_left").
    distinct_strings.
Defined.

(** ** [BaseTable.append] on a row of a table *)

Lemma field_value_no_positional kwargs f :
  field_value [] kwargs f
  = match dict_get (fname f) kwargs with
    | Some v => Ok (fname f, v)
    | None =>
        match fdefault f with
        | Some d => Ok (fname f, d)
        | None => raise TypeError (MissingArgument (fname f))
        end
    end.
Proof. reflexivity. Qed.

(** What the constructor returns is an instance of the class. *)
Lemma construct_instance c args kwargs r :
  construct c args kwargs = Ok r -> instance_of c r.
Proof. apply construct_keys. Qed.

Lemma field_values_self (r0 : dynrow) fs r :
  map fname fs = map fst r ->
  (forall k v, (k, v) ∈ r -> dict_get k r0 = Some v) ->
  mapM_result (field_value [] r0) fs = Ok r.
Proof.
  revert r. induction fs as [|f fs IH]; intros [|[k v] r] Hkeys Hget; try done.
  cbn [map fst] in Hkeys. injection Hkeys as Hk Hkeys.
  cbn [mapM_result]. rewrite field_value_no_positional, Hk.
  rewrite (Hget k v) by (apply elem_of_cons; by left).
  cbn [mbind result_bind]. rewrite (IH r Hkeys); [done|].
  intros k' v' Hin. apply Hget. apply elem_of_cons. by right.
Qed.

Lemma filter_all {A} (f : A -> bool) (l : list A) :
  Forall (fun x => f x = true) l -> List.filter f l = l.
Proof.
  induction 1 as [|x l Hx _ IH]; [done|]. cbn [List.filter].
  by rewrite Hx, IH.
Qed.

(** An instance read back through [to_dict] and the constructor is the
    instance. *)
Lemma row_of_instance c r :
  class_ok c -> instance_of c r -> row_of c (RowObj r) = Ok r.
Proof.
  intros [Hnd Hann] Hr. unfold instance_of in Hr.
  unfold row_of, to_dict, asdict.
  assert (Hkeep : known_fields c r = r).
  { unfold known_fields. apply filter_all.
    apply (Forall_map fst (fun k => str_in k (annotations c) = true)).
    rewrite Hr. by apply Forall_map. }
  rewrite Hkeep. unfold construct.
  assert (Hpos : bind_positional (fields c) [] = Ok []) by (by destruct (fields c)).
  rewrite Hpos. cbn [mbind result_bind].
  destruct (mapM_result_total (check_keyword (fields c) []) r) as [us Hus].
  { apply Forall_forall. intros [k v] Hin. exists tt.
    unfold check_keyword. cbn [fst dict_mem dict_get].
    assert (Hk : str_in k (map fname (fields c)) = true).
    { apply str_in_true. rewrite <- Hr. apply list_elem_of_In, in_map_iff.
      exists (k, v). split; [done | by apply list_elem_of_In]. }
    by rewrite Hk. }
  rewrite Hus. cbn [mbind result_bind].
  apply field_values_self; [done|].
  intros k v Hin. apply dict_get_NoDup; [|done]. by rewrite Hr.
Qed.

Lemma row_classes_ok {K : Constants} :
  class_ok IEdgeTableRow_class /\ class_ok NodeTableRow_class
  /\ class_ok IndividualTableRow_class.
Proof.
  repeat split; try (by repeat constructor); unfold fields;
    distinct_strings.
Qed.

(** X23. A row object made by the constructor of the table's class (its
    field names distinct and annotated) can be appended back as it is:
    [append(row)] on a table whose rows are still a list ([freeze] makes
    them a tuple) builds the very same row, appends it and returns its id,
    and so does [append(row.asdict())]; [t[id]] is then that row. This is
    how [sort()] carries rows over. *)
Theorem append_instance_round_trip (c : rowclass) (args : list pyval)
  (kwargs : pydict) (r : dynrow) (t : BaseTable dynrow) :
  class_ok c ->
  construct c args kwargs = Ok r ->
  _data_kind t = ListSeq ->
  append c (RowObj r) t = (with_rows (_data t ++ [r]) t, Ok (len t))
  /\ append c (DictObj (asdict r)) t = append c (RowObj r) t
  /\ getitem (with_rows (_data t ++ [r]) t) (len t) = Ok r
  /\ instance_of c r.
Proof.
  intros Hc Hr Hk. pose proof (construct_instance _ _ _ _ Hr) as Hinst.
  split; [|split; [|split]]; [| done | | done].
  - apply append_ok; [done|]. by apply row_of_instance.
  - unfold getitem, with_rows, len. cbn [_data]. apply py_index_snoc_last.
Qed.

Lemma append_instance_round_trip_witness :
  append (NodeTableRow_class (K := tskit_like_constants))
    (RowObj [("time", PyFloat (Finite 1)); ("flags", PyInt 0);
             ("individual", PyInt (-1))])
    (mkBaseTable [] ListSeq false)
  = (mkBaseTable [[("time", PyFloat (Finite 1)); ("flags", PyInt 0);
                   ("individual", PyInt (-1))]] ListSeq false, Ok 0).
Proof.
  refine (proj1 (append_instance_round_trip
                   (NodeTableRow_class (K := tskit_like_constants))
                   [PyFloat (Finite 1)] [] _ (mkBaseTable [] ListSeq false)
                   _ eq_refl eq_refl)).
  exact (proj1 (proj2 (row_classes_ok (K := tskit_like_constants)))).
Defined.

(** ** [IEdgeTable.append] on an edge row of tskit *)

(** The keyword arguments [append] passes on for such an object. *)
Lemma edge_obj_kwargs {K : Constants} (chromosome : option Z)
  (metadata : pyval) (row : tskit.EdgeRow) :
  known_fields IEdgeTableRow_class
    (_from_tskit (edge_obj chromosome metadata row))
  = [ ("child_left", PyFloat (Finite (tskit.left row)));
      ("parent_left", PyFloat (Finite (tskit.left row)));
      ("child_right", PyFloat (Finite (tskit.right row)));
      ("parent_right", PyFloat (Finite (tskit.right row)));
      ("parent", PyInt (tskit.parent row));
      ("child", PyInt (tskit.child row)) ]
    ++ match chromosome with
       | Some c => [("parent_chromosome", PyInt c);
                    ("child_chromosome", PyInt c)]
       | None => []
       end.
Proof. by destruct chromosome. Qed.

(** X24. [iedges.append(obj)] on the object [from_tree_sequence] makes of
    an edge row of tskit, for a table whose rows are still a list ([freeze]
    makes them a tuple): when [left] and
    [right] are whole numbers the appended row has them, as integers, on
    both the child and the parent side, the row's [child] and [parent],
    [NULL] as edge id and the chromosome ([NULL] without one) on both
    sides, whatever the metadata; otherwise the call raises the
    not-an-integer [ValueError], for [left] first, and appends nothing. *)
Theorem IEdgeTable_append_tskit_edge {K : Constants} (chromosome : option Z)
  (metadata : pyval) (row : tskit.EdgeRow) (t : IEdgeTable dynrow) :
  _data_kind (rows t) = ListSeq ->
  IEdgeTable_append (DictObj (edge_obj chromosome metadata row)) t
  = if integral_coordinates row
    then (mkIEdgeTable
            (with_rows
               (_data (rows t)
                ++ [IEdgeTableRow.to_dyn (imported_edge chromosome row)])
               (rows t))
            (flags t) (first_edge_for_child t),
          Ok (len (rows t)))
    else (t, raise ValueError
               (ExpectedInteger None
                  (PyFloat (Finite (if float_is_integer
                                         (Finite (tskit.left row))
                                    then tskit.right row
                                    else tskit.left row))))).
Proof.
  destruct t as [[d k fr] fl fe]. cbn [rows _data_kind]. intros ->.
  unfold IEdgeTable_append. cbn [to_dict]. rewrite edge_obj_kwargs.
  destruct row as [l r p c].
  unfold integral_coordinates. cbn [tskit.left tskit.right].
  unfold add_int_row, inherited, add_row, append_row, imported_edge,
    with_rows, len.
  destruct chromosome as [ch|];
    cbn -[float_is_integer float_to_int];
    destruct (float_is_integer (Finite l)); cbn -[float_is_integer float_to_int];
    try reflexivity;
    destruct (float_is_integer (Finite r)); cbn -[float_is_integer float_to_int];
    try reflexivity;
    rewrite length_app; cbn [length]; do 2 f_equal; lia.
Qed.

Lemma IEdgeTable_append_tskit_edge_witness :
  IEdgeTable_append (K := tskit_like_constants)
    (DictObj (edge_obj (Some 7) PyNone (tskit.mkEdge 0 (5 # 2) 1 0)))
    (mkIEdgeTable (mkBaseTable [] ListSeq false) 3 ∅)
  = (mkIEdgeTable (mkBaseTable [] ListSeq false) 3 ∅,
     raise ValueError (ExpectedInteger None (PyFloat (Finite (5 # 2))))).
Proof.
  exact (IEdgeTable_append_tskit_edge (K := tskit_like_constants) (Some 7)
           PyNone (tskit.mkEdge 0 (5 # 2) 1 0)
           (mkIEdgeTable (mkBaseTable [] ListSeq false) 3 ∅) eq_refl).
Defined.

(** ** [BaseTable.__getattr__]: columns *)



(** ** The columns of the typed tables *)



(** ** [Tables.copy] *)

(** X27. [copy()] of an aggregate, frozen or not, has the same rows and
    time units (it compares equal), and nothing in it is frozen: the
    methods a frozen aggregate refuses work on its copy. [change_times]
    returns normally, and so does [sort()] when every child is the index
    of a node, giving a permutation of the original's edges. *)
Theorem Tables_copy_thaws {K : Constants} (T : Tables) :
  Tables_eq (Tables_copy T) T
  /\ Tables_copy T
     = mkTables (unfrozen (_data (nodes T)))
         (fresh_iedges (_data (rows (iedges T))))
         (unfrozen (_data (individuals T))) (time_units T) false
  /\ (forall float_add timedelta,
        exists T', change_times float_add timedelta (Tables_copy T)
                   = (T', Ok tt)
                   /\ _data (nodes T')
                      = map (shifted_node float_add timedelta)
                          (_data (nodes T)))
  /\ (Forall (fun r => 0 <= IEdgeTableRow.child r < len (nodes T))
        (_data (rows (iedges T))) ->
      exists T', sort (Tables_copy T) = (T', Ok tt)
                 /\ Permutation (_data (rows (iedges T')))
                      (_data (rows (iedges T)))
                 /\ nodes T' = unfrozen (_data (nodes T))).
Proof.
  split; [done|]. split; [done|]. split.
  - intros fa d. rewrite change_times_spec. eexists. split; reflexivity.
  - intros Hch. destruct (sort_total (Tables_copy T)) as [T' HT']; [done|done|].
    exists T'. split; [done|].
    pose proof (sort_permutes_edges _ _ HT') as (HN & _ & _ & HP).
    rewrite HN. by split.
Qed.

Lemma Tables_copy_thaws_witness :
  exists T',
    sort (K := tskit_like_constants)
      (Tables_copy (K := tskit_like_constants)
         (set_Tables_frozen true (scenario (K := tskit_like_constants))))
    = (T', Ok tt)
    /\ Permutation (_data (rows (iedges T')))
         (_data (rows (iedges (scenario (K := tskit_like_constants))))).
Proof.
  destruct (proj2 (proj2 (proj2 (Tables_copy_thaws (K := tskit_like_constants)
              (set_Tables_frozen true (scenario (K := tskit_like_constants)))))))
    as (T' & HT' & HP & _).
  - repeat constructor; cbn; lia.
  - by exists T'.
Defined.
